(** * The jlearn unit-data audit script, embedded in Rocq

    The audit script walks the parsed JSON of every unit file, records
    findings in a global [issues] array, cross-references the chapter
    manifest against the files on disk and prints a verdict.  This file
    embeds the script function by function and proves properties of it.
    It then embeds the code of the site that reads the same unit files:
    the unit modules ([loadUnit.ts]), the search index and the search
    ([buildSearchIndex.ts], [Search.tsx]), and the state machines of the
    quiz and flashcard components ([Quiz.tsx], [Flashcard.tsx]).

    Conventions of the embedding:
    - a parsed JSON document is a [json] tree; object fields are kept in
      the order in which [Object.entries] enumerates them;
    - [undefined] is the [None] of [jsval];
    - strings are byte strings holding the UTF-8 encoding of the text, so
      that [includes] and [startsWith] agree with their JavaScript
      counterparts on well-formed text;
    - a JSON number is the exact rational value of the finite double it was
      parsed to;
    - the global variables [issues], [totalUnitsChecked] and
      [totalSectionsChecked] form the [State] threaded by the monad [M];
      an uncaught [TypeError] (property access on [null]) is the [None]
      outcome of [M];
    - a component is the transition system of its event handlers: an
      event is handled in the state of the rendering that precedes it, and
      the component is rendered again before the next event is handled. *)

From Stdlib Require Import String Ascii List Arith Lia Bool.
From Stdlib Require Import ZArith QArith Qround Permutation Sorted.
From Stdlib Require Import DecimalString DecimalNat.
Import ListNotations.

Open Scope nat_scope.
Open Scope list_scope.
Open Scope string_scope.

(** ** JavaScript values *)

Local Set Warnings "-register-all".

Inductive json : Type :=
| JNull
| JBool (b : bool)
| JNum (q : Q)
| JStr (s : string)
| JArr (items : list json)
| JObj (fields : list (string * json)).

(** A value read from a document: [None] is [undefined]. *)
Definition jsval : Type := option json.

Section JsonInduction.
Variable P : json -> Prop.
Hypothesis Hnull : P JNull.
Hypothesis Hbool : forall b, P (JBool b).
Hypothesis Hnum : forall q, P (JNum q).
Hypothesis Hstr : forall s, P (JStr s).
Hypothesis Harr : forall items, Forall P items -> P (JArr items).
Hypothesis Hobj : forall fields, Forall (fun kv => P (snd kv)) fields -> P (JObj fields).

Fixpoint json_tree_ind (v : json) : P v :=
  match v with
  | JNull => Hnull
  | JBool b => Hbool b
  | JNum q => Hnum q
  | JStr s => Hstr s
  | JArr items =>
      Harr items
        ((fix all (l : list json) : Forall P l :=
            match l with
            | [] => Forall_nil P
            | x :: l' => Forall_cons x (json_tree_ind x) (all l')
            end) items)
  | JObj fields =>
      Hobj fields
        ((fix all (l : list (string * json)) : Forall (fun kv => P (snd kv)) l :=
            match l with
            | [] => Forall_nil _
            | kv :: l' => Forall_cons kv (json_tree_ind (snd kv)) (all l')
            end) fields)
  end.
End JsonInduction.

(** The double quote character, as a one-character string. *)
Definition dq : string := String (ascii_of_nat 34) EmptyString.

(** Decimal rendering of an array index or of a chapter number. *)
Definition dec (n : nat) : string := NilEmpty.string_of_uint (Nat.to_uint n).

(** [s.startsWith(p)] *)
Definition startsWith (s p : string) : bool := prefix p s.

(** [s.includes(p)] *)
Fixpoint includes (s p : string) : bool :=
  prefix p s ||
  match s with
  | EmptyString => false
  | String _ s' => includes s' p
  end.

(** [s.replace(p, r)] with a string pattern: the first occurrence only. *)
Fixpoint replace (s p r : string) : string :=
  if prefix p s then r ++ substring (String.length p) (String.length s) s
  else match s with
       | EmptyString => EmptyString
       | String c s' => String c (replace s' p r)
       end.

(** [l.join(sep)] on strings. *)
Fixpoint join (sep : string) (l : list string) : string :=
  match l with
  | [] => EmptyString
  | [x] => x
  | x :: l' => x ++ sep ++ join sep l'
  end.

(** Own-property lookup in the entries of a parsed object. *)
Fixpoint lookup (k : string) (fields : list (string * json)) : jsval :=
  match fields with
  | [] => None
  | (k', v) :: rest => if k' =? k then Some v else lookup k rest
  end.

(** [v[k]] for the field names the audit reads.  None of them is a
    built-in property of strings, numbers, booleans or arrays, so on those
    the read is [undefined]; on [null] it throws ([None]). *)
Definition getProp (v : json) (k : string) : option jsval :=
  match v with
  | JNull => None
  | JObj fields => Some (lookup k fields)
  | _ => Some None
  end.

(** JavaScript truthiness. *)
Definition truthy (v : jsval) : bool :=
  match v with
  | None => false
  | Some JNull => false
  | Some (JBool b) => b
  | Some (JNum q) => negb (Qeq_bool q 0)
  | Some (JStr s) => negb (s =? EmptyString)
  | Some (JArr _) => true
  | Some (JObj _) => true
  end.

(** [a || b] *)
Definition orElse (a b : jsval) : jsval := if truthy a then a else b.

(** [v === undefined || v === null] *)
Definition nullish (v : jsval) : bool :=
  match v with
  | None | Some JNull => true
  | _ => false
  end.

(** [v === ''] *)
Definition isEmptyStr (v : jsval) : bool :=
  match v with
  | Some (JStr s) => s =? EmptyString
  | _ => false
  end.

(** [Array.isArray(v)] *)
Definition isArray (v : jsval) : bool :=
  match v with
  | Some (JArr _) => true
  | _ => false
  end.

(** The names [Object.prototype] defines: a lookup [seen[f]] in an object
    literal finds them (all truthy) even when [f] was never stored. *)
Definition objectPrototypeNames : list string :=
  [ "constructor"; "__defineGetter__"; "__defineSetter__"; "hasOwnProperty";
    "__lookupGetter__"; "__lookupSetter__"; "isPrototypeOf";
    "propertyIsEnumerable"; "toString"; "valueOf"; "__proto__";
    "toLocaleString" ].

Definition inb (k : string) (l : list string) : bool :=
  existsb (String.eqb k) l.

(** ** The audit state and its monad *)

Record Issue : Type := mkIssue
  { file : string; sectionType : string; problem : string }.

Record State : Type := mkState
  { issues : list Issue;
    totalUnitsChecked : nat;
    totalSectionsChecked : nat }.

Definition initialState : State := mkState [] 0 0.

Definition M (A : Type) : Type := State -> option (A * State).

Definition ret {A} (a : A) : M A := fun st => Some (a, st).

Definition bind {A B} (m : M A) (k : A -> M B) : M B :=
  fun st => match m st with
            | Some (a, st') => k a st'
            | None => None
            end.

(** An uncaught exception. *)
Definition throw {A} : M A := fun _ => None.

Definition liftOpt {A} (o : option A) : M A :=
  match o with
  | Some a => ret a
  | None => throw
  end.

Declare Scope audit_scope.
Delimit Scope audit_scope with audit.
Notation "x <- m ;; k" := (bind m (fun x => k))
  (at level 61, m at next level, right associativity) : audit_scope.
Notation "m ;; k" := (bind m (fun _ => k))
  (at level 61, right associativity) : audit_scope.
Open Scope audit_scope.

(** [v.k] inside the monad. *)
Definition get (v : json) (k : string) : M jsval := liftOpt (getProp v k).

Definition addIssue (file sectionType problem : string) : M unit :=
  fun st => Some (tt, mkState (issues st ++ [mkIssue file sectionType problem])
                              (totalUnitsChecked st)
                              (totalSectionsChecked st)).

Definition incrUnits : M unit :=
  fun st => Some (tt, mkState (issues st) (S (totalUnitsChecked st))
                              (totalSectionsChecked st)).

Definition incrSections : M unit :=
  fun st => Some (tt, mkState (issues st) (totalUnitsChecked st)
                              (S (totalSectionsChecked st))).

(** [l.forEach((x, i) => f x i)] *)
Definition forEach {A} (f : A -> nat -> M unit) : list A -> M unit :=
  (fix go (i : nat) (l : list A) : M unit :=
     match l with
     | [] => ret tt
     | x :: l' => f x i ;; go (S i) l'
     end) 0.

(** [for (const x of l) f x] *)
Definition forOf {A} (f : A -> M unit) : list A -> M unit :=
  fix go (l : list A) : M unit :=
    match l with
    | [] => ret tt
    | x :: l' => f x ;; go l'
    end.

(** The state after the issues [l] have been pushed. *)
Definition pushIssues (st : State) (l : list Issue) : State :=
  mkState (issues st ++ l) (totalUnitsChecked st) (totalSectionsChecked st).

(** [v[k]] on a value that is not [null]. *)
Definition field (v : json) (k : string) : jsval :=
  match getProp v k with
  | Some x => x
  | None => None
  end.

(** ** Content scanners *)

(** A match of the forbidden-name scanner. *)
Record ForbiddenMatch : Type := mkMatch
  { path : string; matched : string }.

Definition kuroki1 : string := "黑木".
Definition kuroki2 : string := "黒木".

(** [findEmptyStrings(obj, currentPath, results)]: the array [results] is
    extended in place; the function returns its new contents. *)
Fixpoint findEmptyStrings (obj : json) (currentPath : string)
  (results : list string) : list string :=
  match obj with
  | JNull => results
  | JStr s =>
      if s =? EmptyString then results ++ [currentPath] else results
  | JArr items =>
      (fix each (l : list json) (i : nat) (results : list string) :=
         match l with
         | [] => results
         | item :: l' =>
             each l' (S i)
               (findEmptyStrings item (currentPath ++ "[" ++ dec i ++ "]") results)
         end) items 0 results
  | JObj fields =>
      (fix each (l : list (string * json)) (results : list string) :=
         match l with
         | [] => results
         | (key, val) :: l' =>
             each l' (findEmptyStrings val (currentPath ++ "." ++ key) results)
         end) fields results
  | JBool _ | JNum _ => results
  end.

(** [findForbiddenNames(obj, currentPath, results)] *)
Fixpoint findForbiddenNames (obj : json) (currentPath : string)
  (results : list ForbiddenMatch) : list ForbiddenMatch :=
  match obj with
  | JNull => results
  | JStr s =>
      if includes s kuroki1 || includes s kuroki2 then
        let matched := if includes s kuroki1 then kuroki1 else kuroki2 in
        results ++ [mkMatch currentPath matched]
      else results
  | JArr items =>
      (fix each (l : list json) (i : nat) (results : list ForbiddenMatch) :=
         match l with
         | [] => results
         | item :: l' =>
             each l' (S i)
               (findForbiddenNames item (currentPath ++ "[" ++ dec i ++ "]") results)
         end) items 0 results
  | JObj fields =>
      (fix each (l : list (string * json)) (results : list ForbiddenMatch) :=
         match l with
         | [] => results
         | (key, val) :: l' =>
             each l' (findForbiddenNames val (currentPath ++ "." ++ key) results)
         end) fields results
  | JBool _ | JNum _ => results
  end.

(** ** Section validators *)

(** A number rendering for the examples: it agrees with
    [Number.prototype.toString] on the integers of magnitude below 10^21,
    the only numbers the examples render. *)
Definition integerToString (q : Q) : string :=
  NilZero.string_of_int (Z.to_int (Qnum q / Zpos (Qden q))).

Section Audit.

(** [Number.prototype.toString] on the doubles, which the embedding does
    not fix: every result below holds for each such function. *)
Variable number_to_string : Q -> string.

(** [String(v)], the conversion a template literal and a property key
    apply to a parsed value. *)
Fixpoint toStr (v : json) : string :=
  match v with
  | JNull => "null"
  | JBool b => if b then "true" else "false"
  | JNum q => number_to_string q
  | JStr s => s
  | JArr items =>
      join ","
        (map (fun x => match x with JNull => EmptyString | _ => toStr x end) items)
  | JObj _ => "[object Object]"
  end.

Definition show (v : jsval) : string :=
  match v with
  | None => "undefined"
  | Some j => toStr j
  end.

Definition quoted (s : string) : string := dq ++ s ++ dq.

(** The elements of a value already known to be an array. *)
Definition elements (v : jsval) : list json :=
  match v with
  | Some (JArr l) => l
  | _ => []
  end.

Definition emptyStr : jsval := Some (JStr EmptyString).
Definition questionMark : jsval := Some (JStr "?").

(** [`sections[${sectionIndex}] (kind "${section.title || ''}")`] *)
Definition sectionPrefix (sectionIndex : nat) (kind : string) (title : jsval) : string :=
  "sections[" ++ dec sectionIndex ++ "] (" ++ kind ++ " "
    ++ quoted (show (orElse title emptyStr)) ++ ")".

Definition vocabRequiredFields : list string :=
  ["japanese"; "reading"; "romaji"; "chinese"; "example"; "exampleChinese"].

(** The callback of [section.items.forEach] in [checkVocab]. *)
Definition checkVocabItem (prefix filePath : string) (item : json) (i : nat) : M unit :=
  forOf (fun field =>
           v <- get item field ;;
           if nullish v then
             japanese <- get item "japanese" ;;
             addIssue filePath "vocab"
               (prefix ++ ": items[" ++ dec i ++ "] missing " ++ quoted field
                  ++ " (japanese: " ++ quoted (show (orElse japanese questionMark)) ++ ")")
           else ret tt)
        vocabRequiredFields.

Definition checkVocab (section : json) (filePath : string) (sectionIndex : nat) : M unit :=
  title <- get section "title" ;;
  let prefix := sectionPrefix sectionIndex "vocab" title in
  items <- get section "items" ;;
  if negb (truthy items) then
    addIssue filePath "vocab" (prefix ++ ": missing " ++ quoted "items" ++ " array")
  else if negb (isArray items) then
    addIssue filePath "vocab" (prefix ++ ": " ++ quoted "items" ++ " is not an array")
  else if Nat.eqb (length (elements items)) 0 then
    addIssue filePath "vocab" (prefix ++ ": " ++ quoted "items" ++ " array is empty")
  else forEach (checkVocabItem prefix filePath) (elements items).

Definition dialogueRequiredFields : list string := ["speaker"; "japanese"; "chinese"].

(** The callback of [section.lines.forEach] in [checkDialogue]. *)
Definition checkDialogueLine (prefix filePath : string) (line : json) (i : nat) : M unit :=
  forOf (fun field =>
           v <- get line field ;;
           if nullish v then
             addIssue filePath "dialogue"
               (prefix ++ ": lines[" ++ dec i ++ "] missing " ++ quoted field)
           else ret tt)
        dialogueRequiredFields.

Definition checkDialogue (section : json) (filePath : string) (sectionIndex : nat) : M unit :=
  title <- get section "title" ;;
  let prefix := sectionPrefix sectionIndex "dialogue" title in
  scene <- get section "scene" ;;
  (if negb (truthy scene) && negb (isEmptyStr scene) then
     addIssue filePath "dialogue" (prefix ++ ": missing " ++ quoted "scene")
   else ret tt) ;;
  (if isEmptyStr scene then
     addIssue filePath "dialogue" (prefix ++ ": " ++ quoted "scene" ++ " is an empty string")
   else ret tt) ;;
  lines <- get section "lines" ;;
  if negb (truthy lines) then
    addIssue filePath "dialogue" (prefix ++ ": missing " ++ quoted "lines" ++ " array")
  else if negb (isArray lines) then
    addIssue filePath "dialogue" (prefix ++ ": " ++ quoted "lines" ++ " is not an array")
  else if Nat.eqb (length (elements lines)) 0 then
    addIssue filePath "dialogue" (prefix ++ ": " ++ quoted "lines" ++ " array is empty")
  else forEach (checkDialogueLine prefix filePath) (elements lines).

Definition grammarRequiredFields : list string := ["pattern"; "meaning"; "structure"].

(** The callback of [section.points.forEach] in [checkGrammar]. *)
Definition checkGrammarPoint (prefix filePath : string) (pt : json) (i : nat) : M unit :=
  forOf (fun field =>
           v <- get pt field ;;
           if nullish v then
             pattern <- get pt "pattern" ;;
             addIssue filePath "grammar"
               (prefix ++ ": points[" ++ dec i ++ "] missing " ++ quoted field
                  ++ " (pattern: " ++ quoted (show (orElse pattern questionMark)) ++ ")")
           else ret tt)
        grammarRequiredFields ;;
  examples <- get pt "examples" ;;
  pattern <- get pt "pattern" ;;
  if negb (truthy examples) then
    addIssue filePath "grammar"
      (prefix ++ ": points[" ++ dec i ++ "] missing " ++ quoted "examples"
         ++ " array (pattern: " ++ quoted (show (orElse pattern questionMark)) ++ ")")
  else if negb (isArray examples) || Nat.eqb (length (elements examples)) 0 then
    addIssue filePath "grammar"
      (prefix ++ ": points[" ++ dec i ++ "] " ++ quoted "examples"
         ++ " is empty or not an array (pattern: "
         ++ quoted (show (orElse pattern questionMark)) ++ ")")
  else ret tt.

Definition checkGrammar (section : json) (filePath : string) (sectionIndex : nat) : M unit :=
  title <- get section "title" ;;
  let prefix := sectionPrefix sectionIndex "grammar" title in
  points <- get section "points" ;;
  if negb (truthy points) then
    addIssue filePath "grammar" (prefix ++ ": missing " ++ quoted "points" ++ " array")
  else if negb (isArray points) then
    addIssue filePath "grammar" (prefix ++ ": " ++ quoted "points" ++ " is not an array")
  else if Nat.eqb (length (elements points)) 0 then
    addIssue filePath "grammar" (prefix ++ ": " ++ quoted "points" ++ " array is empty")
  else forEach (checkGrammarPoint prefix filePath) (elements points).

Definition flashcardRequiredFields : list string :=
  ["japanese"; "reading"; "romaji"; "chinese"].

(** The test [card.front !== undefined || card.back !== undefined]. *)
Definition usesOldFormat (front back : jsval) : bool :=
  match front, back with
  | None, None => false
  | _, _ => true
  end.

(** The callback of [section.cards.forEach] in [checkFlashcards]. *)
Definition checkFlashcardsCard (prefix filePath : string) (card : json) (i : nat) : M unit :=
  front <- get card "front" ;;
  back <- get card "back" ;;
  (if usesOldFormat front back then
     addIssue filePath "flashcards"
       (prefix ++ ": cards[" ++ dec i ++ "] uses old " ++ quoted "front/back"
          ++ " format instead of " ++ quoted "japanese/reading/romaji/chinese")
   else ret tt) ;;
  forOf (fun field =>
           v <- get card field ;;
           if nullish v then
             japanese <- get card "japanese" ;;
             addIssue filePath "flashcards"
               (prefix ++ ": cards[" ++ dec i ++ "] missing " ++ quoted field
                  ++ " (japanese: "
                  ++ quoted (show (orElse (orElse japanese front) questionMark)) ++ ")")
           else ret tt)
        flashcardRequiredFields.

(** [c.japanese || c.front || ''] *)
Definition cardFront (c : json) : M jsval :=
  japanese <- get c "japanese" ;;
  front <- get c "front" ;;
  ret (orElse (orElse japanese front) emptyStr).

(** [cards.map(f)] for a callback that reads its argument. *)
Definition mapM {A B} (f : A -> M B) : list A -> M (list B) :=
  fix go (l : list A) : M (list B) :=
    match l with
    | [] => ret []
    | x :: l' => y <- f x ;; ys <- go l' ;; ret (y :: ys)
    end.

(** [seen[f]]: the own properties stored so far, then [Object.prototype]. *)
Definition seenHas (seen : list string) (f : jsval) : bool :=
  inb (show f) seen || inb (show f) objectPrototypeNames.

(** [seen[f] = true]; assigning a boolean to [__proto__] stores nothing. *)
Definition seenSet (seen : list string) (f : jsval) : list string :=
  if show f =? "__proto__" then seen else show f :: seen.

(** The loop [for (const f of fronts)] with its local object [seen]. *)
Fixpoint duplicateLoop (prefix filePath : string) (fronts : list jsval)
  (seen : list string) : M unit :=
  match fronts with
  | [] => ret tt
  | f :: rest =>
      (if seenHas seen f then
         addIssue filePath "flashcards"
           (prefix ++ ": DUPLICATE flashcard front/japanese value: " ++ quoted (show f))
       else ret tt) ;;
      duplicateLoop prefix filePath rest (seenSet seen f)
  end.

(** The duplicate check that ends [checkFlashcards]. *)
Definition checkFlashcardsDuplicates (prefix filePath : string) (cards : list json) : M unit :=
  mapped <- mapM cardFront cards ;;
  let fronts := filter (fun f => negb (isEmptyStr f)) mapped in
  duplicateLoop prefix filePath fronts [].

Definition checkFlashcards (section : json) (filePath : string) (sectionIndex : nat) : M unit :=
  title <- get section "title" ;;
  let prefix := sectionPrefix sectionIndex "flashcards" title in
  cards <- get section "cards" ;;
  if negb (truthy cards) then
    addIssue filePath "flashcards" (prefix ++ ": missing " ++ quoted "cards" ++ " array")
  else if negb (isArray cards) then
    addIssue filePath "flashcards" (prefix ++ ": " ++ quoted "cards" ++ " is not an array")
  else if Nat.eqb (length (elements cards)) 0 then
    addIssue filePath "flashcards" (prefix ++ ": " ++ quoted "cards" ++ " array is empty")
  else
    forEach (checkFlashcardsCard prefix filePath) (elements cards) ;;
    checkFlashcardsDuplicates prefix filePath (elements cards).

(** The first statement of the callback in [checkQuiz]: [!q.question]. *)
Definition checkQuizQuestion (prefix filePath : string) (q : json) (i : nat) : M unit :=
  question <- get q "question" ;;
  if negb (truthy question) then
    addIssue filePath "quiz"
      (prefix ++ ": questions[" ++ dec i ++ "] missing " ++ quoted "question")
  else ret tt.

(** The second statement: the three tests on [q.options]. *)
Definition checkQuizOptions (prefix filePath : string) (q : json) (i : nat) : M unit :=
  options <- get q "options" ;;
  question <- get q "question" ;;
  if negb (truthy options) then
    addIssue filePath "quiz"
      (prefix ++ ": questions[" ++ dec i ++ "] missing " ++ quoted "options")
  else if negb (isArray options) then
    addIssue filePath "quiz"
      (prefix ++ ": questions[" ++ dec i ++ "] " ++ quoted "options" ++ " is not an array")
  else if negb (Nat.eqb (length (elements options)) 4) then
    addIssue filePath "quiz"
      (prefix ++ ": questions[" ++ dec i ++ "] has " ++ dec (length (elements options))
         ++ " options (expected 4): " ++ quoted (show (orElse question questionMark)))
  else ret tt.

(** [typeof c !== 'number' || c < 0 || c > 3] on a value that is neither
    [undefined] nor [null]. *)
Definition correctOutOfRange (c : jsval) : bool :=
  match c with
  | Some (JNum q) => negb (Qle_bool 0 q) || negb (Qle_bool q 3)
  | _ => true
  end.

(** The third statement: the two tests on [q.correct]. *)
Definition checkQuizCorrect (prefix filePath : string) (q : json) (i : nat) : M unit :=
  correct <- get q "correct" ;;
  question <- get q "question" ;;
  if nullish correct then
    addIssue filePath "quiz"
      (prefix ++ ": questions[" ++ dec i ++ "] missing " ++ quoted "correct")
  else if correctOutOfRange correct then
    addIssue filePath "quiz"
      (prefix ++ ": questions[" ++ dec i ++ "] " ++ quoted "correct" ++ " is "
         ++ show correct ++ " (expected 0-3): "
         ++ quoted (show (orElse question questionMark)))
  else ret tt.

(** The fourth statement: [!q.explanation]. *)
Definition checkQuizExplanation (prefix filePath : string) (q : json) (i : nat) : M unit :=
  explanation <- get q "explanation" ;;
  question <- get q "question" ;;
  if negb (truthy explanation) then
    addIssue filePath "quiz"
      (prefix ++ ": questions[" ++ dec i ++ "] missing " ++ quoted "explanation" ++ ": "
         ++ quoted (show (orElse question questionMark)))
  else ret tt.

(** The callback of [section.questions.forEach] in [checkQuiz]. *)
Definition checkQuizItem (prefix filePath : string) (q : json) (i : nat) : M unit :=
  checkQuizQuestion prefix filePath q i ;;
  checkQuizOptions prefix filePath q i ;;
  checkQuizCorrect prefix filePath q i ;;
  checkQuizExplanation prefix filePath q i.

Definition checkQuiz (section : json) (filePath : string) (sectionIndex : nat) : M unit :=
  title <- get section "title" ;;
  let prefix := sectionPrefix sectionIndex "quiz" title in
  questions <- get section "questions" ;;
  if negb (truthy questions) then
    addIssue filePath "quiz" (prefix ++ ": missing " ++ quoted "questions" ++ " array")
  else if negb (isArray questions) then
    addIssue filePath "quiz" (prefix ++ ": " ++ quoted "questions" ++ " is not an array")
  else if Nat.eqb (length (elements questions)) 0 then
    addIssue filePath "quiz" (prefix ++ ": " ++ quoted "questions" ++ " array is empty")
  else forEach (checkQuizItem prefix filePath) (elements questions).

Definition checkCulture (section : json) (filePath : string) (sectionIndex : nat) : M unit :=
  title <- get section "title" ;;
  let prefix := sectionPrefix sectionIndex "culture" title in
  content <- get section "content" ;;
  (if negb (truthy content) && negb (isEmptyStr content) then
     addIssue filePath "culture" (prefix ++ ": missing " ++ quoted "content")
   else ret tt) ;;
  (if isEmptyStr content then
     addIssue filePath "culture" (prefix ++ ": " ++ quoted "content" ++ " is an empty string")
   else ret tt).

(** ** Main audit *)

(** What [fs.readFileSync] followed by [JSON.parse] gives for one file:
    the message of the exception caught, or the parsed data. *)
Inductive ParseResult : Type :=
| ParseError (message : string)
| Parsed (data : json).

(** [sectionTypes.has(req)] for a string [req]; the set is kept as the
    list of the values added to it. *)
Definition setHas (sectionTypes : list jsval) (req : string) : bool :=
  existsb (fun v => match v with
                    | Some (JStr s) => s =? req
                    | _ => false
                    end) sectionTypes.

(** The [switch (sType)] of [auditUnit]. *)
Definition dispatchSection (rel : string) (section : json) (idx : nat) (sType : jsval) : M unit :=
  match sType with
  | Some (JStr s) =>
      if s =? "vocab" then checkVocab section rel idx
      else if s =? "dialogue" then checkDialogue section rel idx
      else if s =? "grammar" then checkGrammar section rel idx
      else if s =? "flashcards" then checkFlashcards section rel idx
      else if s =? "quiz" then checkQuiz section rel idx
      else if s =? "culture" then checkCulture section rel idx
      else addIssue rel "general"
             ("sections[" ++ dec idx ++ "] has unknown type: " ++ quoted (show sType))
  | _ => addIssue rel "general"
           ("sections[" ++ dec idx ++ "] has unknown type: " ++ quoted (show sType))
  end.

(** The callback of [data.sections.forEach]; it returns the new contents
    of the local set [sectionTypes]. *)
Definition auditSection (rel : string) (section : json) (idx : nat)
  (sectionTypes : list jsval) : M (list jsval) :=
  incrSections ;;
  sType <- get section "type" ;;
  let sectionTypes := (sectionTypes ++ [sType])%list in
  if negb (truthy sType) then
    addIssue rel "general" ("sections[" ++ dec idx ++ "] missing " ++ quoted "type") ;;
    ret sectionTypes
  else
    dispatchSection rel section idx sType ;;
    ret sectionTypes.

Fixpoint auditSections (rel : string) (sections : list json) (idx : nat)
  (sectionTypes : list jsval) : M (list jsval) :=
  match sections with
  | [] => ret sectionTypes
  | section :: rest =>
      sectionTypes' <- auditSection rel section idx sectionTypes ;;
      auditSections rel rest (S idx) sectionTypes'
  end.

Definition generalFields : list string := ["title"; "intro"; "estimatedTime"; "sections"].
Definition requiredSections : list string :=
  ["flashcards"; "quiz"; "vocab"; "dialogue"; "grammar"].

(** The checks of [auditUnit] that precede the test on [data.sections]. *)
Definition checkGeneralFields (rel : string) (data : json) : M unit :=
  forOf (fun field =>
           v <- get data field ;;
           if nullish v then
             addIssue rel "general" ("Missing top-level field: " ++ quoted field)
           else ret tt)
        generalFields ;;
  title <- get data "title" ;;
  (if isEmptyStr title then
     addIssue rel "general" (quoted "title" ++ " is an empty string")
   else ret tt) ;;
  intro <- get data "intro" ;;
  (if isEmptyStr intro then
     addIssue rel "general" (quoted "intro" ++ " is an empty string")
   else ret tt) ;;
  estimatedTime <- get data "estimatedTime" ;;
  (if isEmptyStr estimatedTime then
     addIssue rel "general" (quoted "estimatedTime" ++ " is an empty string")
   else ret tt).

Definition cannotContinue : string :=
  quoted "sections" ++ " is missing or not an array — cannot continue checking this unit".

(** The check that each required section type is present. *)
Definition checkRequiredSections (rel : string) (sectionTypes : list jsval) : M unit :=
  forOf (fun req =>
           if negb (setHas sectionTypes req) then
             addIssue rel "missing-section"
               ("Unit is missing a " ++ quoted req ++ " section")
           else ret tt)
        requiredSections.

(** Step 8 of [auditUnit]: the forbidden names. *)
Definition reportForbiddenNames (rel : string) (data : json) : M unit :=
  let forbiddenResults := findForbiddenNames data "root" [] in
  forOf (fun r =>
           addIssue rel "forbidden-name"
             ("Found forbidden name " ++ quoted (matched r) ++ " at " ++ path r))
        forbiddenResults.

(** Step 9 of [auditUnit]: the empty strings. *)
Definition reportEmptyStrings (rel : string) (data : json) : M unit :=
  let emptyResults := findEmptyStrings data "root" [] in
  forOf (fun p =>
           if startsWith p "root.sections" then
             addIssue rel "empty-string" ("Empty string at " ++ p)
           else ret tt)
        emptyResults.

(** [auditUnit(filePath)], given the relative path of the file and the
    outcome of reading and parsing it. *)
Definition auditUnit (rel : string) (raw : ParseResult) : M unit :=
  match raw with
  | ParseError message =>
      addIssue rel "parse" ("Failed to parse JSON: " ++ message)
  | Parsed data =>
      incrUnits ;;
      checkGeneralFields rel data ;;
      sections <- get data "sections" ;;
      if negb (truthy sections) || negb (isArray sections) then
        addIssue rel "general" cannotContinue
      else if Nat.eqb (length (elements sections)) 0 then
        addIssue rel "general" (quoted "sections" ++ " array is empty")
      else
        sectionTypes <- auditSections rel (elements sections) 0 [] ;;
        checkRequiredSections rel sectionTypes ;;
        reportForbiddenNames rel data ;;
        reportEmptyStrings rel data
  end.

(** ** Cross-reference of chapters.ts against the files on disk *)

(** An entry returned by [parseChaptersTsRefs]. *)
Record Ref : Type := mkRef { chapterId : nat; unitId : string }.

(** A path returned by [discoverUnitFiles]:
    [path.join(DATA_DIR, chapterDir, unitFileName)]. *)
Record UnitPath : Type := mkUnitPath { chapterDir : string; unitFileName : string }.

(** [`ch${r.chapterId}/${r.unitId}`] *)
Definition refKey (r : Ref) : string :=
  "ch" ++ dec (chapterId r) ++ "/" ++ unitId r.

(** The last two components of the path, the file name without its
    [.json]. *)
Definition actualKey (f : UnitPath) : string :=
  chapterDir f ++ "/" ++ replace (unitFileName f) ".json" EmptyString.

(** [set.add(k)] on a [Set] of strings kept in insertion order. *)
Definition setAdd (s : list string) (k : string) : list string :=
  if inb k s then s else (s ++ [k])%list.

(** [new Set(l)] *)
Definition newSet (l : list string) : list string := fold_left setAdd l [].

(** A line printed by [crossReferenceChapters] for a mismatch. *)
Inductive Finding : Type :=
| MissingFile (ref : string)
| OrphanFile (actual : string).

Definition findingLine (f : Finding) : string :=
  match f with
  | MissingFile ref =>
      "  [MISSING FILE] " ++ ref
        ++ ".json is referenced in chapters.ts but file does not exist!"
  | OrphanFile actual =>
      "  [ORPHAN FILE] " ++ actual
        ++ ".json exists but is NOT referenced in chapters.ts!"
  end.

(** [crossReferenceChapters()], given what [parseChaptersTsRefs] and
    [discoverUnitFiles] return: the mismatches printed, in order, and the
    counter [crossIssues] returned. *)
Definition crossReferenceChapters (tsRefs : list Ref) (actualFiles : list UnitPath)
  : list Finding * nat :=
  let tsSet := newSet (map refKey tsRefs) in
  let actualSet := newSet (map actualKey actualFiles) in
  let afterMissing :=
    fold_left (fun (acc : list Finding * nat) ref =>
                 if negb (inb ref actualSet)
                 then ((fst acc ++ [MissingFile ref])%list, S (snd acc))
                 else acc)
              tsSet ([], 0) in
  fold_left (fun (acc : list Finding * nat) actual =>
               if negb (inb actual tsSet)
               then ((fst acc ++ [OrphanFile actual])%list, S (snd acc))
               else acc)
            actualSet afterMissing.

(** ** The run *)

Inductive Verdict : Type := PASS | FAIL.

(** The final verdict printed from [issues.length + crossIssues]. *)
Definition finalVerdict (issues : list Issue) (crossIssues : nat) : Verdict :=
  let totalProblems := length issues + crossIssues in
  if Nat.eqb totalProblems 0 then PASS else FAIL.

(** [relPath]: the path of a unit file relative to the script. *)
Definition relPath (f : UnitPath) : string :=
  "src/data/" ++ chapterDir f ++ "/" ++ unitFileName f.

Record Report : Type := mkReport
  { finalState : State; findings : list Finding; crossIssues : nat; verdict : Verdict }.

(** The script from top to bottom: every discovered file is audited, the
    manifest is cross-referenced, the verdict is derived.  [None] when an
    exception escapes. *)
Definition runAudit (disk : list (UnitPath * ParseResult)) (tsRefs : list Ref)
  : option Report :=
  match forOf (fun f => auditUnit (relPath (fst f)) (snd f)) disk initialState with
  | None => None
  | Some (_, st) =>
      let cross := crossReferenceChapters tsRefs (map fst disk) in
      Some (mkReport st (fst cross) (snd cross) (finalVerdict (issues st) (snd cross)))
  end.

(** ** The document model of the specification

    The typed shape of a unit (the interfaces of [loadUnit.ts], with the
    section as a tagged variant), its encoding as the JSON the audit reads,
    and the invariants the specification lists for it. *)

Record VocabItem : Type := mkVocabItem
  { vJapanese : string; vReading : string; vRomaji : string; vChinese : string;
    vExample : option string; vExampleChinese : option string }.

Record DialogueLine : Type := mkDialogueLine
  { lSpeaker : string; lJapanese : string; lChinese : string }.

Record GrammarExample : Type := mkGrammarExample
  { eJapanese : string; eChinese : string }.

Record GrammarPoint : Type := mkGrammarPoint
  { gPattern : string; gMeaning : string; gStructure : string;
    gExamples : list GrammarExample; gNote : option string }.

Record QuizQuestion : Type := mkQuizQuestion
  { qQuestion : string; qOptions : list string; qCorrect : Z; qExplanation : string }.

Inductive SectionBody : Type :=
| Vocab (items : list VocabItem)
| Dialogue (scene : string) (lines : list DialogueLine)
| Grammar (points : list GrammarPoint)
| Flashcards (cards : list VocabItem)
| Quiz (questions : list QuizQuestion)
| Culture (content : string).

Record UnitSection : Type := mkUnitSection
  { sTitle : string; sBody : SectionBody }.

Record UnitDocument : Type := mkUnitDocument
  { uId : string; uTitle : string; uIntro : string; uEstimatedTime : string;
    uSections : list UnitSection }.

Definition optField (k : string) (o : option string) : list (string * json) :=
  match o with
  | Some s => [(k, JStr s)]
  | None => []
  end.

Definition encodeVocabItem (v : VocabItem) : json :=
  JObj ([("japanese", JStr (vJapanese v)); ("reading", JStr (vReading v));
         ("romaji", JStr (vRomaji v)); ("chinese", JStr (vChinese v))]
          ++ optField "example" (vExample v)
          ++ optField "exampleChinese" (vExampleChinese v))%list.

Definition encodeDialogueLine (l : DialogueLine) : json :=
  JObj [("speaker", JStr (lSpeaker l)); ("japanese", JStr (lJapanese l));
        ("chinese", JStr (lChinese l))].

Definition encodeGrammarExample (e : GrammarExample) : json :=
  JObj [("japanese", JStr (eJapanese e)); ("chinese", JStr (eChinese e))].

Definition encodeGrammarPoint (g : GrammarPoint) : json :=
  JObj ([("pattern", JStr (gPattern g)); ("meaning", JStr (gMeaning g));
         ("structure", JStr (gStructure g));
         ("examples", JArr (map encodeGrammarExample (gExamples g)))]
          ++ optField "note" (gNote g))%list.

Definition encodeQuizQuestion (q : QuizQuestion) : json :=
  JObj [("question", JStr (qQuestion q));
        ("options", JArr (map JStr (qOptions q)));
        ("correct", JNum (inject_Z (qCorrect q)));
        ("explanation", JStr (qExplanation q))].

Definition sectionTag (b : SectionBody) : string :=
  match b with
  | Vocab _ => "vocab"
  | Dialogue _ _ => "dialogue"
  | Grammar _ => "grammar"
  | Flashcards _ => "flashcards"
  | Quiz _ => "quiz"
  | Culture _ => "culture"
  end.

Definition encodeBody (b : SectionBody) : list (string * json) :=
  match b with
  | Vocab items => [("items", JArr (map encodeVocabItem items))]
  | Dialogue scene lines =>
      [("scene", JStr scene); ("lines", JArr (map encodeDialogueLine lines))]
  | Grammar points => [("points", JArr (map encodeGrammarPoint points))]
  | Flashcards cards => [("cards", JArr (map encodeVocabItem cards))]
  | Quiz questions => [("questions", JArr (map encodeQuizQuestion questions))]
  | Culture content => [("content", JStr content)]
  end.

Definition encodeSection (s : UnitSection) : json :=
  JObj (("type", JStr (sectionTag (sBody s))) :: ("title", JStr (sTitle s))
          :: encodeBody (sBody s)).

Definition encodeUnit (d : UnitDocument) : json :=
  JObj [("id", JStr (uId d)); ("title", JStr (uTitle d)); ("intro", JStr (uIntro d));
        ("estimatedTime", JStr (uEstimatedTime d));
        ("sections", JArr (map encodeSection (uSections d)))].

Definition nonEmpty (s : string) : bool := negb (s =? EmptyString).

Fixpoint noDup (l : list string) : bool :=
  match l with
  | [] => true
  | x :: l' => negb (inb x l') && noDup l'
  end.

(** The invariants of the specification's data model, section by section:
    in a vocabulary item only the first four fields are mandatory. *)
Definition specSectionOk (s : UnitSection) : bool :=
  match sBody s with
  | Vocab _ => true
  | Dialogue scene _ => nonEmpty scene
  | Grammar points =>
      forallb (fun g => negb (Nat.eqb (length (gExamples g)) 0)) points
  | Flashcards cards => noDup (map vJapanese cards)
  | Quiz questions =>
      forallb (fun q => Nat.eqb (length (qOptions q)) 4
                        && (0 <=? qCorrect q)%Z && (qCorrect q <=? 3)%Z) questions
  | Culture content => nonEmpty content
  end.

Definition specWellFormed (d : UnitDocument) : bool :=
  negb (Nat.eqb (length (uSections d)) 0)
  && nonEmpty (uTitle d) && nonEmpty (uIntro d) && nonEmpty (uEstimatedTime d)
  && forallb specSectionOk (uSections d).

(** The spec's condition on [correct]: an integer between 0 and 3. *)
Definition integerInRange (c : jsval) : bool :=
  match c with
  | Some (JNum q) =>
      Qeq_bool q (inject_Z (Qfloor q)) && Qle_bool 0 q && Qle_bool q 3
  | _ => false
  end.

(** What the script tests instead: a number between 0 and 3. *)
Definition numberInRange (c : jsval) : Prop :=
  exists x : Q, c = Some (JNum x) /\ (0 <= x)%Q /\ (x <= 3)%Q.

(** ** Auxiliary definitions for the statements *)

(** The keys of the two loops of [crossReferenceChapters]. *)
Definition missingKeys (tsRefs : list Ref) (actualFiles : list UnitPath) : list string :=
  filter (fun ref => negb (inb ref (newSet (map actualKey actualFiles))))
         (newSet (map refKey tsRefs)).

Definition orphanKeys (tsRefs : list Ref) (actualFiles : list UnitPath) : list string :=
  filter (fun actual => negb (inb actual (newSet (map refKey tsRefs))))
         (newSet (map actualKey actualFiles)).

Fixpoint slashFree (s : string) : bool :=
  match s with
  | EmptyString => true
  | String c s' => negb (Ascii.eqb c "/"%char) && slashFree s'
  end.

(** The issues of steps 8 and 9 of [auditUnit], as lists. *)
Definition forbiddenNameIssues (rel : string) (data : json) : list Issue :=
  map (fun r => mkIssue rel "forbidden-name"
                  ("Found forbidden name " ++ quoted (matched r) ++ " at " ++ path r))
      (findForbiddenNames data "root" []).

Definition emptyStringIssues (rel : string) (data : json) : list Issue :=
  map (fun p => mkIssue rel "empty-string" ("Empty string at " ++ p))
      (filter (fun p => startsWith p "root.sections") (findEmptyStrings data "root" [])).

(** The issues of [checkGeneralFields], as a list. *)
Definition generalFieldIssues (rel : string) (data : json) : list Issue :=
  (map (fun f => mkIssue rel "general" ("Missing top-level field: " ++ quoted f))
       (filter (fun f => nullish (field data f)) generalFields)
   ++ (if isEmptyStr (field data "title")
       then [mkIssue rel "general" (quoted "title" ++ " is an empty string")] else [])
   ++ (if isEmptyStr (field data "intro")
       then [mkIssue rel "general" (quoted "intro" ++ " is an empty string")] else [])
   ++ (if isEmptyStr (field data "estimatedTime")
       then [mkIssue rel "general" (quoted "estimatedTime" ++ " is an empty string")]
       else []))%list.

(** The issues of one card in [checkFlashcards], as a list. *)
Definition legacyIssue (prefix filePath : string) (i : nat) : Issue :=
  mkIssue filePath "flashcards"
    (prefix ++ ": cards[" ++ dec i ++ "] uses old " ++ quoted "front/back"
       ++ " format instead of " ++ quoted "japanese/reading/romaji/chinese").

Definition missingCardFieldIssue (prefix filePath : string) (card : json) (i : nat)
  (f : string) : Issue :=
  mkIssue filePath "flashcards"
    (prefix ++ ": cards[" ++ dec i ++ "] missing " ++ quoted f ++ " (japanese: "
       ++ quoted (show (orElse (orElse (field card "japanese") (field card "front"))
                               questionMark)) ++ ")").

Definition duplicateIssue (prefix filePath : string) (f : jsval) : Issue :=
  mkIssue filePath "flashcards"
    (prefix ++ ": DUPLICATE flashcard front/japanese value: " ++ quoted (show f)).

(** The key of a card in the duplicate check. *)
Definition cardKey (c : json) : jsval :=
  orElse (orElse (field c "japanese") (field c "front")) emptyStr.

(** The values the duplicate loop flags, given the names stored so far. *)
Fixpoint flagged (fronts : list jsval) (seen : list string) : list jsval :=
  match fronts with
  | [] => []
  | f :: rest =>
      (if seenHas seen f then [f] else []) ++ flagged rest (seenSet seen f)
  end.

(** How many values of a list render as the text [v]. *)
Definition countShown (v : string) (l : list jsval) : nat :=
  length (filter (fun f => show f =? v) l).

(** The issues of one card's checks in [checkFlashcards], as a list. *)
Definition cardIssues (prefix filePath : string) (card : json) (i : nat) : list Issue :=
  ((if usesOldFormat (field card "front") (field card "back")
    then [legacyIssue prefix filePath i] else [])
   ++ map (missingCardFieldIssue prefix filePath card i)
          (filter (fun f => nullish (field card f)) flashcardRequiredFields))%list.

(** The keys the duplicate check compares: the empty ones are dropped. *)
Definition duplicateKeys (cards : list json) : list jsval :=
  filter (fun f => negb (isEmptyStr f)) (map cardKey cards).

(** ** What the audit asks of a document beyond the specification's model *)

(** No string value of the tree is empty. *)
Fixpoint noEmptyString (j : json) : bool :=
  match j with
  | JStr s => nonEmpty s
  | JArr items => forallb noEmptyString items
  | JObj fields => forallb (fun kv => noEmptyString (snd kv)) fields
  | _ => true
  end.

(** No string value of the tree contains a forbidden name. *)
Fixpoint noForbiddenName (j : json) : bool :=
  match j with
  | JStr s => negb (includes s kuroki1) && negb (includes s kuroki2)
  | JArr items => forallb noForbiddenName items
  | JObj fields => forallb (fun kv => noForbiddenName (snd kv)) fields
  | _ => true
  end.

Definition isSome {A} (o : option A) : bool :=
  match o with
  | Some _ => true
  | None => false
  end.

(** Per section: the list of the section is not empty; a vocabulary item
    carries its two example fields too; no flashcard is named after a
    property of [Object.prototype]. *)
Definition auditSectionOk (s : UnitSection) : bool :=
  match sBody s with
  | Vocab items =>
      negb (Nat.eqb (length items) 0)
      && forallb (fun v => isSome (vExample v) && isSome (vExampleChinese v)) items
  | Dialogue _ lines => negb (Nat.eqb (length lines) 0)
  | Grammar points => negb (Nat.eqb (length points) 0)
  | Flashcards cards =>
      negb (Nat.eqb (length cards) 0)
      && forallb (fun c => negb (inb (vJapanese c) objectPrototypeNames)) cards
  | Quiz questions => negb (Nat.eqb (length questions) 0)
  | Culture _ => true
  end.

Definition hasSection (d : UnitDocument) (tag : string) : bool :=
  existsb (fun s => sectionTag (sBody s) =? tag) (uSections d).

(** The documents the audit passes: the invariants of the specification
    and, in addition, the conditions above, a section of each required
    type, no forbidden name anywhere and no empty string in a section. *)
Definition auditWellFormed (d : UnitDocument) : bool :=
  specWellFormed d
  && forallb auditSectionOk (uSections d)
  && forallb (hasSection d) requiredSections
  && noForbiddenName (encodeUnit d)
  && forallb (fun s => noEmptyString (encodeSection s)) (uSections d).

(** ** Sample documents *)

Definition sampleItem : VocabItem :=
  mkVocabItem "こんにちは" "こんにちは" "konnichiwa" "你好"
              (Some "こんにちは、田中さん。") (Some "你好，田中先生。").

Definition sampleCard : VocabItem :=
  mkVocabItem "ありがとう" "ありがとう" "arigatou" "謝謝" None None.

Definition sampleQuestion : QuizQuestion :=
  mkQuizQuestion "「你好」的日文是？" ["こんにちは"; "さようなら"; "ありがとう"; "すみません"]
                 0 "こんにちは 是白天的問候語。".

Definition sampleSectionsWith (vocab : UnitSection) (cards : list VocabItem)
  : list UnitSection :=
  [ vocab;
    mkUnitSection "對話"
      (Dialogue "在學校" [mkDialogueLine "田中" "こんにちは。" "你好。"]);
    mkUnitSection "文法"
      (Grammar [mkGrammarPoint "〜は〜です" "…是…" "名詞 + は + 名詞 + です"
                  [mkGrammarExample "私は学生です。" "我是學生。"] None]);
    mkUnitSection "字卡" (Flashcards cards);
    mkUnitSection "測驗" (Quiz [sampleQuestion]) ].

Definition sampleSections (item : VocabItem) : list UnitSection :=
  sampleSectionsWith (mkUnitSection "單字" (Vocab [item])) [sampleItem; sampleCard].

(** A unit the audit passes. *)
Definition sampleUnit : UnitDocument :=
  mkUnitDocument "unit1" "打招呼" "學習基本問候語" "15 分鐘" (sampleSections sampleItem).

(** The same unit with a vocabulary item that has no example: the
    specification allows it. *)
Definition optionalExampleUnit : UnitDocument :=
  mkUnitDocument "unit1" "打招呼" "學習基本問候語" "15 分鐘" (sampleSections sampleCard).

(** Other units that satisfy the invariants of the specification: one
    with a culture section only, one with a forbidden name in its title,
    one with a section whose title is empty, one with an empty vocabulary
    list, one with a flashcard named after a property of
    [Object.prototype]. *)
Definition cultureOnlyUnit : UnitDocument :=
  mkUnitDocument "unit1" "打招呼" "學習基本問候語" "15 分鐘"
    [mkUnitSection "文化" (Culture "日本人見面時會鞠躬。")].

Definition forbiddenTitleUnit : UnitDocument :=
  mkUnitDocument "unit1" "黒木さんの一日" "學習基本問候語" "15 分鐘"
    (sampleSections sampleItem).

Definition emptySectionTitleUnit : UnitDocument :=
  mkUnitDocument "unit1" "打招呼" "學習基本問候語" "15 分鐘"
    (sampleSectionsWith (mkUnitSection EmptyString (Vocab [sampleItem]))
                        [sampleItem; sampleCard]).

Definition emptyVocabUnit : UnitDocument :=
  mkUnitDocument "unit1" "打招呼" "學習基本問候語" "15 分鐘"
    (sampleSectionsWith (mkUnitSection "單字" (Vocab [])) [sampleItem; sampleCard]).

Definition constructorCardUnit : UnitDocument :=
  mkUnitDocument "unit1" "打招呼" "學習基本問候語" "15 分鐘"
    (sampleSectionsWith (mkUnitSection "單字" (Vocab [sampleItem]))
       [mkVocabItem "constructor" "こうぞうし" "kouzoushi" "建構子" None None]).

(** The passing unit with one more top-level field, an empty string. *)
Definition sectionsNoteDocument : json :=
  JObj [("id", JStr "unit1"); ("title", JStr "打招呼"); ("intro", JStr "學習基本問候語");
        ("estimatedTime", JStr "15 分鐘");
        ("sections", JArr (map encodeSection (sampleSections sampleItem)));
        ("sectionsNote", JStr EmptyString)].

(** A document with its three texts and no [sections]. *)
Definition noSectionsDocument : json :=
  JObj [("title", JStr "打招呼"); ("intro", JStr "學習基本問候語");
        ("estimatedTime", JStr "15 分鐘")].

Definition sampleOptions : list json :=
  [JStr "こんにちは"; JStr "さようなら"; JStr "ありがとう"; JStr "すみません"].

(** A question with three options and [correct] equal to 4. *)
Definition threeOptionsQuestion : json :=
  JObj [("question", JStr "Q1"); ("options", JArr [JStr "a"; JStr "b"; JStr "c"]);
        ("correct", JNum 4); ("explanation", JStr "because")].

(** A question with four options and [correct] equal to 2. *)
Definition goodQuestion : json :=
  JObj [("question", JStr "Q2"); ("options", JArr sampleOptions);
        ("correct", JNum 2); ("explanation", JStr "because")].

(** A question whose [correct] is 1.5. *)
Definition halfQuestion : json :=
  JObj [("question", JStr "Q3"); ("options", JArr sampleOptions);
        ("correct", JNum (3 # 2)); ("explanation", JStr "because")].

(** A question with empty [question] and [explanation] and [correct] 0. *)
Definition emptyTextQuestion : json :=
  JObj [("question", JStr EmptyString); ("options", JArr sampleOptions);
        ("correct", JNum 0); ("explanation", JStr EmptyString)].

Definition greetingCard : json := encodeVocabItem sampleItem.

(** A card whose [japanese] is the empty string. *)
Definition blankCard : json :=
  JObj [("japanese", JStr EmptyString); ("reading", JStr "a"); ("romaji", JStr "a");
        ("chinese", JStr "b")].

(** A card of the old format. *)
Definition legacyCard : json :=
  JObj [("front", JStr "ねこ"); ("back", JStr "貓")].

(** A card with no field at all. *)
Definition emptyCard : json := JObj [].

Definition sampleDisk : list (UnitPath * ParseResult) :=
  [(mkUnitPath "ch1" "unit1.json", Parsed (encodeUnit sampleUnit))].

Definition sampleRefs : list Ref := [mkRef 1 "unit1"].

Definition sampleRel : string := "src/data/ch1/unit1.json".

(** ** Where a string sits in a document

    [StringAt obj p q s]: walking down from [obj], whose path is [p], one
    reaches the string [s] at the path [q]. *)
Inductive StringAt : json -> string -> string -> string -> Prop :=
| AtHere (s p : string) : StringAt (JStr s) p p s
| AtItem (items : list json) (i : nat) (x : json) (p q s : string) :
    nth_error items i = Some x ->
    StringAt x (p ++ "[" ++ dec i ++ "]") q s ->
    StringAt (JArr items) p q s
| AtField (fields : list (string * json)) (n : nat) (k : string) (v : json)
    (p q s : string) :
    nth_error fields n = Some (k, v) ->
    StringAt v (p ++ "." ++ k) q s ->
    StringAt (JObj fields) p q s.

(** The loops of [findEmptyStrings], by name. *)
Definition emptyInItems (currentPath : string) :=
  fix each (l : list json) (i : nat) (results : list string) : list string :=
    match l with
    | [] => results
    | item :: l' =>
        each l' (S i)
          (findEmptyStrings item (currentPath ++ "[" ++ dec i ++ "]") results)
    end.

Definition emptyInFields (currentPath : string) :=
  fix each (l : list (string * json)) (results : list string) : list string :=
    match l with
    | [] => results
    | (key, val) :: l' =>
        each l' (findEmptyStrings val (currentPath ++ "." ++ key) results)
    end.

(** The loops of [findForbiddenNames], by name. *)
Definition forbiddenInItems (currentPath : string) :=
  fix each (l : list json) (i : nat) (results : list ForbiddenMatch)
    : list ForbiddenMatch :=
    match l with
    | [] => results
    | item :: l' =>
        each l' (S i)
          (findForbiddenNames item (currentPath ++ "[" ++ dec i ++ "]") results)
    end.

Definition forbiddenInFields (currentPath : string) :=
  fix each (l : list (string * json)) (results : list ForbiddenMatch)
    : list ForbiddenMatch :=
    match l with
    | [] => results
    | (key, val) :: l' =>
        each l' (findForbiddenNames val (currentPath ++ "." ++ key) results)
    end.

(** The match the scanner records for a string that holds a forbidden
    name: the first of the two names it contains. *)
Definition forbiddenIn (s : string) : option string :=
  if includes s kuroki1 then Some kuroki1
  else if includes s kuroki2 then Some kuroki2
       else None.

(** A match of the scanner that a string of the tree accounts for. *)
Definition FoundAt (obj : json) (p : string) (m : ForbiddenMatch) : Prop :=
  exists s, StringAt obj p (path m) s /\ forbiddenIn s = Some (matched m).

(** The issue of [checkVocabItem] for a missing field. *)
Definition missingItemFieldIssue (prefix filePath : string) (item : json) (i : nat)
  (f : string) : Issue :=
  mkIssue filePath "vocab"
    (prefix ++ ": items[" ++ dec i ++ "] missing " ++ quoted f ++ " (japanese: "
       ++ quoted (show (orElse (field item "japanese") questionMark)) ++ ")").

(** The issue of [checkDialogueLine] for a missing field. *)
Definition missingLineFieldIssue (prefix filePath : string) (i : nat) (f : string) : Issue :=
  mkIssue filePath "dialogue" (prefix ++ ": lines[" ++ dec i ++ "] missing " ++ quoted f).

(** The issue of [checkRequiredSections] for a missing type. *)
Definition missingSectionIssue (rel req : string) : Issue :=
  mkIssue rel "missing-section" ("Unit is missing a " ++ quoted req ++ " section").

(** A card named after a property of [Object.prototype]. *)
Definition constructorCard : json :=
  JObj [("japanese", JStr "constructor"); ("reading", JStr "konsutorakuta");
        ("romaji", JStr "konsutorakuta"); ("chinese", JStr "建構子")].

(** The categories of the issues a document gets when audited alone. *)
Definition issueCategories (data : json) : option (list string) :=
  option_map (fun r => map sectionType (issues (snd r)))
             (auditUnit sampleRel (Parsed data) initialState).

(** How many issues of a list are the issue [x]. *)
Definition issue_eqb (x y : Issue) : bool :=
  (file x =? file y) && (sectionType x =? sectionType y) && (problem x =? problem y).

Definition countIssue (x : Issue) (l : list Issue) : nat :=
  length (filter (issue_eqb x) l).

(** The digits that [\d+] matches in a file name. *)
Definition isDigit (c : ascii) : bool :=
  Nat.leb 48 (nat_of_ascii c) && Nat.leb (nat_of_ascii c) 57.

Fixpoint allDigits (s : string) : bool :=
  match s with
  | EmptyString => true
  | String c s' => isDigit c && allDigits s'
  end.

(** ** What a computation does to the state

    [Eff P u s m]: whenever [m] returns, it has only appended issues, each
    satisfying [P], and has counted [u] units and [s] sections. *)
Definition Eff {A} (P : Issue -> Prop) (u s : nat) (m : M A) : Prop :=
  forall st a st',
    m st = Some (a, st') ->
    exists l, issues st' = (issues st ++ l)%list
              /\ Forall P l
              /\ totalUnitsChecked st' = totalUnitsChecked st + u
              /\ totalSectionsChecked st' = totalSectionsChecked st + s.

(** [Runs m]: [m] returns in every state (no exception escapes). *)
Definition Runs {A} (m : M A) : Prop :=
  forall st, exists a st', m st = Some (a, st').

(** The categories of the issues [auditUnit] records for a parsed file. *)
Definition auditCategories : list string :=
  ["general"; "vocab"; "dialogue"; "grammar"; "flashcards"; "quiz"; "culture";
   "missing-section"; "forbidden-name"; "empty-string"].

Definition isNull (j : json) : bool :=
  match j with
  | JNull => true
  | _ => false
  end.

(** An issue of the file [filePath] in the category [kind]. *)
Definition ownIssue (filePath kind : string) (x : Issue) : Prop :=
  file x = filePath /\ sectionType x = kind.

(** An issue of the file [rel] in one of the categories of the audit. *)
Definition auditIssue (rel : string) (x : Issue) : Prop :=
  file x = rel /\ In (sectionType x) auditCategories.

(** The number of sections [auditUnit] visits in a parsed document. *)
Definition sectionCount (data : json) : nat :=
  length (elements (field data "sections")).

(** ** The audit of one file among others *)

(** The state [st] followed by what a computation that started from the
    initial state has left in [d]. *)
Definition addState (st d : State) : State :=
  mkState (issues st ++ issues d)
          (totalUnitsChecked st + totalUnitsChecked d)
          (totalSectionsChecked st + totalSectionsChecked d).

(** [m] reads nothing of the state: from any state it does what it does
    from the initial state, after what is there already. *)
Definition Local {A} (m : M A) : Prop :=
  forall st,
    m st = match m initialState with
           | Some (a, d) => Some (a, addState st d)
           | None => None
           end.

(** The issues the audit of the file [f] records when it is the only file
    audited. *)
Definition unitIssues (f : UnitPath * ParseResult) : list Issue :=
  match auditUnit (relPath (fst f)) (snd f) initialState with
  | Some (_, d) => issues d
  | None => []
  end.

Definition isParsed (raw : ParseResult) : bool :=
  match raw with
  | Parsed _ => true
  | ParseError _ => false
  end.

Definition parsedSections (raw : ParseResult) : nat :=
  match raw with
  | Parsed data => sectionCount data
  | ParseError _ => 0
  end.

(** ** The grouping of the issues by file

    [byFile] is an object used as a map from paths to arrays of issues;
    its own properties are kept as an association list.  The order of the
    properties is not part of the model: the report sorts the entries
    before it prints them. *)
Definition Groups : Type := list (string * list Issue).

Fixpoint ownGroup (k : string) (byFile : Groups) : option (list Issue) :=
  match byFile with
  | [] => None
  | (k', l) :: rest => if k' =? k then Some l else ownGroup k rest
  end.

Fixpoint setGroup (k : string) (l : list Issue) (byFile : Groups) : Groups :=
  match byFile with
  | [] => [(k, l)]
  | (k', l') :: rest =>
      if k' =? k then (k, l) :: rest else (k', l') :: setGroup k l rest
  end.

(** The loop [for (const issue of issues)] that fills [byFile].  A path
    that is the name of a property of [Object.prototype] and has no group
    yet passes the test [!byFile[issue.file]] as if it had one, and
    [byFile[issue.file].push] throws: [None]. *)
Fixpoint groupByFile (todo : list Issue) (byFile : Groups) : option Groups :=
  match todo with
  | [] => Some byFile
  | issue :: rest =>
      match ownGroup (file issue) byFile with
      | Some l => groupByFile rest (setGroup (file issue) (l ++ [issue]) byFile)
      | None =>
          if inb (file issue) objectPrototypeNames then None
          else groupByFile rest (setGroup (file issue) [issue] byFile)
      end
  end.

(** The issues of [l] recorded for the path [k]. *)
Definition issuesOf (k : string) (l : list Issue) : list Issue :=
  filter (fun x => file x =? k) l.

(** A group exists only when it has an issue. *)
Definition groupOf (l : list Issue) : option (list Issue) :=
  match l with
  | [] => None
  | _ => Some l
  end.

(** Three files: one that passes, one with an empty vocabulary list, one
    that is not JSON. *)
Definition mixedDisk : list (UnitPath * ParseResult) :=
  [(mkUnitPath "ch1" "unit1.json", Parsed (encodeUnit sampleUnit));
   (mkUnitPath "ch1" "unit2.json", Parsed (encodeUnit emptyVocabUnit));
   (mkUnitPath "ch2" "unit1.json", ParseError "Unexpected end of JSON input")].

(** ** Discovery of the unit files

    The directory listings are inputs: [readdirSync] gives the names in a
    directory, or throws ([None]). *)

(** One digit or more, to the end of the string. *)
Definition someDigits (s : string) : bool :=
  match s with
  | EmptyString => false
  | _ => allDigits s
  end.

(** [/^ch\d+$/.test(d)] *)
Definition isChapterDir (d : string) : bool :=
  match d with
  | String "c" (String "h" ns) => someDigits ns
  | _ => false
  end.

(** One digit or more, then [suffix], to the end of the string. *)
Fixpoint digitsThen (suffix s : string) : bool :=
  match s with
  | EmptyString => false
  | String c s' => isDigit c && ((s' =? suffix) || digitsThen suffix s')
  end.

(** [/^unit\d+\.json$/.test(f)] *)
Definition isUnitFile (f : string) : bool :=
  match f with
  | String "u" (String "n" (String "i" (String "t" rest))) => digitsThen ".json" rest
  | _ => false
  end.

(** [parseInt(s)] on a string of decimal digits; the result is exact for
    the numbers below 2^53. *)
Definition parseInt (s : string) : nat :=
  match NilEmpty.uint_of_string s with
  | Some d => Nat.of_uint d
  | None => 0
  end.

(** [parseInt(a.replace('ch', ''))] *)
Definition chapterNumber (a : string) : nat := parseInt (replace a "ch" EmptyString).

(** [parseInt(a.replace('unit', '').replace('.json', ''))] *)
Definition unitNumber (a : string) : nat :=
  parseInt (replace (replace a "unit" EmptyString) ".json" EmptyString).

(** [l.sort((a, b) => key(a) - key(b))]: ascending in the key; the sort
    is stable, so names with the same key keep their order. *)
Fixpoint insertBy (key : string -> nat) (x : string) (l : list string) : list string :=
  match l with
  | [] => [x]
  | y :: l' => if Nat.leb (key x) (key y) then x :: l else y :: insertBy key x l'
  end.

Definition sortBy (key : string -> nat) (l : list string) : list string :=
  fold_right (insertBy key) [] l.

(** The loop [for (const ch of chapters)]. *)
Fixpoint readChapters (readdirSync : string -> option (list string))
  (chapters : list string) : option (list UnitPath) :=
  match chapters with
  | [] => Some []
  | ch :: rest =>
      match readdirSync ch with
      | None => None
      | Some names =>
          let units := sortBy unitNumber (filter isUnitFile names) in
          match readChapters readdirSync rest with
          | None => None
          | Some files => Some (map (mkUnitPath ch) units ++ files)%list
          end
      end
  end.

(** [discoverUnitFiles()], given the listing of the data directory
    ([None] when reading it throws) and the listings of its entries. *)
Definition discoverUnitFiles (dataDir : option (list string))
  (readdirSync : string -> option (list string)) : option (list UnitPath) :=
  match dataDir with
  | None => None
  | Some entries =>
      let chapters := sortBy chapterNumber (filter isChapterDir entries) in
      readChapters readdirSync chapters
  end.

(** The order of the discovered files: by chapter number, and by unit
    number inside a chapter directory. *)
Definition discoveryOrder (p q : UnitPath) : Prop :=
  chapterNumber (chapterDir p) <= chapterNumber (chapterDir q)
  /\ (chapterDir p = chapterDir q ->
      unitNumber (unitFileName p) <= unitNumber (unitFileName q)).

(** Listings with chapters and units to be ordered by number, not by
    name. *)
Definition sampleDataDir : list string := ["ch10"; "chapters.ts"; "ch2"; "ch1"].

Definition sampleReaddir (d : string) : option (list string) :=
  if d =? "ch1" then Some ["unit10.json"; "unit2.json"; "notes.txt"; "unit1.json"]
  else if d =? "ch2" then Some ["unit1.json"]
  else if d =? "ch10" then Some []
  else None.

(** ** The unit modules of the site ([loadUnit.ts])

    [unitModules] is the object [import.meta.glob] returns: its own
    properties, in the order of [Object.entries], each key with the
    [default] of its module.  The keys begin with [./], so none is read
    from [Object.prototype] and none is ordered as an array index. *)

(** [unitModules[key]] *)
Fixpoint moduleAt {D : Type} (key : string) (unitModules : list (string * D)) : option D :=
  match unitModules with
  | [] => None
  | (k, d) :: rest => if k =? key then Some d else moduleAt key rest
  end.

(** [loadUnit(chapterId, unitId)] for a chapter number that is a natural
    number; [None] is [null]. *)
Definition loadUnit {D : Type} (unitModules : list (string * D)) (chapterId : nat)
  (unitId : string) : option D :=
  moduleAt ("./ch" ++ dec chapterId ++ "/" ++ unitId ++ ".json") unitModules.

(** The digits at the head of a string, and what follows them. *)
Fixpoint spanDigits (s : string) : string * string :=
  match s with
  | EmptyString => (EmptyString, EmptyString)
  | String c s' =>
      if isDigit c then let (d, r) := spanDigits s' in (String c d, r)
      else (EmptyString, s)
  end.

(** What follows the prefix [p] in [s]. *)
Fixpoint stripPrefix (p s : string) : option string :=
  match p, s with
  | EmptyString, _ => Some s
  | String a p', String b s' => if Ascii.eqb a b then stripPrefix p' s' else None
  | String _ _, EmptyString => None
  end.

(** A match of [\.\/ch(\d+)\/(unit\d+)\.json] at the head of [s].  Each
    [\d+] is followed in the pattern by a character that is not a digit,
    so only the longest run of digits can match. *)
Definition matchUnitKeyAt (s : string) : option (string * string) :=
  match stripPrefix "./ch" s with
  | None => None
  | Some s1 =>
      let (c, r1) := spanDigits s1 in
      match c, stripPrefix "/unit" r1 with
      | String _ _, Some s2 =>
          let (u, r2) := spanDigits s2 in
          match u, stripPrefix ".json" r2 with
          | String _ _, Some _ => Some (c, "unit" ++ u)
          | _, _ => None
          end
      | _, _ => None
      end
  end.

(** [key.match(/\.\/ch(\d+)\/(unit\d+)\.json/)]: the leftmost match, as
    the pair of its two groups. *)
Fixpoint matchUnitKey (key : string) : option (string * string) :=
  match matchUnitKeyAt key with
  | Some m => Some m
  | None =>
      match key with
      | EmptyString => None
      | String _ key' => matchUnitKey key'
      end
  end.

Record UnitEntry (D : Type) : Type := mkUnitEntry
  { entryChapterId : nat; entryUnitId : string; entryData : D }.

#[global] Arguments mkUnitEntry {D} _ _ _.
#[global] Arguments entryChapterId {D} _.
#[global] Arguments entryUnitId {D} _.
#[global] Arguments entryData {D} _.

(** [getAllUnits()] *)
Definition getAllUnits {D : Type} (unitModules : list (string * D)) : list (UnitEntry D) :=
  flat_map (fun km =>
              match matchUnitKey (fst km) with
              | Some (c, u) => [mkUnitEntry (parseInt c) u (snd km)]
              | None => []
              end)
           unitModules.

(** One module, in a directory written with a leading zero. *)
Definition leadingZeroModules : list (string * string) :=
  [("./ch01/unit1.json", "打招呼")].

(** ** The search of the site ([Search.tsx])

    The chapter number of an entry is a natural number, as
    [buildSearchIndex] produces it.  The case mapping of Unicode,
    [s.toLowerCase()], is an input of the model. *)

Inductive EntryType : Type := VocabEntry | GrammarEntry | DialogueEntry.

Record SearchEntry : Type := mkSearchEntry
  { seChapterId : nat; seChapterTitle : string; seUnitId : string; seUnitTitle : string;
    seType : EntryType; seText : string; sePreview : string }.

Record SearchMatch : Type := mkSearchMatch
  { matchType : EntryType; matchPreview : string }.

Record GroupedResult : Type := mkGroupedResult
  { grChapterId : nat; grChapterTitle : string; grUnitId : string; grUnitTitle : string;
    grMatches : list SearchMatch }.

(** [`${m.chapterId}-${m.unitId}`] *)
Definition groupKey (m : SearchEntry) : string :=
  dec (seChapterId m) ++ "-" ++ seUnitId m.

(** The [Map] [grouped], as the list of its entries in insertion order. *)
Definition GroupMap : Type := list (string * GroupedResult).

(** [grouped.has(key)] *)
Definition mapHas (key : string) (grouped : GroupMap) : bool :=
  inb key (map fst grouped).

(** The group [grouped.set] stores for the first match of a unit. *)
Definition newGroup (m : SearchEntry) : GroupedResult :=
  mkGroupedResult (seChapterId m) (seChapterTitle m) (seUnitId m) (seUnitTitle m) [].

Definition toMatch (m : SearchEntry) : SearchMatch :=
  mkSearchMatch (seType m) (sePreview m).

(** [if (group.matches.length < 3) group.matches.push(...)] *)
Definition pushMatch (m : SearchEntry) (group : GroupedResult) : GroupedResult :=
  if Nat.ltb (length (grMatches group)) 3 then
    mkGroupedResult (grChapterId group) (grChapterTitle group) (grUnitId group)
      (grUnitTitle group) (grMatches group ++ [toMatch m])
  else group.

(** The group under [key] is the object the map holds: changing it
    changes the entry of the map. *)
Fixpoint mapAdjust (key : string) (f : GroupedResult -> GroupedResult)
  (grouped : GroupMap) : GroupMap :=
  match grouped with
  | [] => []
  | (k, group) :: rest =>
      if k =? key then (k, f group) :: rest else (k, group) :: mapAdjust key f rest
  end.

(** The body of [for (const m of matched)]. *)
Definition addMatch (grouped : GroupMap) (m : SearchEntry) : GroupMap :=
  let key := groupKey m in
  let grouped' :=
    if mapHas key grouped then grouped else (grouped ++ [(key, newGroup m)])%list in
  mapAdjust key (pushMatch m) grouped'.

(** [results], computed at each rendering from [index] and [query]. *)
Definition searchResults (toLowerCase : string -> string) (index : list SearchEntry)
  (query : string) : list GroupedResult :=
  match query with
  | EmptyString => []
  | _ =>
      let q := toLowerCase query in
      let matched := filter (fun e => includes (seText e) q) index in
      map snd (fold_left addMatch matched [])
  end.

(** [results.slice(0, 20)], the groups that are rendered. *)
Definition shownResults (results : list GroupedResult) : list GroupedResult :=
  firstn 20 results.

(** The entries whose text includes the query in lower case. *)
Definition hits (toLowerCase : string -> string) (index : list SearchEntry)
  (query : string) : list SearchEntry :=
  filter (fun e => includes (seText e) (toLowerCase query)) index.

(** The entry [e] is of the unit of the group [g]. *)
Definition sameUnit (g : GroupedResult) (e : SearchEntry) : bool :=
  Nat.eqb (seChapterId e) (grChapterId g) && (seUnitId e =? grUnitId g).

Definition resultKey (g : GroupedResult) : string :=
  dec (grChapterId g) ++ "-" ++ grUnitId g.

(** What the map holds once the entries [done] have been processed. *)
Definition groupsOf (grouped : GroupMap) (done : list SearchEntry) : Prop :=
  NoDup (map fst grouped)
  /\ (forall e, In e done -> In (groupKey e) (map fst grouped))
  /\ forall k g, In (k, g) grouped ->
       exists e rest,
         filter (fun x => groupKey x =? k) done = e :: rest
         /\ g = mkGroupedResult (seChapterId e) (seChapterTitle e) (seUnitId e)
                  (seUnitTitle e) (firstn 3 (map toMatch (e :: rest))).

(** [toLowerCase] on text whose only cased letters are those of ASCII. *)
Definition lowerAscii (c : ascii) : ascii :=
  let n := nat_of_ascii c in
  if Nat.leb 65 n && Nat.leb n 90 then ascii_of_nat (n + 32) else c.

Fixpoint asciiToLowerCase (s : string) : string :=
  match s with
  | EmptyString => EmptyString
  | String c s' => String (lowerAscii c) (asciiToLowerCase s')
  end.

(** Five entries of two units; four of the first unit include [ko]. *)
Definition sampleIndex : list SearchEntry :=
  [ mkSearchEntry 1 "基礎" "unit1" "打招呼" VocabEntry
      "こんにちは konnichiwa 你好" "こんにちは（こんにちは）— 你好";
    mkSearchEntry 2 "旅行" "unit1" "問路" VocabEntry
      "ここ koko 這裡" "ここ（ここ）— 這裡";
    mkSearchEntry 1 "基礎" "unit1" "打招呼" VocabEntry
      "こんばんは konbanwa 晚安" "こんばんは（こんばんは）— 晚安";
    mkSearchEntry 1 "基礎" "unit1" "打招呼" GrammarEntry
      "kore wa 這是" "これは — 這是";
    mkSearchEntry 1 "基礎" "unit1" "打招呼" DialogueEntry
      "kono hon 這本書" "この本 — 這本書";
    mkSearchEntry 1 "基礎" "unit1" "打招呼" VocabEntry
      "ありがとう arigatou 謝謝" "ありがとう（ありがとう）— 謝謝" ].

(** ** The search index ([buildSearchIndex.ts])

    The index is built from unit data of the types [loadUnit.ts] declares:
    a section is one record with a type and optional fields. *)

Inductive SectionType : Type :=
| TVocab | TDialogue | TGrammar | TCulture | TFlashcards | TQuiz.

Record SectionData : Type := mkSectionData
  { secType : SectionType; secTitle : string;
    secItems : option (list VocabItem); secScene : option string;
    secLines : option (list DialogueLine); secPoints : option (list GrammarPoint);
    secContent : option string; secTips : option (list string);
    secCards : option (list VocabItem); secQuestions : option (list QuizQuestion) }.

Record UnitData : Type := mkUnitData
  { dataId : string; dataTitle : string; dataIntro : string; dataEstimatedTime : string;
    dataSections : list SectionData }.

(** An element of [chapters], with the two fields the index reads. *)
Record Chapter : Type := mkChapter { chapterNo : nat; chapterTitle : string }.

(** [o || ''] on an optional string. *)
Definition orEmpty (o : option string) : string :=
  match o with
  | Some s => s
  | None => EmptyString
  end.

(** [chapter?.title || `第${chapterId}章`] for the chapter
    [chapters.find((c) => c.id === chapterId)]. *)
Definition chapterTitleOf (chapters : list Chapter) (chapterId : nat) : string :=
  let fallback := "第" ++ dec chapterId ++ "章" in
  match find (fun c => Nat.eqb (chapterNo c) chapterId) chapters with
  | Some chapter => if nonEmpty (chapterTitle chapter) then chapterTitle chapter else fallback
  | None => fallback
  end.

Definition vocabText (item : VocabItem) : string :=
  vJapanese item ++ " " ++ vReading item ++ " " ++ vRomaji item ++ " " ++ vChinese item
    ++ " " ++ orEmpty (vExample item) ++ " " ++ orEmpty (vExampleChinese item).

Definition vocabPreview (item : VocabItem) : string :=
  vJapanese item ++ "（" ++ vReading item ++ "）— " ++ vChinese item.

Definition grammarText (point : GrammarPoint) : string :=
  gPattern point ++ " " ++ gMeaning point ++ " " ++ gStructure point ++ " "
    ++ orEmpty (gNote point).

Definition grammarPreview (point : GrammarPoint) : string :=
  gPattern point ++ " — " ++ gMeaning point.

Definition dialogueText (line : DialogueLine) : string :=
  lJapanese line ++ " " ++ lChinese line.

Definition dialoguePreview (line : DialogueLine) : string :=
  lJapanese line ++ " — " ++ lChinese line.

(** The body of [for (const section of data.sections)]: the three tests
    on the type of the section, one after the other. *)
Definition sectionEntries (toLowerCase : string -> string)
  (mk : EntryType -> string -> string -> SearchEntry) (section : SectionData)
  : list SearchEntry :=
  (match secType section, secItems section with
   | TVocab, Some items =>
       map (fun item => mk VocabEntry (toLowerCase (vocabText item)) (vocabPreview item))
           items
   | _, _ => []
   end
   ++ match secType section, secPoints section with
      | TGrammar, Some points =>
          map (fun point =>
                 mk GrammarEntry (toLowerCase (grammarText point)) (grammarPreview point))
              points
      | _, _ => []
      end
   ++ match secType section, secLines section with
      | TDialogue, Some lines =>
          flat_map (fun line =>
                      if nonEmpty (lJapanese line) && nonEmpty (lChinese line) then
                        [mk DialogueEntry (toLowerCase (dialogueText line))
                            (dialoguePreview line)]
                      else [])
                   lines
      | _, _ => []
      end)%list.

(** The body of [for (const { chapterId, unitId, data } of allUnits)]. *)
Definition unitEntries (toLowerCase : string -> string) (chapters : list Chapter)
  (unit : UnitEntry UnitData) : list SearchEntry :=
  let chapterId := entryChapterId unit in
  let unitId := entryUnitId unit in
  let chapterTitle := chapterTitleOf chapters chapterId in
  let unitTitle := dataTitle (entryData unit) in
  flat_map (sectionEntries toLowerCase
              (mkSearchEntry chapterId chapterTitle unitId unitTitle))
           (dataSections (entryData unit)).

(** [buildSearchIndex()], given [chapters] and the result of
    [getAllUnits()]. *)
Definition buildSearchIndex (toLowerCase : string -> string) (chapters : list Chapter)
  (allUnits : list (UnitEntry UnitData)) : list SearchEntry :=
  flat_map (unitEntries toLowerCase chapters) allUnits.

(** The section types the index does not read. *)
Definition notIndexed (t : SectionType) : bool :=
  match t with
  | TCulture | TFlashcards | TQuiz => true
  | _ => false
  end.

(** A unit of chapter 2 with a vocabulary section and a flashcards
    section; chapter 2 is not among the chapters. *)
Definition sampleChapters : list Chapter := [mkChapter 1 "基礎"].

Definition sampleUnitData : UnitData :=
  mkUnitData "unit1" "打招呼" "學習基本問候語" "15 分鐘"
    [ mkSectionData TVocab "單字" (Some [sampleItem]) None None None None None None None;
      mkSectionData TFlashcards "翻牌" None None None None None None
        (Some [sampleCard]) None ].

Definition sampleAllUnits : list (UnitEntry UnitData) :=
  [mkUnitEntry 2 "unit1" sampleUnitData].

(** ** The quiz component ([Quiz.tsx])

    The five state variables of the component, and [quizScore], the score
    the component has written to the stored progress of the unit ([None]
    as long as it has written nothing). *)
Record QuizState : Type := mkQuizState
  { currentQ : nat; selected : option nat; score : nat; showResult : bool;
    answered : bool; quizScore : option nat }.

Definition initialQuiz : QuizState := mkQuizState 0 None 0 false false None.

(** [selected === q.correct] *)
Definition selectedIs (selected : option nat) (correct : Z) : bool :=
  match selected with
  | Some i => Z.eqb (Z.of_nat i) correct
  | None => false
  end.

(** [handleSelect(index)]; [None] when [q] is undefined and [q.correct]
    throws. *)
Definition handleSelect (questions : list QuizQuestion) (index : nat) (st : QuizState)
  : option QuizState :=
  if answered st then Some st
  else
    match nth_error questions (currentQ st) with
    | None => None
    | Some q =>
        Some (mkQuizState (currentQ st) (Some index)
                (if Z.eqb (Z.of_nat index) (qCorrect q) then score st + 1 else score st)
                (showResult st) true (quizScore st))
    end.

(** [if (unitId)] on the optional property. *)
Definition truthyId (unitId : option string) : bool :=
  match unitId with
  | Some s => nonEmpty s
  | None => false
  end.

(** [nextQuestion()].  [storageWorks]: reading, parsing and writing the
    stored progress succeed; any failure there is caught and leaves the
    stored progress as it was. *)
Definition nextQuestion (questions : list QuizQuestion) (unitId : option string)
  (storageWorks : bool) (st : QuizState) : QuizState :=
  let total := length questions in
  if Nat.ltb (currentQ st) (total - 1) then
    mkQuizState (currentQ st + 1) None (score st) (showResult st) false (quizScore st)
  else
    let written :=
      if truthyId unitId && storageWorks then
        match nth_error questions (currentQ st) with
        | Some q =>
            Some (score st + (if selectedIs (selected st) (qCorrect q) then 1 else 0))
        | None => quizScore st
        end
      else quizScore st in
    mkQuizState (currentQ st) (selected st) (score st) true (answered st) written.

(** [restart()] *)
Definition restart (st : QuizState) : QuizState :=
  mkQuizState 0 None 0 false false (quizScore st).

Inductive QuizEvent : Type :=
| ClickOption (i : nat)
| ClickNext
| ClickRestart.

(** The buttons the component renders, and that are not disabled, in the
    state [st]. *)
Definition rendered (questions : list QuizQuestion) (st : QuizState) (e : QuizEvent)
  : bool :=
  match e with
  | ClickOption i =>
      negb (showResult st) && negb (answered st)
      && match nth_error questions (currentQ st) with
         | Some q => Nat.ltb i (length (qOptions q))
         | None => false
         end
  | ClickNext => negb (showResult st) && answered st
  | ClickRestart => showResult st
  end.

(** One event of the user; an event on a button that is not there changes
    nothing. *)
Definition quizStep (questions : list QuizQuestion) (unitId : option string)
  (storageWorks : bool) (e : QuizEvent) (st : QuizState) : option QuizState :=
  if rendered questions st e then
    match e with
    | ClickOption i => handleSelect questions i st
    | ClickNext => Some (nextQuestion questions unitId storageWorks st)
    | ClickRestart => Some (restart st)
    end
  else Some st.

Fixpoint quizRun (questions : list QuizQuestion) (unitId : option string)
  (storageWorks : bool) (events : list QuizEvent) (st : QuizState) : option QuizState :=
  match events with
  | [] => Some st
  | e :: rest =>
      match quizStep questions unitId storageWorks e st with
      | Some st' => quizRun questions unitId storageWorks rest st'
      | None => None
      end
  end.

(** What holds of the state after any events. *)
Definition quizInvariant (questions : list QuizQuestion) (st : QuizState) : Prop :=
  currentQ st < length questions
  /\ score st <= currentQ st + (if answered st then 1 else 0)
  /\ (showResult st = true -> currentQ st = length questions - 1 /\ answered st = true)
  /\ (answered st = true <-> selected st <> None)
  /\ match quizScore st with
     | Some n => n <= length questions + 1
     | None => True
     end.

(** The user answers every question and goes on. *)
Definition answerAll (answers : list nat) : list QuizEvent :=
  flat_map (fun a => [ClickOption a; ClickNext]) answers.

Fixpoint countCorrect (answers : list nat) (questions : list QuizQuestion) : nat :=
  match answers, questions with
  | a :: answers', q :: questions' =>
      (if Z.eqb (Z.of_nat a) (qCorrect q) then 1 else 0) + countCorrect answers' questions'
  | _, _ => 0
  end.

(** The answer to the last question is the correct one. *)
Fixpoint lastCorrect (answers : list nat) (questions : list QuizQuestion) : bool :=
  match answers, questions with
  | [a], [q] => Z.eqb (Z.of_nat a) (qCorrect q)
  | _ :: answers', _ :: questions' => lastCorrect answers' questions'
  | _, _ => false
  end.

(** ** The flashcard component ([Flashcard.tsx])

    [currentIndex] and [isFlipped] are the state of the component;
    [touchStart] tells whether a touch has begun (the coordinate itself
    only decides the outcome of the swipe, which the event carries);
    [timers] holds the targets of the pending calls
    [setTimeout(() => setCurrentIndex(target), 150)], the oldest first: they
    have the same delay and fire in the order they were set. *)
Record FlashState : Type := mkFlashState
  { currentIndex : nat; isFlipped : bool; touchStart : bool; timers : list nat }.

Definition initialFlash : FlashState := mkFlashState 0 false false [].

(** The outcome of the tests on [diff] in [handleTouchEnd]: more than 50
    to the left, more than 50 to the right, or at most 50. *)
Inductive Swipe : Type := SwipeLeft | SwipeRight | NoSwipe.

Inductive FlashEvent : Type :=
| ClickCard
| ClickPrevButton
| ClickNextButton
| TouchStartEvent
| TouchEndEvent (s : Swipe)
| TimerFires.

(** [goNext()] *)
Definition goNext (total : nat) (st : FlashState) : FlashState :=
  if Nat.ltb (currentIndex st) (total - 1) then
    mkFlashState (currentIndex st) false (touchStart st)
      (timers st ++ [currentIndex st + 1])
  else st.

(** [goPrev()] *)
Definition goPrev (st : FlashState) : FlashState :=
  if Nat.ltb 0 (currentIndex st) then
    mkFlashState (currentIndex st) false (touchStart st)
      (timers st ++ [currentIndex st - 1])
  else st.

(** [handleTouchEnd(e)] *)
Definition handleTouchEnd (total : nat) (s : Swipe) (st : FlashState) : FlashState :=
  if touchStart st then
    let st' :=
      match s with
      | SwipeLeft => goNext total st
      | SwipeRight => goPrev st
      | NoSwipe => st
      end in
    mkFlashState (currentIndex st') (isFlipped st') false (timers st')
  else st.

(** One event; the two buttons do nothing when they are disabled. *)
Definition flashStep (total : nat) (e : FlashEvent) (st : FlashState) : FlashState :=
  match e with
  | ClickCard =>
      mkFlashState (currentIndex st) (negb (isFlipped st)) (touchStart st) (timers st)
  | ClickPrevButton => if Nat.eqb (currentIndex st) 0 then st else goPrev st
  | ClickNextButton => if Nat.eqb (currentIndex st) (total - 1) then st else goNext total st
  | TouchStartEvent =>
      mkFlashState (currentIndex st) (isFlipped st) true (timers st)
  | TouchEndEvent s => handleTouchEnd total s st
  | TimerFires =>
      match timers st with
      | [] => st
      | target :: rest => mkFlashState target (isFlipped st) (touchStart st) rest
      end
  end.

Definition flashRun (total : nat) (events : list FlashEvent) (st : FlashState)
  : FlashState :=
  fold_left (fun st e => flashStep total e st) events st.

Definition flashInvariant (total : nat) (st : FlashState) : Prop :=
  currentIndex st < total /\ Forall (fun target => target < total) (timers st).

(** ** The list of a section

    Five section types hold a list: what the validators do when the list
    is not there, is not an array or is empty. *)
Definition listKinds : list string := ["vocab"; "dialogue"; "grammar"; "flashcards"; "quiz"].

(** The field that holds the list of a section of the type [kind]. *)
Definition listField (kind : string) : string :=
  if kind =? "vocab" then "items"
  else if kind =? "dialogue" then "lines"
  else if kind =? "grammar" then "points"
  else if kind =? "flashcards" then "cards"
  else "questions".

Inductive ListDefect : Type := ListMissing | ListNotArray | ListEmpty.

(** The first of the three tests that the value of the list field fails,
    if any. *)
Definition listDefect (v : jsval) : option ListDefect :=
  if negb (truthy v) then Some ListMissing
  else if negb (isArray v) then Some ListNotArray
  else if Nat.eqb (length (elements v)) 0 then Some ListEmpty
  else None.

Definition defectMessage (name : string) (d : ListDefect) : string :=
  match d with
  | ListMissing => "missing " ++ quoted name ++ " array"
  | ListNotArray => quoted name ++ " is not an array"
  | ListEmpty => quoted name ++ " array is empty"
  end.

(** The issues of [checkDialogue] on [section.scene]. *)
Definition sceneIssues (filePath prefix : string) (scene : jsval) : list Issue :=
  ((if negb (truthy scene) && negb (isEmptyStr scene) then
      [mkIssue filePath "dialogue" (prefix ++ ": missing " ++ quoted "scene")]
    else [])
   ++ (if isEmptyStr scene then
         [mkIssue filePath "dialogue"
            (prefix ++ ": " ++ quoted "scene" ++ " is an empty string")]
       else []))%list.

(** A vocabulary section whose [items] is an object, not an array. *)
Definition objectItemsSection : json :=
  JObj [("type", JStr "vocab"); ("title", JStr "單字");
        ("items", JObj [("0", JObj [("japanese", JStr "こんにちは")])])].

(** ** Issues that are certainly recorded

    [Pushes x m]: whenever [m] returns, the issue [x] is among the issues;
    [Keeps m]: whenever [m] returns, the issues recorded before are still
    there. *)
Definition Pushes {A} (x : Issue) (m : M A) : Prop :=
  forall st a st', m st = Some (a, st') -> In x (issues st').

Definition Keeps {A} (m : M A) : Prop :=
  forall st a st', m st = Some (a, st') -> forall x, In x (issues st) -> In x (issues st').

(** A culture section whose [content] is the empty string, alone in a
    unit. *)
Definition emptyContentSection : json :=
  JObj [("type", JStr "culture"); ("title", JStr "文化"); ("content", JStr EmptyString)].

Definition emptyContentDocument : json :=
  JObj [("title", JStr "打招呼"); ("intro", JStr "學習基本問候語");
        ("estimatedTime", JStr "15 分鐘"); ("sections", JArr [emptyContentSection])].

(** ** The summary of the issues by category

    [bySectionType] is an object used as a map from category names to
    counts; its own properties are kept in insertion order, which is the
    order of [Object.entries] for names that are not array indices.  The
    model is that of the script for category names that are not names of
    [Object.prototype], as are the eleven names the audit uses. *)
Definition Counts : Type := list (string * nat).

(** [if (!m[k]) m[k] = 0; m[k]++]: a count that is there is at least 1. *)
Fixpoint bump (k : string) (m : Counts) : Counts :=
  match m with
  | [] => [(k, 1)]
  | (k', n) :: rest => if k' =? k then (k', S n) :: rest else (k', n) :: bump k rest
  end.

Definition bySectionType (l : list Issue) : Counts :=
  fold_left (fun m issue => bump (sectionType issue) m) l [].

(** [entries.sort((a, b) => b[1] - a[1])]: descending in the count; the
    sort is stable. *)
Fixpoint insertByCount (x : string * nat) (l : Counts) : Counts :=
  match l with
  | [] => [x]
  | y :: l' => if Nat.leb (snd y) (snd x) then x :: l else y :: insertByCount x l'
  end.

Definition sortByCount (l : Counts) : Counts := fold_right insertByCount [] l.

(** The lines printed under [--- Issues by category ---], as pairs. *)
Definition categoryLines (l : list Issue) : Counts := sortByCount (bySectionType l).

Fixpoint ownCount (k : string) (m : Counts) : option nat :=
  match m with
  | [] => None
  | (k', n) :: rest => if k' =? k then Some n else ownCount k rest
  end.

(** How many issues of [l] are of the category [k]. *)
Definition countCategory (k : string) (l : list Issue) : nat :=
  length (filter (fun x => sectionType x =? k) l).

Definition allCategories : list string := "parse" :: auditCategories.

(** ** The documents on which the audit throws *)

Definition hasNull (l : list json) : bool := existsb isNull l.

(** The section is [null], or it is of a type that holds a list and its
    list is an array with [null] among its elements. *)
Definition sectionThrows (section : json) : bool :=
  isNull section
  || match field section "type" with
     | Some (JStr kind) =>
         inb kind listKinds && hasNull (elements (field section (listField kind)))
     | _ => false
     end.

(** The document is [null], or its [sections] is an array with such a
    section. *)
Definition unitThrows (data : json) : bool :=
  isNull data || existsb sectionThrows (elements (field data "sections")).

(** A grammar point may hold [null] among its examples, a culture section
    may hold a list with [null]: neither is read. *)
Definition nullExampleDocument : json :=
  JObj [("title", JStr "打招呼");
        ("sections",
         JArr [JObj [("type", JStr "grammar");
                     ("points", JArr [JObj [("pattern", JStr "〜は〜です");
                                            ("examples", JArr [JNull])]])];
               JObj [("type", JStr "culture"); ("items", JArr [JNull])]])].

(** A vocabulary list with [null] after a well-formed item. *)
Definition nullItemDocument : json :=
  JObj [("title", JStr "打招呼");
        ("sections",
         JArr [JObj [("type", JStr "vocab");
                     ("items", JArr [JObj [("japanese", JStr "こんにちは")]; JNull])]])].

(** * Properties *)

(** ** Sets of keys *)

Lemma inb_In (k : string) (l : list string) : inb k l = true <-> In k l.
Proof.
  unfold inb. rewrite existsb_exists. split.
  - intros [x [Hx Heq]]. apply String.eqb_eq in Heq. now subst.
  - intros H. exists k. split; [assumption | apply String.eqb_refl].
Qed.

Lemma inb_false (k : string) (l : list string) : inb k l = false <-> ~ In k l.
Proof.
  rewrite <- inb_In. destruct (inb k l); split; intros; congruence.
Qed.

Lemma fold_setAdd_In (l s : list string) (k : string) :
  In k (fold_left setAdd l s) <-> In k s \/ In k l.
Proof.
  revert s. induction l as [|x l IH]; intros s; simpl.
  - tauto.
  - rewrite IH. unfold setAdd. destruct (inb x s) eqn:E.
    + apply inb_In in E. split; [tauto|]. intros [H|[H|H]]; subst; tauto.
    + rewrite in_app_iff. simpl. tauto.
Qed.

Lemma fold_setAdd_NoDup (l s : list string) :
  NoDup s -> NoDup (fold_left setAdd l s).
Proof.
  revert s. induction l as [|x l IH]; intros s Hs; simpl; [assumption|].
  apply IH. unfold setAdd. destruct (inb x s) eqn:E; [assumption|].
  apply inb_false in E. apply NoDup_app; [assumption | repeat constructor; simpl; tauto |].
  intros a Ha [Hx|[]]. subst. contradiction.
Qed.

Lemma newSet_In (l : list string) (k : string) : In k (newSet l) <-> In k l.
Proof. unfold newSet. rewrite fold_setAdd_In. simpl. tauto. Qed.

Lemma newSet_NoDup (l : list string) : NoDup (newSet l).
Proof. apply fold_setAdd_NoDup. constructor. Qed.

Lemma inb_newSet (l : list string) (k : string) : inb k (newSet l) = inb k l.
Proof.
  destruct (inb k l) eqn:E.
  - apply inb_In, newSet_In, inb_In, E.
  - apply inb_false. rewrite newSet_In. apply inb_false, E.
Qed.

(** The two loops of [crossReferenceChapters] are filters. *)
Lemma fold_findings (keep : string -> bool) (mk : string -> Finding)
  (l : list string) (acc : list Finding * nat) :
  fold_left (fun (acc : list Finding * nat) k =>
               if keep k then ((fst acc ++ [mk k])%list, S (snd acc)) else acc) l acc
  = ((fst acc ++ map mk (filter keep l))%list, snd acc + length (filter keep l)).
Proof.
  revert acc. induction l as [|x l IH]; intros [log n]; simpl.
  - now rewrite app_nil_r, Nat.add_0_r.
  - rewrite IH. destruct (keep x); simpl.
    + now rewrite <- app_assoc, Nat.add_succ_r.
    + reflexivity.
Qed.

Lemma crossReferenceChapters_eq (tsRefs : list Ref) (actualFiles : list UnitPath) :
  crossReferenceChapters tsRefs actualFiles
  = ((map MissingFile (missingKeys tsRefs actualFiles)
        ++ map OrphanFile (orphanKeys tsRefs actualFiles))%list,
     length (missingKeys tsRefs actualFiles) + length (orphanKeys tsRefs actualFiles)).
Proof.
  unfold crossReferenceChapters, missingKeys, orphanKeys.
  now rewrite !fold_findings.
Qed.

Lemma missingKeys_In (tsRefs : list Ref) (actualFiles : list UnitPath) (k : string) :
  In k (missingKeys tsRefs actualFiles)
  <-> In k (map refKey tsRefs) /\ ~ In k (map actualKey actualFiles).
Proof.
  unfold missingKeys. rewrite filter_In, newSet_In, negb_true_iff, inb_false, newSet_In.
  tauto.
Qed.

Lemma orphanKeys_In (tsRefs : list Ref) (actualFiles : list UnitPath) (k : string) :
  In k (orphanKeys tsRefs actualFiles)
  <-> In k (map actualKey actualFiles) /\ ~ In k (map refKey tsRefs).
Proof.
  unfold orphanKeys. rewrite filter_In, newSet_In, negb_true_iff, inb_false, newSet_In.
  tauto.
Qed.

Lemma findings_NoDup (tsRefs : list Ref) (actualFiles : list UnitPath) :
  NoDup (fst (crossReferenceChapters tsRefs actualFiles)).
Proof.
  rewrite crossReferenceChapters_eq. simpl. apply NoDup_app.
  - apply Finite.Injective_map_NoDup; [intros a b H; now inversion H|].
    apply NoDup_filter, newSet_NoDup.
  - apply Finite.Injective_map_NoDup; [intros a b H; now inversion H|].
    apply NoDup_filter, newSet_NoDup.
  - intros f Hm Ho. apply in_map_iff in Hm as [a [Ha _]].
    apply in_map_iff in Ho as [b [Hb _]]. congruence.
Qed.

(** ** Manifest keys identify their pairs *)

Lemma string_of_uint_slashFree (d : Decimal.uint) :
  slashFree (NilEmpty.string_of_uint d) = true.
Proof. induction d; simpl; auto. Qed.

Lemma dec_inj (n m : nat) : dec n = dec m -> n = m.
Proof.
  unfold dec. intros H.
  apply (f_equal NilEmpty.uint_of_string) in H. rewrite !NilEmpty.usu in H.
  injection H as H. apply (f_equal Nat.of_uint) in H.
  now rewrite !Unsigned.of_to in H.
Qed.

Lemma split_at_slash (a b u v : string) :
  slashFree a = true -> slashFree b = true ->
  a ++ "/" ++ u = b ++ "/" ++ v -> a = b /\ u = v.
Proof.
  revert b. induction a as [|c a IH]; intros [|c' b] Ha Hb H; simpl in *.
  - injection H as H. now split.
  - injection H as Hc _. subst c'. discriminate.
  - injection H as Hc _. subst c. discriminate.
  - injection H as Hc H. subst c'.
    apply andb_true_iff in Ha as [_ Ha]. apply andb_true_iff in Hb as [_ Hb].
    destruct (IH b Ha Hb H) as [-> ->]. now split.
Qed.

Lemma refKey_inj (r1 r2 : Ref) : refKey r1 = refKey r2 -> r1 = r2.
Proof.
  destruct r1 as [c1 u1], r2 as [c2 u2]. unfold refKey. simpl. intros H.
  injection H as H.
  apply split_at_slash in H as [Hc Hu]; try apply string_of_uint_slashFree.
  apply dec_inj in Hc. now subst.
Qed.

(** ** The verdict *)

(** C2: the final verdict is FAIL exactly when the number of recorded
    issues plus the number of cross-reference findings is positive, and
    PASS exactly when that total is zero, that is when there is no issue
    and no finding at all; this is the verdict a completed run reports. *)
Theorem finalVerdict_fail_iff_problems :
  (forall (recorded : list Issue) (crossCount : nat),
      (finalVerdict recorded crossCount = FAIL <-> length recorded + crossCount > 0)
      /\ (finalVerdict recorded crossCount = PASS <-> length recorded + crossCount = 0)
      /\ (finalVerdict recorded crossCount = PASS <-> recorded = [] /\ crossCount = 0))
  /\ (forall disk tsRefs report,
         runAudit disk tsRefs = Some report ->
         verdict report = finalVerdict (issues (finalState report)) (crossIssues report)
         /\ crossIssues report = length (findings report)).
Proof.
  split.
  - intros recorded crossCount. unfold finalVerdict.
    destruct (Nat.eqb_spec (length recorded + crossCount) 0) as [E|E].
    + split; [split; [discriminate | lia]|].
      split; [split; [intros _; exact E | reflexivity]|].
      split; [intros _ | reflexivity].
      destruct recorded; [split; [reflexivity | simpl in E; lia] | simpl in E; lia].
    + split; [split; [lia | reflexivity]|].
      split; [split; [discriminate | lia]|].
      split; [discriminate|]. intros [-> ->]. simpl in E. lia.
  - intros disk tsRefs report. unfold runAudit.
    destruct (forOf _ disk initialState) as [[u st]|]; [|discriminate].
    intros H. injection H as <-. simpl. split; [reflexivity|].
    rewrite crossReferenceChapters_eq. simpl. now rewrite length_app, !length_map.
Qed.

(** ** The cross-reference *)


(** ** Running the monad *)

Lemma bind_Some {A B} (m : M A) (k : A -> M B) (st st' : State) (a : A) :
  m st = Some (a, st') -> bind m k st = k a st'.
Proof. unfold bind. now intros ->. Qed.

Lemma get_field (v : json) (k : string) (x : jsval) (st : State) :
  getProp v k = Some x -> get v k st = Some (field v k, st).
Proof. unfold get, field. now intros ->. Qed.

Lemma getProp_field (v : json) (k k' : string) (x : jsval) :
  getProp v k = Some x -> getProp v k' = Some (field v k').
Proof. unfold field. destruct v; simpl; intros H; try discriminate; reflexivity. Qed.

Lemma field_eq (v : json) (k : string) (x : jsval) :
  getProp v k = Some x -> field v k = x.
Proof. unfold field. now intros ->. Qed.

Lemma addIssue_push (f s p : string) (st : State) :
  addIssue f s p st = Some (tt, pushIssues st [mkIssue f s p]).
Proof. reflexivity. Qed.

Lemma pushIssues_nil (st : State) : pushIssues st [] = st.
Proof. destruct st. unfold pushIssues. simpl. now rewrite app_nil_r. Qed.

Lemma pushIssues_app (st : State) (l1 l2 : list Issue) :
  pushIssues (pushIssues st l1) l2 = pushIssues st (l1 ++ l2).
Proof. unfold pushIssues. simpl. now rewrite app_assoc. Qed.

Lemma correctOutOfRange_spec (c : jsval) :
  nullish c = false -> (correctOutOfRange c = false <-> numberInRange c).
Proof.
  intros Hn. unfold numberInRange. destruct c as [[| |x| | |]|]; simpl in *;
    try discriminate;
    try (split; [discriminate | intros [y [Hy _]]; discriminate]).
  rewrite orb_false_iff, !negb_false_iff, !Qle_bool_iff. split.
  - intros [H0 H3]. exists x. auto.
  - intros [y [Hy [H0 H3]]]. injection Hy as ->. auto.
Qed.

(** ** The quiz validator *)


Lemma append_inv_head (s a b : string) : s ++ a = s ++ b -> a = b.
Proof. induction s as [|c s IH]; simpl; intros H; [assumption|]. injection H as H. auto. Qed.

Lemma pushIssues_neq (st : State) (x : Issue) : st <> pushIssues st [x].
Proof.
  intros H. apply (f_equal (fun s => length (issues s))) in H.
  unfold pushIssues in H. simpl in H. rewrite length_app in H. simpl in H. lia.
Qed.

Lemma pushIssues_inj (st : State) (x y : Issue) :
  pushIssues st [x] = pushIssues st [y] -> x = y.
Proof.
  intros H. apply (f_equal issues) in H. unfold pushIssues in H. simpl in H.
  apply app_inv_head in H. now injection H.
Qed.

Lemma outcome_inj (s1 s2 : State) : Some (tt, s1) = Some (tt, s2) -> s1 = s2.
Proof. intros H. now injection H. Qed.


(** ** The content scanners *)

Lemma findEmptyStrings_frame (obj : json) :
  forall (p : string) (r : list string),
    findEmptyStrings obj p r = (r ++ findEmptyStrings obj p [])%list.
Proof.
  induction obj as [| | |s|items IH|fields IH] using json_tree_ind;
    intros p r; simpl; try (now rewrite app_nil_r).
  - destruct (s =? EmptyString); [reflexivity | now rewrite app_nil_r].
  - generalize 0 as i. revert r.
    induction IH as [|x l Hx Hl IHl]; intros r i; [now rewrite app_nil_r|].
    rewrite IHl. rewrite (IHl (findEmptyStrings x _ [])).
    rewrite (Hx _ r). now rewrite app_assoc.
  - revert r.
    induction IH as [|[k v] l Hx Hl IHl]; intros r; [now rewrite app_nil_r|].
    rewrite IHl. rewrite (IHl (findEmptyStrings v _ [])).
    simpl in Hx. rewrite (Hx _ r). now rewrite app_assoc.
Qed.

Lemma findForbiddenNames_frame (obj : json) :
  forall (p : string) (r : list ForbiddenMatch),
    findForbiddenNames obj p r = (r ++ findForbiddenNames obj p [])%list.
Proof.
  induction obj as [| | |s|items IH|fields IH] using json_tree_ind;
    intros p r; simpl; try (now rewrite app_nil_r).
  - destruct (includes s kuroki1 || includes s kuroki2);
      [reflexivity | now rewrite app_nil_r].
  - generalize 0 as i. revert r.
    induction IH as [|x l Hx Hl IHl]; intros r i; [now rewrite app_nil_r|].
    rewrite IHl. rewrite (IHl (findForbiddenNames x _ [])).
    rewrite (Hx _ r). now rewrite app_assoc.
  - revert r.
    induction IH as [|[k v] l Hx Hl IHl]; intros r; [now rewrite app_nil_r|].
    rewrite IHl. rewrite (IHl (findForbiddenNames v _ [])).
    simpl in Hx. rewrite (Hx _ r). now rewrite app_assoc.
Qed.

Lemma forOf_cons {A} (f : A -> M unit) (x : A) (l : list A) :
  forOf f (x :: l) = bind (f x) (fun _ => forOf f l).
Proof. reflexivity. Qed.

Lemma forOf_nil {A} (f : A -> M unit) : forOf f [] = ret tt.
Proof. reflexivity. Qed.

(** A loop that pushes at most one issue per element pushes the issues of
    the elements it keeps. *)
Lemma forOf_push {A} (keep : A -> bool) (mk : A -> Issue) (l : list A) (st : State) :
  forOf (fun x => if keep x
                  then addIssue (file (mk x)) (sectionType (mk x)) (problem (mk x))
                  else ret tt) l st
  = Some (tt, pushIssues st (map mk (filter keep l))).
Proof.
  revert st. induction l as [|x l IH]; intros st.
  - simpl. now rewrite pushIssues_nil.
  - rewrite forOf_cons. unfold bind at 1. simpl filter. destruct (keep x).
    + rewrite addIssue_push, IH, pushIssues_app. simpl. now destruct (mk x).
    + apply IH.
Qed.

Lemma reportForbiddenNames_push (rel : string) (data : json) (st : State) :
  reportForbiddenNames rel data st = Some (tt, pushIssues st (forbiddenNameIssues rel data)).
Proof.
  unfold reportForbiddenNames, forbiddenNameIssues.
  generalize (findForbiddenNames data "root" []) as l. intros l. revert st.
  induction l as [|x l IH]; intros st.
  - simpl. now rewrite pushIssues_nil.
  - rewrite forOf_cons. unfold bind at 1.
    rewrite addIssue_push, IH, pushIssues_app. reflexivity.
Qed.

Lemma reportEmptyStrings_push (rel : string) (data : json) (st : State) :
  reportEmptyStrings rel data st = Some (tt, pushIssues st (emptyStringIssues rel data)).
Proof.
  unfold reportEmptyStrings, emptyStringIssues. rewrite <- forOf_push. reflexivity.
Qed.

(** C8: both scanners only append to the array they are given, and what
    they append depends on the document alone: whatever the array holds
    from earlier scans, a scan adds the same matches as a scan into an
    empty array, so a second scan of the same tree finds the same matches
    again; the issues [auditUnit] derives from the scans are the same in
    every state of the run. *)
Theorem scanners_idempotent_and_stateless :
  forall (obj : json) (p : string),
    (forall earlier, findEmptyStrings obj p earlier
                     = (earlier ++ findEmptyStrings obj p [])%list)
    /\ (forall earlier, findForbiddenNames obj p earlier
                        = (earlier ++ findForbiddenNames obj p [])%list)
    /\ findEmptyStrings obj p (findEmptyStrings obj p [])
       = (findEmptyStrings obj p [] ++ findEmptyStrings obj p [])%list
    /\ findForbiddenNames obj p (findForbiddenNames obj p [])
       = (findForbiddenNames obj p [] ++ findForbiddenNames obj p [])%list
    /\ (forall rel st, reportEmptyStrings rel obj st
                       = Some (tt, pushIssues st (emptyStringIssues rel obj)))
    /\ (forall rel st, reportForbiddenNames rel obj st
                       = Some (tt, pushIssues st (forbiddenNameIssues rel obj))).
Proof.
  intros obj p. repeat split.
  - intros earlier. apply findEmptyStrings_frame.
  - intros earlier. apply findForbiddenNames_frame.
  - apply findEmptyStrings_frame.
  - apply findForbiddenNames_frame.
  - intros rel st. apply reportEmptyStrings_push.
  - intros rel st. apply reportForbiddenNames_push.
Qed.

(** ** The general fields *)

Lemma getProp_nonnull (data : json) (k : string) :
  data <> JNull -> getProp data k = Some (field data k).
Proof. unfold field. destruct data; simpl; intros H; try reflexivity. congruence. Qed.

Lemma get_nonnull (data : json) (k : string) (st : State) :
  data <> JNull -> get data k st = Some (field data k, st).
Proof. intros H. unfold get. now rewrite (getProp_nonnull _ k H). Qed.

Lemma forOf_flat {A} (f : A -> M unit) (out : A -> list Issue) (l : list A) (st : State) :
  (forall x st', In x l -> f x st' = Some (tt, pushIssues st' (out x))) ->
  forOf f l st = Some (tt, pushIssues st (flat_map out l)).
Proof.
  revert st. induction l as [|x l IH]; intros st H.
  - simpl. now rewrite pushIssues_nil.
  - rewrite forOf_cons. unfold bind. rewrite H by (now left).
    rewrite IH by (intros; apply H; now right).
    simpl. now rewrite pushIssues_app.
Qed.

Lemma flat_map_filter {A B} (keep : A -> bool) (mk : A -> B) (l : list A) :
  flat_map (fun x => if keep x then [mk x] else []) l = map mk (filter keep l).
Proof.
  induction l as [|x l IH]; simpl; [reflexivity|].
  destruct (keep x); simpl; now rewrite IH.
Qed.

Lemma when_push (b : bool) (f s p : string) (st : State) :
  (if b then addIssue f s p else ret tt) st
  = Some (tt, pushIssues st (if b then [mkIssue f s p] else [])).
Proof. destruct b; [reflexivity|]. unfold ret. now rewrite pushIssues_nil. Qed.

Lemma checkGeneralFields_push (rel : string) (data : json) (st : State) :
  data <> JNull ->
  checkGeneralFields rel data st = Some (tt, pushIssues st (generalFieldIssues rel data)).
Proof.
  intros Hd. unfold checkGeneralFields, generalFieldIssues.
  unfold bind at 1.
  rewrite (forOf_flat _ (fun f => if nullish (field data f)
                                  then [mkIssue rel "general"
                                          ("Missing top-level field: " ++ quoted f)]
                                  else [])).
  2:{ intros x st' _. unfold bind. rewrite (get_nonnull _ _ _ Hd). apply when_push. }
  rewrite flat_map_filter.
  rewrite (bind_Some _ _ _ _ _ (get_nonnull _ _ _ Hd)).
  rewrite (bind_Some _ _ _ _ _ (when_push _ _ _ _ _)).
  rewrite (bind_Some _ _ _ _ _ (get_nonnull _ _ _ Hd)).
  rewrite (bind_Some _ _ _ _ _ (when_push _ _ _ _ _)).
  rewrite (bind_Some _ _ _ _ _ (get_nonnull _ _ _ Hd)).
  rewrite when_push. now rewrite !pushIssues_app.
Qed.

Lemma generalFieldIssues_shape (rel : string) (data : json) (x : Issue) :
  In x (generalFieldIssues rel data) ->
  sectionType x = "general"
  /\ ((exists f, problem x = "Missing top-level field: " ++ quoted f)
      \/ problem x = quoted "title" ++ " is an empty string"
      \/ problem x = quoted "intro" ++ " is an empty string"
      \/ problem x = quoted "estimatedTime" ++ " is an empty string").
Proof.
  unfold generalFieldIssues. rewrite !in_app_iff, in_map_iff.
  intros [[f [<- _]]|[H|[H|H]]].
  - split; [reflexivity|]. left. now exists f.
  - destruct (isEmptyStr _); [destruct H as [<-|[]] | destruct H]. simpl. tauto.
  - destruct (isEmptyStr _); [destruct H as [<-|[]] | destruct H]. simpl. tauto.
  - destruct (isEmptyStr _); [destruct H as [<-|[]] | destruct H]. simpl. tauto.
Qed.

Lemma cannotContinue_not_general (rel : string) (data : json) :
  ~ In (mkIssue rel "general" cannotContinue) (generalFieldIssues rel data).
Proof.
  intros H. apply generalFieldIssues_shape in H as [_ [[f H]|[H|[H|H]]]];
    simpl in H; discriminate.
Qed.

(** C7, as the script has it: when the parsed document is not [null] and
    its [sections] is absent or is not an array, [auditUnit] counts the
    unit, pushes the issues of the general fields and then exactly one
    more issue, saying that it cannot continue, and stops there: no section
    is counted or checked, and every issue pushed has the category
    [general], so none comes from a section validator, from the
    missing-section check or from a content scan.  When [sections] is
    undefined or null the general-field issues already include the one
    naming it as a missing top-level field. *)
Theorem auditUnit_sections_not_array :
  forall (rel : string) (data : json) (st : State),
    data <> JNull ->
    isArray (field data "sections") = false ->
    auditUnit rel (Parsed data) st
    = Some (tt, mkState (issues st ++ generalFieldIssues rel data
                           ++ [mkIssue rel "general" cannotContinue])
                        (S (totalUnitsChecked st)) (totalSectionsChecked st))
    /\ Forall (fun x => sectionType x = "general")
              (generalFieldIssues rel data ++ [mkIssue rel "general" cannotContinue])
    /\ ~ In (mkIssue rel "general" cannotContinue) (generalFieldIssues rel data)
    /\ (nullish (field data "sections") = true ->
        In (mkIssue rel "general" ("Missing top-level field: " ++ quoted "sections"))
           (generalFieldIssues rel data)).
Proof.
  intros rel data st Hd Harr. split; [|split; [|split]].
  - unfold auditUnit. unfold bind at 1. unfold incrUnits.
    rewrite (bind_Some _ _ _ _ _ (checkGeneralFields_push _ _ _ Hd)).
    rewrite (bind_Some _ _ _ _ _ (get_nonnull _ _ _ Hd)).
    rewrite Harr, orb_true_r. rewrite addIssue_push.
    unfold pushIssues. simpl. now rewrite <- app_assoc.
  - apply Forall_app. split.
    + apply Forall_forall. intros x Hx.
      now apply generalFieldIssues_shape in Hx as [Hx _].
    + now repeat constructor.
  - apply cannotContinue_not_general.
  - intros Hn. unfold generalFieldIssues. apply in_or_app. left.
    apply (in_map (fun f => mkIssue rel "general"
                              ("Missing top-level field: " ++ quoted f))
                  _ "sections").
    apply filter_In. split; [simpl; tauto | exact Hn].
Qed.

(** ** The flashcards validator *)

Lemma duplicateLoop_push (prefix filePath : string) (fronts : list jsval) :
  forall (seen : list string) (st : State),
    duplicateLoop prefix filePath fronts seen st
    = Some (tt, pushIssues st (map (duplicateIssue prefix filePath) (flagged fronts seen))).
Proof.
  induction fronts as [|f rest IH]; intros seen st; simpl.
  - unfold ret. now rewrite pushIssues_nil.
  - unfold bind. destruct (seenHas seen f).
    + rewrite addIssue_push, IH, pushIssues_app. reflexivity.
    + unfold ret. apply IH.
Qed.

Lemma cardFront_key (c : json) (st : State) :
  c <> JNull -> cardFront c st = Some (cardKey c, st).
Proof.
  intros H. unfold cardFront, cardKey.
  rewrite (bind_Some _ _ _ _ _ (get_nonnull _ _ _ H)).
  rewrite (bind_Some _ _ _ _ _ (get_nonnull _ _ _ H)). reflexivity.
Qed.

Lemma mapM_cardFront (cards : list json) (st : State) :
  Forall (fun c => c <> JNull) cards ->
  mapM cardFront cards st = Some (map cardKey cards, st).
Proof.
  induction 1 as [|c l Hc Hl IH]; simpl; [reflexivity|].
  rewrite (bind_Some _ _ _ _ _ (cardFront_key _ _ Hc)).
  rewrite (bind_Some _ _ _ _ _ IH). reflexivity.
Qed.

Lemma checkFlashcardsDuplicates_push (prefix filePath : string) (cards : list json)
  (st : State) :
  Forall (fun c => c <> JNull) cards ->
  checkFlashcardsDuplicates prefix filePath cards st
  = Some (tt, pushIssues st (map (duplicateIssue prefix filePath)
                                 (flagged (duplicateKeys cards) []))).
Proof.
  intros H. unfold checkFlashcardsDuplicates.
  rewrite (bind_Some _ _ _ _ _ (mapM_cardFront _ _ H)).
  apply duplicateLoop_push.
Qed.

Lemma checkFlashcardsCard_push (prefix filePath : string) (card : json) (i : nat)
  (st : State) :
  card <> JNull ->
  checkFlashcardsCard prefix filePath card i st
  = Some (tt, pushIssues st (cardIssues prefix filePath card i)).
Proof.
  intros H. unfold checkFlashcardsCard, cardIssues.
  rewrite (bind_Some _ _ _ _ _ (get_nonnull _ _ _ H)).
  rewrite (bind_Some _ _ _ _ _ (get_nonnull _ _ _ H)).
  rewrite (bind_Some _ _ _ _ _ (when_push _ _ _ _ _)).
  rewrite (forOf_flat _ (fun f => if nullish (field card f)
                                  then [missingCardFieldIssue prefix filePath card i f]
                                  else [])).
  2:{ intros x st' _. unfold bind. rewrite (get_nonnull _ _ _ H).
      destruct (nullish (field card x)).
      - rewrite (get_nonnull _ _ _ H). apply addIssue_push.
      - unfold ret. now rewrite pushIssues_nil. }
  rewrite flat_map_filter, pushIssues_app. reflexivity.
Qed.

Lemma inb_cons_same (v : string) (l : list string) : inb v (v :: l) = true.
Proof. unfold inb. simpl. now rewrite String.eqb_refl. Qed.

Lemma inb_cons_other (v w : string) (l : list string) :
  w <> v -> inb v (w :: l) = inb v l.
Proof.
  intros H. unfold inb. simpl. apply String.eqb_neq in H.
  rewrite String.eqb_sym. now rewrite H.
Qed.

(** Among the flagged values, a text that [Object.prototype] does not
    define occurs once per repeat occurrence: as often as among the keys
    when it was seen before, once less otherwise. *)
Lemma flagged_count (v : string) (fronts : list jsval) :
  inb v objectPrototypeNames = false ->
  forall seen,
    countShown v (flagged fronts seen)
    = if inb v seen then countShown v fronts else countShown v fronts - 1.
Proof.
  intros Hv. unfold countShown.
  induction fronts as [|f rest IH]; intros seen; simpl.
  - now destruct (inb v seen).
  - rewrite filter_app, length_app, IH.
    destruct (String.eqb_spec (show f) v) as [E|E].
    + unfold seenHas, seenSet. rewrite E, Hv, orb_false_r.
      assert ((v =? "__proto__") = false) as Hp.
      { apply String.eqb_neq. intros ->. discriminate. }
      rewrite Hp, inb_cons_same.
      destruct (inb v seen); simpl; rewrite ?E, ?String.eqb_refl; simpl; lia.
    + assert (inb v (seenSet seen f) = inb v seen) as Hs.
      { unfold seenSet. destruct (show f =? "__proto__"); [reflexivity|].
        now apply inb_cons_other. }
      rewrite Hs.
      assert (length (filter (fun f0 => show f0 =? v)
                             (if seenHas seen f then [f] else [])) = 0) as H0.
      { apply String.eqb_neq in E. destruct (seenHas seen f); simpl; [|reflexivity].
        now rewrite E. }
      rewrite H0. reflexivity.
Qed.

Lemma length_append (a b : string) :
  String.length (a ++ b) = String.length a + String.length b.
Proof. induction a as [|c a IH]; simpl; [reflexivity | now rewrite IH]. Qed.

Lemma append_inv_tail (a b t : string) : a ++ t = b ++ t -> a = b.
Proof.
  revert b. induction a as [|c a IH]; intros [|c' b] H; simpl in H.
  - reflexivity.
  - apply (f_equal String.length) in H. simpl in H. rewrite length_append in H. lia.
  - apply (f_equal String.length) in H. simpl in H. rewrite length_append in H. lia.
  - injection H as -> H. f_equal. now apply IH.
Qed.

Lemma quoted_inj (a b : string) : quoted a = quoted b -> a = b.
Proof.
  unfold quoted. intros H. apply append_inv_head in H. now apply append_inv_tail in H.
Qed.

Lemma duplicateIssue_eqb (prefix filePath : string) (f : jsval) (v : string) :
  issue_eqb (duplicateIssue prefix filePath (Some (JStr v)))
            (duplicateIssue prefix filePath f)
  = (show f =? v).
Proof.
  unfold issue_eqb, duplicateIssue. cbn [file sectionType problem show toStr].
  rewrite !String.eqb_refl. cbn [andb].
  destruct (String.eqb_spec (show f) v) as [->|Hne].
  - apply String.eqb_refl.
  - apply String.eqb_neq. intros H. apply append_inv_head in H.
    apply (append_inv_head ": DUPLICATE flashcard front/japanese value: ") in H.
    apply quoted_inj in H. congruence.
Qed.

Lemma countIssue_duplicates (prefix filePath : string) (v : string) (l : list jsval) :
  countIssue (duplicateIssue prefix filePath (Some (JStr v)))
             (map (duplicateIssue prefix filePath) l)
  = countShown v l.
Proof.
  unfold countIssue, countShown. induction l as [|f l IH]; [reflexivity|].
  cbn [map filter]. rewrite duplicateIssue_eqb.
  destruct (show f =? v); cbn [length]; now rewrite IH.
Qed.

Lemma duplicateKeys_truthy_japanese (cards : list json) :
  Forall (fun c => truthy (field c "japanese") = true) cards ->
  duplicateKeys cards = map (fun c => field c "japanese") cards.
Proof.
  unfold duplicateKeys. induction 1 as [|c l Hc Hl IH]; simpl; [reflexivity|].
  assert (cardKey c = field c "japanese") as Hk.
  { unfold cardKey, orElse. now rewrite Hc, Hc. }
  rewrite Hk, IH.
  assert (isEmptyStr (field c "japanese") = false) as He.
  { destruct (field c "japanese") as [[]|]; simpl in *; try reflexivity.
    now apply negb_true_iff in Hc. }
  now rewrite He.
Qed.

Lemma truthy_field_nonnull (c : json) (k : string) :
  truthy (field c k) = true -> c <> JNull.
Proof. intros H ->. discriminate. Qed.

Lemma cardKey_cases (c : json) :
  cardKey c = if truthy (field c "japanese") then field c "japanese"
              else if truthy (field c "front") then field c "front"
                   else emptyStr.
Proof.
  unfold cardKey, orElse.
  destruct (truthy (field c "japanese")) eqn:Hj; [now rewrite Hj | reflexivity].
Qed.

(** Cards without a truthy [japanese] and without a truthy [front] are
    left out of the duplicate check. *)
Lemma checkFlashcardsDuplicates_no_key (prefix filePath : string) (cards : list json)
  (st : State) :
  Forall (fun c => c <> JNull /\ truthy (field c "japanese") = false
                   /\ truthy (field c "front") = false) cards ->
  checkFlashcardsDuplicates prefix filePath cards st = Some (tt, st).
Proof.
  intros H. rewrite checkFlashcardsDuplicates_push.
  - assert (duplicateKeys cards = []) as ->; [|simpl; now rewrite pushIssues_nil].
    unfold duplicateKeys. induction H as [|c l [_ [Hj Hf]] _ IH]; simpl; [reflexivity|].
    rewrite cardKey_cases, Hj, Hf. simpl. exact IH.
  - eapply Forall_impl; [|exact H]. intros c Hc. apply Hc.
Qed.


Lemma flagged_app (a b : list jsval) :
  forall seen,
    flagged (a ++ b) seen
    = (flagged a seen ++ flagged b (fold_left seenSet a seen))%list.
Proof.
  induction a as [|f a IH]; intros seen; simpl; [reflexivity|].
  now rewrite IH, app_assoc.
Qed.

Lemma seenHas_after (seen : list string) (f : jsval) :
  seenHas (seenSet seen f) f = true.
Proof.
  unfold seenHas, seenSet. destruct (String.eqb_spec (show f) "__proto__") as [E|E].
  - rewrite E. apply orb_true_r.
  - now rewrite inb_cons_same.
Qed.

Lemma seenHas_mono (seen : list string) (f g : jsval) :
  seenHas seen f = true -> seenHas (seenSet seen g) f = true.
Proof.
  unfold seenHas, seenSet. destruct (show g =? "__proto__"); [trivial|].
  rewrite !orb_true_iff, !inb_In. simpl. tauto.
Qed.

Lemma seenHas_fold (l : list jsval) :
  forall seen f, seenHas seen f = true -> seenHas (fold_left seenSet l seen) f = true.
Proof.
  induction l as [|g l IH]; intros seen f H; simpl; [assumption|].
  apply IH, seenHas_mono, H.
Qed.

(** The second of two equal keys is flagged. *)
Lemma flagged_repeat (a b c : list jsval) (f : jsval) (seen : list string) :
  In f (flagged (a ++ f :: b ++ f :: c) seen).
Proof.
  rewrite flagged_app. apply in_or_app. right. simpl.
  apply in_or_app. right. rewrite flagged_app. apply in_or_app. right. simpl.
  rewrite seenHas_fold by apply seenHas_after. now left.
Qed.

Lemma truthy_not_empty (v : jsval) : truthy v = true -> isEmptyStr v = false.
Proof.
  destruct v as [[]|]; simpl; try reflexivity. intros H. now apply negb_true_iff in H.
Qed.

Lemma duplicateKeys_app (l1 l2 : list json) :
  duplicateKeys (l1 ++ l2) = (duplicateKeys l1 ++ duplicateKeys l2)%list.
Proof. unfold duplicateKeys. now rewrite map_app, filter_app. Qed.

Lemma duplicateKeys_cons_truthy (c : json) (l : list json) :
  truthy (cardKey c) = true -> duplicateKeys (c :: l) = cardKey c :: duplicateKeys l.
Proof.
  intros H. unfold duplicateKeys. simpl. now rewrite (truthy_not_empty _ H).
Qed.


(** ** Documents the audit passes *)

Lemma findEmptyStrings_none (obj : json) :
  forall p, noEmptyString obj = true -> findEmptyStrings obj p [] = [].
Proof.
  induction obj as [| | |s|items IH|fields IH] using json_tree_ind;
    intros p H; simpl in *; try reflexivity.
  - unfold nonEmpty in H. apply negb_true_iff in H. now rewrite H.
  - generalize 0 as i.
    induction IH as [|x l Hx Hl IHl]; intros i; [reflexivity|].
    simpl in H. apply andb_true_iff in H as [H1 H2].
    rewrite (Hx _ H1). now apply IHl.
  - induction IH as [|[k v] l Hx Hl IHl]; [reflexivity|].
    simpl in H. apply andb_true_iff in H as [H1 H2].
    simpl in Hx. rewrite (Hx _ H1). now apply IHl.
Qed.

Lemma findForbiddenNames_none (obj : json) :
  forall p, noForbiddenName obj = true -> findForbiddenNames obj p [] = [].
Proof.
  induction obj as [| | |s|items IH|fields IH] using json_tree_ind;
    intros p H; simpl in *; try reflexivity.
  - apply andb_true_iff in H as [H1 H2].
    apply negb_true_iff in H1, H2. now rewrite H1, H2.
  - generalize 0 as i.
    induction IH as [|x l Hx Hl IHl]; intros i; [reflexivity|].
    simpl in H. apply andb_true_iff in H as [H1 H2].
    rewrite (Hx _ H1). now apply IHl.
  - induction IH as [|[k v] l Hx Hl IHl]; [reflexivity|].
    simpl in H. apply andb_true_iff in H as [H1 H2].
    simpl in Hx. rewrite (Hx _ H1). now apply IHl.
Qed.

Lemma forallb_map {A B} (f : A -> B) (p : B -> bool) (l : list A) :
  forallb p (map f l) = forallb (fun x => p (f x)) l.
Proof. induction l as [|x l IH]; simpl; [reflexivity | now rewrite IH]. Qed.

Lemma nonEmpty_eqb (s : string) : nonEmpty s = true -> (s =? EmptyString) = false.
Proof. unfold nonEmpty. intros H. now apply negb_true_iff in H. Qed.

Lemma findEmptyStrings_obj_cons (k : string) (v : json) (rest : list (string * json))
  (p : string) (r : list string) :
  findEmptyStrings (JObj ((k, v) :: rest)) p r
  = findEmptyStrings (JObj rest) p (findEmptyStrings v (p ++ "." ++ k) r).
Proof. reflexivity. Qed.

Lemma emptyStringIssues_clean (rel : string) (d : UnitDocument) :
  nonEmpty (uTitle d) = true -> nonEmpty (uIntro d) = true ->
  nonEmpty (uEstimatedTime d) = true ->
  forallb (fun s => noEmptyString (encodeSection s)) (uSections d) = true ->
  emptyStringIssues rel (encodeUnit d) = [].
Proof.
  intros Ht Hi He Hs. unfold emptyStringIssues, encodeUnit.
  assert (findEmptyStrings (JArr (map encodeSection (uSections d)))
                           ("root" ++ "." ++ "sections") [] = []) as Hsec.
  { apply findEmptyStrings_none. simpl. now rewrite forallb_map. }
  rewrite !findEmptyStrings_obj_cons.
  rewrite (findEmptyStrings_frame (JArr _)), Hsec, app_nil_r.
  simpl. rewrite (nonEmpty_eqb _ Ht), (nonEmpty_eqb _ Hi), (nonEmpty_eqb _ He).
  now destruct (uId d =? EmptyString).
Qed.

Lemma forbiddenNameIssues_clean (rel : string) (j : json) :
  noForbiddenName j = true -> forbiddenNameIssues rel j = [].
Proof.
  intros H. unfold forbiddenNameIssues. now rewrite findForbiddenNames_none.
Qed.

Lemma forEach_noop {A} (f : A -> nat -> M unit) (l : list A) (st : State) :
  (forall x i st', In x l -> f x i st' = Some (tt, st')) ->
  forEach f l st = Some (tt, st).
Proof.
  unfold forEach. generalize 0 as i. revert st.
  induction l as [|x l IH]; intros st i H; [reflexivity|].
  unfold bind. rewrite H by (now left). apply IH. intros; apply H; now right.
Qed.

Lemma forEach_map_noop {A B} (enc : A -> B) (f : B -> nat -> M unit) (l : list A)
  (st : State) :
  (forall x i st', In x l -> f (enc x) i st' = Some (tt, st')) ->
  forEach f (map enc l) st = Some (tt, st).
Proof.
  intros H. apply forEach_noop. intros y i st' Hy.
  apply in_map_iff in Hy as [x [<- Hx]]. now apply H.
Qed.

Lemma length_nonzero {A} (l : list A) :
  negb (Nat.eqb (length l) 0) = true -> Nat.eqb (length l) 0 = false.
Proof. intros H. now apply negb_true_iff in H. Qed.

Lemma encodeSection_nonnull (s : UnitSection) : encodeSection s <> JNull.
Proof. discriminate. Qed.

(** Reads of a value that is not [null] are replaced by the field read. *)
Ltac run_get Hnn :=
  repeat (rewrite (bind_Some _ _ _ _ _ (get_nonnull _ _ _ Hnn)));
  repeat (rewrite (get_nonnull _ _ _ Hnn)).

(** Field reads of an encoded document or section are computed. *)
Ltac eval_field :=
  repeat match goal with
    | |- context [field ?v ?k] =>
        let r := eval cbv [field getProp lookup encodeUnit encodeSection encodeBody
                           sBody sTitle sectionTag String.eqb Ascii.eqb Bool.eqb]
                 in (field v k) in
        progress change (field v k) with r
    end.

(** Field reads of an encoded item are computed. *)
Ltac eval_item_field :=
  repeat match goal with
    | |- context [field ?v ?k] =>
        let r := eval cbv [field getProp lookup encodeVocabItem encodeQuizQuestion
                           optField app String.eqb Ascii.eqb Bool.eqb]
                 in (field v k) in
        progress change (field v k) with r
    end.

Lemma checkVocab_clean (rel title : string) (items : list VocabItem) (idx : nat)
  (st : State) :
  auditSectionOk (mkUnitSection title (Vocab items)) = true ->
  checkVocab (encodeSection (mkUnitSection title (Vocab items))) rel idx st
  = Some (tt, st).
Proof.
  unfold auditSectionOk. simpl. intros H. apply andb_true_iff in H as [Hlen Hall].
  unfold checkVocab. run_get (encodeSection_nonnull (mkUnitSection title (Vocab items))).
  eval_field. cbn [truthy isArray negb elements].
  rewrite length_map, (length_nonzero _ Hlen).
  apply forEach_map_noop. intros v i st' Hv.
  rewrite forallb_forall in Hall. specialize (Hall v Hv).
  destruct v as [j r ro c [e|] [ec|]]; simpl in Hall; try discriminate.
  reflexivity.
Qed.

Lemma checkDialogue_clean (rel title scene : string) (lines : list DialogueLine)
  (idx : nat) (st : State) :
  nonEmpty scene = true ->
  auditSectionOk (mkUnitSection title (Dialogue scene lines)) = true ->
  checkDialogue (encodeSection (mkUnitSection title (Dialogue scene lines))) rel idx st
  = Some (tt, st).
Proof.
  unfold auditSectionOk. simpl. intros Hs Hlen.
  unfold checkDialogue.
  run_get (encodeSection_nonnull (mkUnitSection title (Dialogue scene lines))).
  eval_field. cbn [truthy isEmptyStr isArray negb elements].
  rewrite (nonEmpty_eqb _ Hs). cbn [negb andb]. unfold bind, ret.
  run_get (encodeSection_nonnull (mkUnitSection title (Dialogue scene lines))).
  eval_field. cbn [truthy isEmptyStr isArray negb elements].
  rewrite length_map, (length_nonzero _ Hlen).
  apply forEach_map_noop. intros [sp j c] i st' _. reflexivity.
Qed.

Lemma checkGrammar_clean (rel title : string) (points : list GrammarPoint)
  (idx : nat) (st : State) :
  specSectionOk (mkUnitSection title (Grammar points)) = true ->
  auditSectionOk (mkUnitSection title (Grammar points)) = true ->
  checkGrammar (encodeSection (mkUnitSection title (Grammar points))) rel idx st
  = Some (tt, st).
Proof.
  unfold auditSectionOk, specSectionOk. simpl. intros Hex Hlen.
  unfold checkGrammar.
  run_get (encodeSection_nonnull (mkUnitSection title (Grammar points))).
  eval_field. cbn [truthy isArray negb elements].
  rewrite length_map, (length_nonzero _ Hlen).
  apply forEach_map_noop. intros g i st' Hg.
  rewrite forallb_forall in Hex. specialize (Hex g Hg).
  destruct g as [p m s [|e ex] note]; simpl in Hex; [discriminate|].
  reflexivity.
Qed.

Lemma checkCulture_clean (rel title content : string) (idx : nat) (st : State) :
  nonEmpty content = true ->
  checkCulture (encodeSection (mkUnitSection title (Culture content))) rel idx st
  = Some (tt, st).
Proof.
  intros Hc. unfold checkCulture.
  run_get (encodeSection_nonnull (mkUnitSection title (Culture content))).
  eval_field. cbn [truthy isEmptyStr negb].
  rewrite (nonEmpty_eqb _ Hc). reflexivity.
Qed.

Ltac split_andb :=
  repeat match goal with
    | H : (_ && _) = true |- _ => apply andb_true_iff in H; destruct H
    end.

Lemma correct_in_range (z : Z) :
  (0 <=? z)%Z = true -> (z <=? 3)%Z = true ->
  correctOutOfRange (Some (JNum (inject_Z z))) = false.
Proof.
  intros H0 H3. apply Z.leb_le in H0, H3. simpl.
  apply orb_false_iff. split; apply negb_false_iff, Qle_bool_iff.
  - change (inject_Z 0 <= inject_Z z)%Q. now rewrite <- Zle_Qle.
  - change (inject_Z z <= inject_Z 3)%Q. now rewrite <- Zle_Qle.
Qed.

Lemma checkQuizItem_clean (prefix rel : string) (q : QuizQuestion) (i : nat) (st : State) :
  nonEmpty (qQuestion q) = true -> nonEmpty (qExplanation q) = true ->
  Nat.eqb (length (qOptions q)) 4 = true ->
  (0 <=? qCorrect q)%Z = true -> (qCorrect q <=? 3)%Z = true ->
  checkQuizItem prefix rel (encodeQuizQuestion q) i st = Some (tt, st).
Proof.
  intros Hq He Hlen H0 H3.
  assert (encodeQuizQuestion q <> JNull) as Hnn by discriminate.
  unfold checkQuizItem.
  assert (forall s, checkQuizQuestion prefix rel (encodeQuizQuestion q) i s
                    = Some (tt, s)) as H1.
  { intros s. unfold checkQuizQuestion. run_get Hnn. eval_item_field.
    cbn [truthy]. now rewrite (nonEmpty_eqb _ Hq). }
  assert (forall s, checkQuizOptions prefix rel (encodeQuizQuestion q) i s
                    = Some (tt, s)) as H2.
  { intros s. unfold checkQuizOptions. run_get Hnn. eval_item_field.
    cbn [truthy isArray negb elements]. now rewrite length_map, Hlen. }
  assert (forall s, checkQuizCorrect prefix rel (encodeQuizQuestion q) i s
                    = Some (tt, s)) as H4.
  { intros s. unfold checkQuizCorrect. run_get Hnn. eval_item_field.
    cbn [nullish]. now rewrite (correct_in_range _ H0 H3). }
  assert (forall s, checkQuizExplanation prefix rel (encodeQuizQuestion q) i s
                    = Some (tt, s)) as H5.
  { intros s. unfold checkQuizExplanation. run_get Hnn. eval_item_field.
    cbn [truthy]. now rewrite (nonEmpty_eqb _ He). }
  rewrite (bind_Some _ _ _ _ _ (H1 st)), (bind_Some _ _ _ _ _ (H2 st)),
    (bind_Some _ _ _ _ _ (H4 st)). apply H5.
Qed.

Lemma checkQuiz_clean (rel title : string) (questions : list QuizQuestion)
  (idx : nat) (st : State) :
  specSectionOk (mkUnitSection title (Quiz questions)) = true ->
  auditSectionOk (mkUnitSection title (Quiz questions)) = true ->
  noEmptyString (encodeSection (mkUnitSection title (Quiz questions))) = true ->
  checkQuiz (encodeSection (mkUnitSection title (Quiz questions))) rel idx st
  = Some (tt, st).
Proof.
  unfold auditSectionOk, specSectionOk. simpl. intros Hspec Hlen Hne.
  apply andb_true_iff in Hne as [_ Hne]. apply andb_true_iff in Hne as [Hne _].
  rewrite forallb_map in Hne.
  unfold checkQuiz.
  run_get (encodeSection_nonnull (mkUnitSection title (Quiz questions))).
  eval_field. cbn [truthy isArray negb elements].
  rewrite length_map, (length_nonzero _ Hlen).
  apply forEach_map_noop. intros q i st' Hq.
  rewrite forallb_forall in Hspec, Hne.
  specialize (Hspec q Hq). specialize (Hne q Hq). simpl in Hne.
  split_andb. apply checkQuizItem_clean; assumption.
Qed.

Lemma flagged_clean (js : list string) :
  forall seen,
    noDup js = true ->
    forallb (fun s => negb (inb s objectPrototypeNames)) js = true ->
    (forall s, In s js -> ~ In s seen) ->
    flagged (map (fun s => Some (JStr s)) js) seen = [].
Proof.
  induction js as [|s js IH]; intros seen Hnd Hp Hseen; [reflexivity|].
  cbn [map flagged]. cbn [noDup] in Hnd. cbn [forallb] in Hp.
  apply andb_true_iff in Hnd as [Hs Hnd].
  apply andb_true_iff in Hp as [Hsp Hp].
  apply negb_true_iff in Hs, Hsp. apply inb_false in Hs.
  unfold seenHas at 1. cbn [show toStr]. rewrite Hsp, orb_false_r.
  assert (inb s seen = false) as -> by (apply inb_false, Hseen; now left).
  cbn [app]. apply IH; try assumption.
  intros t Ht. unfold seenSet. cbn [show toStr].
  destruct (s =? "__proto__"); [apply Hseen; now right|].
  intros [<-|Hin]; [contradiction|]. apply (Hseen t); [now right | assumption].
Qed.

Lemma checkFlashcards_clean (rel title : string) (cards : list VocabItem)
  (idx : nat) (st : State) :
  specSectionOk (mkUnitSection title (Flashcards cards)) = true ->
  auditSectionOk (mkUnitSection title (Flashcards cards)) = true ->
  noEmptyString (encodeSection (mkUnitSection title (Flashcards cards))) = true ->
  checkFlashcards (encodeSection (mkUnitSection title (Flashcards cards))) rel idx st
  = Some (tt, st).
Proof.
  unfold auditSectionOk, specSectionOk. simpl. intros Hnd Hok Hne.
  apply andb_true_iff in Hok as [Hlen Hproto].
  apply andb_true_iff in Hne as [_ Hne]. apply andb_true_iff in Hne as [Hne _].
  rewrite forallb_map in Hne.
  unfold checkFlashcards.
  run_get (encodeSection_nonnull (mkUnitSection title (Flashcards cards))).
  eval_field. cbn [truthy isArray negb elements].
  rewrite length_map, (length_nonzero _ Hlen).
  unfold bind. rewrite forEach_map_noop.
  2:{ intros [j r ro c [e|] [ec|]] i st' _; reflexivity. }
  rewrite checkFlashcardsDuplicates_push.
  2:{ apply Forall_forall. intros x Hx. apply in_map_iff in Hx as [v [<- _]].
      discriminate. }
  assert (duplicateKeys (map encodeVocabItem cards)
          = map (fun s => Some (JStr s)) (map vJapanese cards)) as ->.
  { unfold duplicateKeys. rewrite forallb_forall in Hne. clear -Hne.
    induction cards as [|v l IH]; [reflexivity|].
    assert (nonEmpty (vJapanese v) = true) as Hj.
    { specialize (Hne v (or_introl eq_refl)). simpl in Hne.
      now apply andb_true_iff in Hne as [Hne _]. }
    simpl map.
    assert (cardKey (encodeVocabItem v) = Some (JStr (vJapanese v))) as ->.
    { rewrite cardKey_cases. eval_item_field. cbn [truthy].
      now rewrite (nonEmpty_eqb _ Hj). }
    cbn [filter isEmptyStr]. rewrite (nonEmpty_eqb _ Hj). cbn [negb].
    f_equal. apply IH. intros x Hx. apply Hne. now right. }
  rewrite flagged_clean; [simpl; now rewrite pushIssues_nil | assumption | | tauto].
  now rewrite forallb_map.
Qed.

Lemma dispatchSection_clean (rel : string) (s : UnitSection) (idx : nat) (st : State) :
  specSectionOk s = true -> auditSectionOk s = true ->
  noEmptyString (encodeSection s) = true ->
  dispatchSection rel (encodeSection s) idx (Some (JStr (sectionTag (sBody s)))) st
  = Some (tt, st).
Proof.
  intros Hspec Hok Hne. destruct s as [title body].
  destruct body as [items|scene lines|points|cards|questions|content];
    unfold dispatchSection; cbn [sBody sectionTag String.eqb Ascii.eqb Bool.eqb].
  - now apply checkVocab_clean.
  - apply checkDialogue_clean; [exact Hspec | exact Hok].
  - now apply checkGrammar_clean.
  - now apply checkFlashcards_clean.
  - now apply checkQuiz_clean.
  - apply checkCulture_clean. exact Hspec.
Qed.

Lemma sectionTag_truthy (b : SectionBody) : truthy (Some (JStr (sectionTag b))) = true.
Proof. now destruct b. Qed.

Lemma auditSection_clean (rel : string) (s : UnitSection) (idx : nat)
  (sectionTypes : list jsval) (st : State) :
  specSectionOk s = true -> auditSectionOk s = true ->
  noEmptyString (encodeSection s) = true ->
  auditSection rel (encodeSection s) idx sectionTypes st
  = Some ((sectionTypes ++ [Some (JStr (sectionTag (sBody s)))])%list,
          mkState (issues st) (totalUnitsChecked st) (S (totalSectionsChecked st))).
Proof.
  intros Hspec Hok Hne. unfold auditSection. unfold bind at 1. unfold incrSections.
  run_get (encodeSection_nonnull s).
  assert (field (encodeSection s) "type" = Some (JStr (sectionTag (sBody s)))) as ->
      by reflexivity.
  rewrite sectionTag_truthy. cbn [negb].
  rewrite (bind_Some _ _ _ _ _ (dispatchSection_clean _ _ _ _ Hspec Hok Hne)).
  reflexivity.
Qed.

Lemma auditSections_clean (rel : string) (secs : list UnitSection) :
  forall (idx : nat) (sectionTypes : list jsval) (st : State),
    forallb specSectionOk secs = true -> forallb auditSectionOk secs = true ->
    forallb (fun s => noEmptyString (encodeSection s)) secs = true ->
    auditSections rel (map encodeSection secs) idx sectionTypes st
    = Some ((sectionTypes
               ++ map (fun s => Some (JStr (sectionTag (sBody s)))) secs)%list,
            mkState (issues st) (totalUnitsChecked st)
                    (totalSectionsChecked st + length secs)).
Proof.
  induction secs as [|s secs IH]; intros idx sectionTypes st Hspec Hok Hne.
  - simpl. unfold ret. rewrite app_nil_r, Nat.add_0_r. now destruct st.
  - cbn [forallb] in Hspec, Hok, Hne. split_andb.
    cbn [map auditSections].
    rewrite (bind_Some _ _ _ _ _ (auditSection_clean _ _ _ _ _ H3 H1 H)).
    rewrite IH by assumption. cbn [issues totalUnitsChecked totalSectionsChecked].
    cbn [length map]. now rewrite <- app_assoc, Nat.add_succ_r.
Qed.

Lemma setHas_tags (secs : list UnitSection) (req : string) :
  existsb (fun s => sectionTag (sBody s) =? req) secs = true ->
  setHas (map (fun s => Some (JStr (sectionTag (sBody s)))) secs) req = true.
Proof.
  unfold setHas. rewrite !existsb_exists. intros [s [Hs Heq]].
  exists (Some (JStr (sectionTag (sBody s)))). split; [|exact Heq].
  now apply (in_map (fun s => Some (JStr (sectionTag (sBody s))))).
Qed.

Lemma checkRequiredSections_clean (rel : string) (d : UnitDocument) (st : State) :
  forallb (hasSection d) requiredSections = true ->
  checkRequiredSections rel
    (map (fun s => Some (JStr (sectionTag (sBody s)))) (uSections d)) st
  = Some (tt, st).
Proof.
  intros H. unfold checkRequiredSections.
  rewrite (forOf_flat _ (fun _ => [])).
  - assert (flat_map (fun _ : string => @nil Issue) requiredSections = []) as ->
        by reflexivity.
    now rewrite pushIssues_nil.
  - intros req st' Hreq. rewrite forallb_forall in H. specialize (H req Hreq).
    rewrite (setHas_tags _ _ H). cbn [negb]. unfold ret. now rewrite pushIssues_nil.
Qed.

Lemma encodeUnit_nonnull (d : UnitDocument) : encodeUnit d <> JNull.
Proof. discriminate. Qed.

Lemma generalFieldIssues_clean (rel : string) (d : UnitDocument) :
  nonEmpty (uTitle d) = true -> nonEmpty (uIntro d) = true ->
  nonEmpty (uEstimatedTime d) = true ->
  generalFieldIssues rel (encodeUnit d) = [].
Proof.
  intros Ht Hi He. unfold generalFieldIssues.
  assert (filter (fun f => nullish (field (encodeUnit d) f)) generalFields = []) as ->
      by reflexivity.
  eval_field. cbn [isEmptyStr].
  now rewrite (nonEmpty_eqb _ Ht), (nonEmpty_eqb _ Hi), (nonEmpty_eqb _ He).
Qed.

(** C1, as the script has it: a document that satisfies the invariants of
    the specification's data model and, in addition, has a non-empty list
    in every section, carries [example] and [exampleChinese] on every
    vocabulary item, has a section of each of the five required types,
    holds no forbidden name, holds no empty string inside a section and
    names no flashcard after a property of [Object.prototype], goes
    through [auditUnit] without any issue: the unit and its sections are
    counted and the list of issues is unchanged. *)
Theorem auditUnit_no_issue :
  forall (rel : string) (d : UnitDocument) (st : State),
    auditWellFormed d = true ->
    auditUnit rel (Parsed (encodeUnit d)) st
    = Some (tt, mkState (issues st) (S (totalUnitsChecked st))
                        (totalSectionsChecked st + length (uSections d))).
Proof.
  intros rel d st H. unfold auditWellFormed, specWellFormed in H. split_andb.
  unfold auditUnit. unfold bind at 1. unfold incrUnits.
  rewrite (bind_Some _ _ _ _ _ (checkGeneralFields_push _ _ _ (encodeUnit_nonnull d))).
  rewrite generalFieldIssues_clean, pushIssues_nil by assumption.
  run_get (encodeUnit_nonnull d). eval_field.
  cbn [truthy isArray negb orb elements]. rewrite length_map.
  match goal with
  | Hl : negb (Nat.eqb (length (uSections d)) 0) = true |- _ =>
      rewrite (length_nonzero _ Hl)
  end.
  rewrite (bind_Some _ _ _ _ _ (auditSections_clean rel (uSections d) 0 [] _
                                  ltac:(assumption) ltac:(assumption) ltac:(assumption))).
  cbn [app].
  rewrite (bind_Some _ _ _ _ _ (checkRequiredSections_clean rel d _ ltac:(assumption))).
  rewrite (bind_Some _ _ _ _ _ (reportForbiddenNames_push _ _ _)).
  rewrite forbiddenNameIssues_clean, pushIssues_nil by assumption.
  rewrite reportEmptyStrings_push.
  rewrite emptyStringIssues_clean, pushIssues_nil by assumption.
  reflexivity.
Qed.

(** ** What the empty-string scanner finds *)

Lemma findEmptyStrings_arr (items : list json) (p : string) (r : list string) :
  findEmptyStrings (JArr items) p r = emptyInItems p items 0 r.
Proof. reflexivity. Qed.

Lemma findEmptyStrings_obj (fields : list (string * json)) (p : string) (r : list string) :
  findEmptyStrings (JObj fields) p r = emptyInFields p fields r.
Proof. reflexivity. Qed.

Lemma emptyInItems_frame (p : string) (l : list json) :
  forall i r, emptyInItems p l i r = (r ++ emptyInItems p l i [])%list.
Proof.
  induction l as [|x l IH]; intros i r; simpl; [now rewrite app_nil_r|].
  rewrite IH, (IH _ (findEmptyStrings x _ [])), (findEmptyStrings_frame x _ r).
  now rewrite app_assoc.
Qed.

Lemma emptyInFields_frame (p : string) (l : list (string * json)) :
  forall r, emptyInFields p l r = (r ++ emptyInFields p l [])%list.
Proof.
  induction l as [|[k v] l IH]; intros r; simpl; [now rewrite app_nil_r|].
  rewrite IH, (IH (findEmptyStrings v _ [])), (findEmptyStrings_frame v _ r).
  now rewrite app_assoc.
Qed.

Lemma emptyInItems_In (p q : string) (l : list json) :
  Forall (fun x => forall p', In q (findEmptyStrings x p' []) <-> StringAt x p' q EmptyString) l ->
  forall i,
    In q (emptyInItems p l i [])
    <-> exists j x, nth_error l j = Some x
                    /\ StringAt x (p ++ "[" ++ dec (i + j) ++ "]") q EmptyString.
Proof.
  induction 1 as [|x l Hx Hl IH]; intros i; simpl.
  - split; [tauto|]. intros [[|j] [x [H _]]]; discriminate.
  - rewrite emptyInItems_frame, in_app_iff, Hx, IH. split.
    + intros [H|[j [y [Hj Hy]]]].
      * exists 0, x. now rewrite Nat.add_0_r.
      * exists (S j), y. now rewrite Nat.add_succ_r.
    + intros [[|j] [y [Hj Hy]]]; simpl in Hj.
      * injection Hj as <-. left. now rewrite Nat.add_0_r in Hy.
      * right. exists j, y. now rewrite Nat.add_succ_r in Hy.
Qed.

Lemma emptyInFields_In (p q : string) (l : list (string * json)) :
  Forall (fun kv => forall p', In q (findEmptyStrings (snd kv) p' [])
                               <-> StringAt (snd kv) p' q EmptyString) l ->
  In q (emptyInFields p l [])
  <-> exists n k v, nth_error l n = Some (k, v)
                    /\ StringAt v (p ++ "." ++ k) q EmptyString.
Proof.
  induction 1 as [|[k v] l Hx Hl IH]; simpl.
  - split; [tauto|]. intros [[|n] [k [v [H _]]]]; discriminate.
  - simpl in Hx. rewrite emptyInFields_frame, in_app_iff, Hx, IH. split.
    + intros [H|[n [k' [v' [Hn Hv]]]]].
      * now exists 0, k, v.
      * now exists (S n), k', v'.
    + intros [[|n] [k' [v' [Hn Hv]]]]; simpl in Hn.
      * injection Hn as <- <-. now left.
      * right. now exists n, k', v'.
Qed.

Lemma findEmptyStrings_In (obj : json) :
  forall (p q : string),
    In q (findEmptyStrings obj p []) <-> StringAt obj p q EmptyString.
Proof.
  intros p q. revert p.
  induction obj as [| | |s|items IH|fields IH] using json_tree_ind; intros p.
  - simpl. split; [tauto | intros H; inversion H].
  - simpl. split; [tauto | intros H; inversion H].
  - simpl. split; [tauto | intros H; inversion H].
  - simpl. destruct (String.eqb_spec s EmptyString) as [->|Hs]; simpl.
    + split.
      * intros [<-|[]]. constructor.
      * intros H. inversion H. now left.
    + split; [tauto|]. intros H. inversion H. congruence.
  - rewrite findEmptyStrings_arr, (emptyInItems_In p q items IH 0). split.
    + intros [j [x [Hj Hx]]]. now apply (AtItem items j x).
    + intros H. inversion H; subst. now exists i, x.
  - rewrite findEmptyStrings_obj, (emptyInFields_In p q fields IH). split.
    + intros [n [k [v [Hn Hv]]]]. now apply (AtField fields n k v).
    + intros H. inversion H; subst. now exists n, k, v.
Qed.


(** ** What the forbidden-name scanner finds *)

Lemma findForbiddenNames_arr (items : list json) (p : string) (r : list ForbiddenMatch) :
  findForbiddenNames (JArr items) p r = forbiddenInItems p items 0 r.
Proof. reflexivity. Qed.

Lemma findForbiddenNames_obj (fields : list (string * json)) (p : string)
  (r : list ForbiddenMatch) :
  findForbiddenNames (JObj fields) p r = forbiddenInFields p fields r.
Proof. reflexivity. Qed.

Lemma forbiddenInItems_frame (p : string) (l : list json) :
  forall i r, forbiddenInItems p l i r = (r ++ forbiddenInItems p l i [])%list.
Proof.
  induction l as [|x l IH]; intros i r; simpl; [now rewrite app_nil_r|].
  rewrite IH, (IH _ (findForbiddenNames x _ [])), (findForbiddenNames_frame x _ r).
  now rewrite app_assoc.
Qed.

Lemma forbiddenInFields_frame (p : string) (l : list (string * json)) :
  forall r, forbiddenInFields p l r = (r ++ forbiddenInFields p l [])%list.
Proof.
  induction l as [|[k v] l IH]; intros r; simpl; [now rewrite app_nil_r|].
  rewrite IH, (IH (findForbiddenNames v _ [])), (findForbiddenNames_frame v _ r).
  now rewrite app_assoc.
Qed.

Lemma forbiddenInItems_In (p : string) (m : ForbiddenMatch) (l : list json) :
  Forall (fun x => forall p', In m (findForbiddenNames x p' []) <-> FoundAt x p' m) l ->
  forall i,
    In m (forbiddenInItems p l i [])
    <-> exists j x, nth_error l j = Some x
                    /\ FoundAt x (p ++ "[" ++ dec (i + j) ++ "]") m.
Proof.
  induction 1 as [|x l Hx Hl IH]; intros i; simpl.
  - split; [tauto|]. intros [[|j] [x [H _]]]; discriminate.
  - rewrite forbiddenInItems_frame, in_app_iff, Hx, IH. split.
    + intros [H|[j [y [Hj Hy]]]].
      * exists 0, x. now rewrite Nat.add_0_r.
      * exists (S j), y. now rewrite Nat.add_succ_r.
    + intros [[|j] [y [Hj Hy]]]; simpl in Hj.
      * injection Hj as <-. left. now rewrite Nat.add_0_r in Hy.
      * right. exists j, y. now rewrite Nat.add_succ_r in Hy.
Qed.

Lemma forbiddenInFields_In (p : string) (m : ForbiddenMatch) (l : list (string * json)) :
  Forall (fun kv => forall p', In m (findForbiddenNames (snd kv) p' [])
                               <-> FoundAt (snd kv) p' m) l ->
  In m (forbiddenInFields p l [])
  <-> exists n k v, nth_error l n = Some (k, v) /\ FoundAt v (p ++ "." ++ k) m.
Proof.
  induction 1 as [|[k v] l Hx Hl IH]; simpl.
  - split; [tauto|]. intros [[|n] [k [v [H _]]]]; discriminate.
  - simpl in Hx. rewrite forbiddenInFields_frame, in_app_iff, Hx, IH. split.
    + intros [H|[n [k' [v' [Hn Hv]]]]].
      * now exists 0, k, v.
      * now exists (S n), k', v'.
    + intros [[|n] [k' [v' [Hn Hv]]]]; simpl in Hn.
      * injection Hn as <- <-. now left.
      * right. now exists n, k', v'.
Qed.


(** ** Further properties of the validators *)

(** X3: a card whose key is the name of a property of [Object.prototype] is
    reported as a duplicate although no other card has that key: the
    object [seen] finds the inherited property. *)
Theorem checkFlashcards_flags_prototype_names :
  forall (prefix filePath : string) (c : json) (st : State),
    c <> JNull ->
    isEmptyStr (cardKey c) = false ->
    inb (show (cardKey c)) objectPrototypeNames = true ->
    checkFlashcardsDuplicates prefix filePath [c] st
    = Some (tt, pushIssues st [duplicateIssue prefix filePath (cardKey c)]).
Proof.
  intros prefix filePath c st Hc He Hp.
  rewrite checkFlashcardsDuplicates_push by (repeat constructor; exact Hc).
  unfold duplicateKeys. cbn [map filter]. rewrite He. cbn [negb flagged].
  unfold seenHas. rewrite Hp, orb_true_r. reflexivity.
Qed.



(** A file that cannot be read or parsed gets one [parse] issue with the
    message of the exception; it is not counted and nothing else is
    checked. *)
Theorem auditUnit_parse_failure :
  forall (rel message : string) (st : State),
    auditUnit rel (ParseError message) st
    = Some (tt, pushIssues st [mkIssue rel "parse" ("Failed to parse JSON: " ++ message)]).
Proof. reflexivity. Qed.

(** X6: a unit file whose JSON is [null] makes [auditUnit] throw, and the
    exception ends the whole run: no verdict is printed. *)
Theorem runAudit_null_document_throws :
  forall (rel : string) (st : State) (before after : list (UnitPath * ParseResult))
         (f : UnitPath) (tsRefs : list Ref),
    auditUnit rel (Parsed JNull) st = None
    /\ ((exists st', forOf (fun u => auditUnit (relPath (fst u)) (snd u)) before
                          initialState = Some (tt, st')) ->
        runAudit (before ++ (f, Parsed JNull) :: after) tsRefs = None).
Proof.
  intros rel st before after f tsRefs. split; [reflexivity|].
  intros [st' Hb]. unfold runAudit.
  assert (forall l s s',
             forOf (fun u => auditUnit (relPath (fst u)) (snd u)) l s = Some (tt, s') ->
             forOf (fun u => auditUnit (relPath (fst u)) (snd u))
                   (l ++ (f, Parsed JNull) :: after) s = None) as Hgen.
  { induction l as [|u l IH]; intros s s' Hl.
    - reflexivity.
    - simpl app. rewrite forOf_cons in *. unfold bind in *.
      destruct (auditUnit (relPath (fst u)) (snd u) s) as [[[] s1]|]; [|discriminate].
      now apply (IH s1 s'). }
  now rewrite (Hgen before initialState st' Hb).
Qed.

(** ** Keys of discovered files *)

Lemma prefix_json_digit (c : ascii) (s : string) :
  isDigit c = true -> prefix ".json" (String c s) = false.
Proof.
  intros H.
  change (prefix ".json" (String c s))
    with (if ascii_dec "." c then prefix "json" s else false).
  destruct (ascii_dec "." c) as [<-|_]; [discriminate | reflexivity].
Qed.

Lemma replace_json_after_digits (ns : string) :
  allDigits ns = true -> replace (ns ++ ".json") ".json" EmptyString = ns.
Proof.
  induction ns as [|c ns IH]; intros H; [reflexivity|].
  simpl in H. apply andb_true_iff in H as [Hc Hns].
  cbn [append replace]. rewrite (prefix_json_digit _ _ Hc). f_equal. now apply IH.
Qed.

Lemma replace_unit_json (ns : string) :
  allDigits ns = true ->
  replace ("unit" ++ ns ++ ".json") ".json" EmptyString = "unit" ++ ns.
Proof.
  intros H. cbn. do 4 f_equal. now apply replace_json_after_digits.
Qed.

Lemma slashFree_append (a b : string) :
  slashFree a = true -> slashFree b = true -> slashFree (a ++ b) = true.
Proof.
  induction a as [|c a IH]; simpl; intros Ha Hb; [assumption|].
  apply andb_true_iff in Ha as [Hc Ha]. rewrite Hc. now apply IH.
Qed.

(** X7: for a file [unit<digits>.json] in a chapter directory, as
    [discoverUnitFiles] keeps them, the key is the directory name, a
    slash and [unit<digits>]; it equals the key of a manifest entry
    exactly when the directory is [ch] followed by the decimal chapter
    number and the unit names are the same. *)
Theorem actualKey_matches_refKey :
  forall (ch ns : string) (n : nat) (u : string),
    allDigits ns = true ->
    slashFree ch = true ->
    actualKey (mkUnitPath ch ("unit" ++ ns ++ ".json")) = ch ++ "/" ++ "unit" ++ ns
    /\ (refKey (mkRef n u) = actualKey (mkUnitPath ch ("unit" ++ ns ++ ".json"))
        <-> ch = "ch" ++ dec n /\ u = "unit" ++ ns).
Proof.
  intros ch ns n u Hns Hch.
  assert (actualKey (mkUnitPath ch ("unit" ++ ns ++ ".json")) = ch ++ "/" ++ "unit" ++ ns)
    as Hkey.
  { unfold actualKey. cbn [chapterDir unitFileName].
    now rewrite replace_unit_json. }
  split; [exact Hkey|]. rewrite Hkey. unfold refKey. cbn [chapterId unitId]. split.
  - intros H.
    change ("ch" ++ dec n ++ "/" ++ u) with (("ch" ++ dec n) ++ "/" ++ u) in H.
    apply split_at_slash in H as [H1 H2]; [now split | | exact Hch].
    apply (slashFree_append "ch"); [reflexivity | apply string_of_uint_slashFree].
  - intros [-> ->]. reflexivity.
Qed.

(** ** What the audit does to the state, on any document *)

Lemma Eff_ret {A} (P : Issue -> Prop) (a : A) : Eff P 0 0 (ret a).
Proof.
  intros st b st' H. injection H as <- <-. exists [].
  now rewrite app_nil_r, !Nat.add_0_r.
Qed.

Lemma Eff_bind {A B} (P : Issue -> Prop) (u1 s1 u2 s2 : nat) (m : M A) (k : A -> M B) :
  Eff P u1 s1 m -> (forall a, Eff P u2 s2 (k a)) -> Eff P (u1 + u2) (s1 + s2) (bind m k).
Proof.
  intros Hm Hk st b st' H. unfold bind in H.
  destruct (m st) as [[a st1]|] eqn:E; [|discriminate].
  destruct (Hm _ _ _ E) as [l1 [Hi1 [Hp1 [Hu1 Hs1]]]].
  destruct (Hk a _ _ _ H) as [l2 [Hi2 [Hp2 [Hu2 Hs2]]]].
  exists (l1 ++ l2)%list. rewrite Hi2, Hi1, Hu2, Hu1, Hs2, Hs1, app_assoc.
  repeat split; try lia. now apply Forall_app.
Qed.

Lemma Eff_bind0 {A B} (P : Issue -> Prop) (m : M A) (k : A -> M B) :
  Eff P 0 0 m -> (forall a, Eff P 0 0 (k a)) -> Eff P 0 0 (bind m k).
Proof. intros Hm Hk. exact (Eff_bind P 0 0 0 0 m k Hm Hk). Qed.

Lemma Eff_bind_r {A B} (P : Issue -> Prop) (u s : nat) (m : M A) (k : A -> M B) :
  Eff P u s m -> (forall a, Eff P 0 0 (k a)) -> Eff P u s (bind m k).
Proof.
  intros Hm Hk. pose proof (Eff_bind P u s 0 0 m k Hm Hk) as H.
  now rewrite !Nat.add_0_r in H.
Qed.

Lemma Eff_get (P : Issue -> Prop) (v : json) (k : string) : Eff P 0 0 (get v k).
Proof.
  unfold get. destruct (getProp v k); [apply Eff_ret|].
  intros st a st' H. discriminate.
Qed.

Lemma Eff_addIssue (P : Issue -> Prop) (f s p : string) :
  P (mkIssue f s p) -> Eff P 0 0 (addIssue f s p).
Proof.
  intros HP st a st' H. injection H as <- <-. exists [mkIssue f s p].
  simpl. rewrite !Nat.add_0_r. repeat split. now constructor.
Qed.

Lemma Eff_weaken {A} (P Q : Issue -> Prop) (u s : nat) (m : M A) :
  (forall x, P x -> Q x) -> Eff P u s m -> Eff Q u s m.
Proof.
  intros HPQ Hm st a st' H. destruct (Hm _ _ _ H) as [l [Hi [Hp Hc]]].
  exists l. repeat split; try tauto. eapply Forall_impl; eauto.
Qed.

Lemma Eff_forOf {A} (P : Issue -> Prop) (f : A -> M unit) (l : list A) :
  (forall x, Eff P 0 0 (f x)) -> Eff P 0 0 (forOf f l).
Proof.
  intros Hf. induction l as [|x l IH]; [apply Eff_ret|].
  rewrite forOf_cons. apply Eff_bind0; [apply Hf | intros _; exact IH].
Qed.

Lemma Eff_forEach {A} (P : Issue -> Prop) (f : A -> nat -> M unit) (l : list A) :
  (forall x i, Eff P 0 0 (f x i)) -> Eff P 0 0 (forEach f l).
Proof.
  intros Hf. unfold forEach.
  match goal with
  | |- Eff P 0 0 (?go 0 l) => assert (forall i, Eff P 0 0 (go i l)) as H; [|apply H]
  end.
  induction l as [|x l IH]; intros i; [apply Eff_ret|].
  apply Eff_bind0; [apply Hf | intros _; apply IH].
Qed.

Lemma Eff_mapM {A B} (P : Issue -> Prop) (f : A -> M B) (l : list A) :
  (forall x, Eff P 0 0 (f x)) -> Eff P 0 0 (mapM f l).
Proof.
  intros Hf. induction l as [|x l IH]; [apply Eff_ret|].
  simpl. apply Eff_bind0; [apply Hf | intros y].
  apply Eff_bind0; [exact IH | intros ys; apply Eff_ret].
Qed.

(** One step of the routine proofs that a validator only pushes issues of
    its own file and category. *)
Ltac eff_step :=
  first
    [ progress cbv zeta
    | apply Eff_ret
    | apply Eff_get
    | apply Eff_addIssue; simpl; tauto
    | apply Eff_bind0; [|intros ?]
    | apply Eff_forOf; intros ?
    | apply Eff_forEach; intros ? ?
    | apply Eff_mapM; intros ?
    | match goal with
      | |- Eff _ _ _ (if ?b then _ else _) => destruct b
      end ].

Ltac eff := repeat eff_step.

Lemma Eff_checkVocab (section : json) (filePath : string) (idx : nat) :
  Eff (ownIssue filePath "vocab") 0 0 (checkVocab section filePath idx).
Proof. unfold checkVocab, checkVocabItem, ownIssue. eff. Qed.

Lemma Eff_checkDialogue (section : json) (filePath : string) (idx : nat) :
  Eff (ownIssue filePath "dialogue") 0 0 (checkDialogue section filePath idx).
Proof. unfold checkDialogue, checkDialogueLine, ownIssue. eff. Qed.

Lemma Eff_checkGrammar (section : json) (filePath : string) (idx : nat) :
  Eff (ownIssue filePath "grammar") 0 0 (checkGrammar section filePath idx).
Proof. unfold checkGrammar, checkGrammarPoint, ownIssue. eff. Qed.

Lemma Eff_duplicateLoop (prefix filePath : string) (fronts : list jsval) :
  forall seen, Eff (ownIssue filePath "flashcards") 0 0
                   (duplicateLoop prefix filePath fronts seen).
Proof.
  unfold ownIssue. induction fronts as [|f rest IH]; intros seen; simpl; [apply Eff_ret|].
  apply Eff_bind0; [eff | intros _; apply IH].
Qed.

Lemma Eff_checkFlashcards (section : json) (filePath : string) (idx : nat) :
  Eff (ownIssue filePath "flashcards") 0 0 (checkFlashcards section filePath idx).
Proof.
  unfold checkFlashcards, checkFlashcardsCard, checkFlashcardsDuplicates, cardFront.
  pose proof Eff_duplicateLoop as Hd. unfold ownIssue in *. eff. apply Hd.
Qed.

Lemma Eff_checkQuiz (section : json) (filePath : string) (idx : nat) :
  Eff (ownIssue filePath "quiz") 0 0 (checkQuiz section filePath idx).
Proof.
  unfold checkQuiz, checkQuizItem, checkQuizQuestion, checkQuizOptions,
    checkQuizCorrect, checkQuizExplanation, ownIssue.
  eff.
Qed.

Lemma Eff_checkCulture (section : json) (filePath : string) (idx : nat) :
  Eff (ownIssue filePath "culture") 0 0 (checkCulture section filePath idx).
Proof. unfold checkCulture, ownIssue. eff. Qed.

Lemma ownIssue_auditIssue (rel kind : string) (x : Issue) :
  In kind auditCategories -> ownIssue rel kind x -> auditIssue rel x.
Proof. intros Hk [Hf Hs]. split; [exact Hf | now rewrite Hs]. Qed.

Lemma Eff_bind_get {B} (P : Issue -> Prop) (u s : nat) (v : json) (k : string)
  (f : jsval -> M B) :
  (v <> JNull -> Eff P u s (f (field v k))) -> Eff P u s (bind (get v k) f).
Proof.
  intros Hf st b st' H. unfold bind, get in H.
  destruct v; simpl in H; try discriminate;
    (eapply Hf; [discriminate | exact H]).
Qed.

Lemma Eff_dispatchSection (rel : string) (section : json) (idx : nat) (sType : jsval) :
  Eff (auditIssue rel) 0 0 (dispatchSection rel section idx sType).
Proof.
  unfold dispatchSection.
  destruct sType as [[| | |s| |]|];
    try (apply Eff_addIssue; split; simpl; tauto).
  repeat match goal with
         | |- Eff _ _ _ (if ?b then _ else _) => destruct b
         end;
    try (apply Eff_addIssue; split; simpl; tauto).
  - eapply Eff_weaken; [|apply Eff_checkVocab].
    intros x. apply ownIssue_auditIssue. simpl. tauto.
  - eapply Eff_weaken; [|apply Eff_checkDialogue].
    intros x. apply ownIssue_auditIssue. simpl. tauto.
  - eapply Eff_weaken; [|apply Eff_checkGrammar].
    intros x. apply ownIssue_auditIssue. simpl. tauto.
  - eapply Eff_weaken; [|apply Eff_checkFlashcards].
    intros x. apply ownIssue_auditIssue. simpl. tauto.
  - eapply Eff_weaken; [|apply Eff_checkQuiz].
    intros x. apply ownIssue_auditIssue. simpl. tauto.
  - eapply Eff_weaken; [|apply Eff_checkCulture].
    intros x. apply ownIssue_auditIssue. simpl. tauto.
Qed.

Lemma Eff_incrSections (P : Issue -> Prop) : Eff P 0 1 incrSections.
Proof.
  intros st a st' H. injection H as <- <-. exists []. simpl.
  rewrite app_nil_r. repeat split; try lia. constructor.
Qed.

Lemma Eff_incrUnits (P : Issue -> Prop) : Eff P 1 0 incrUnits.
Proof.
  intros st a st' H. injection H as <- <-. exists []. simpl.
  rewrite app_nil_r. repeat split; try lia. constructor.
Qed.

Lemma Eff_auditSection (rel : string) (section : json) (idx : nat)
  (sectionTypes : list jsval) :
  Eff (auditIssue rel) 0 1 (auditSection rel section idx sectionTypes).
Proof.
  unfold auditSection.
  apply (Eff_bind _ 0 1 0 0); [apply Eff_incrSections | intros _].
  apply Eff_bind0; [apply Eff_get | intros sType]. cbv zeta.
  destruct (negb (truthy sType)).
  - apply Eff_bind0; [|intros _; apply Eff_ret].
    apply Eff_addIssue. split; simpl; tauto.
  - apply Eff_bind0; [apply Eff_dispatchSection | intros _; apply Eff_ret].
Qed.

Lemma Eff_auditSections (rel : string) (sections : list json) :
  forall idx sectionTypes,
    Eff (auditIssue rel) 0 (length sections) (auditSections rel sections idx sectionTypes).
Proof.
  induction sections as [|x l IH]; intros idx sectionTypes; simpl; [apply Eff_ret|].
  apply (Eff_bind _ 0 1 0 (length l)); [apply Eff_auditSection | intros t; apply IH].
Qed.

Lemma not_array_elements (v : jsval) :
  negb (truthy v) || negb (isArray v) = true -> elements v = [].
Proof. destruct v as [[]|]; simpl; try reflexivity. discriminate. Qed.

Lemma Eff_auditUnit (rel : string) (data : json) :
  Eff (auditIssue rel) 1 (sectionCount data) (auditUnit rel (Parsed data)).
Proof.
  unfold auditUnit, sectionCount.
  apply (Eff_bind _ 1 0 0 _); [apply Eff_incrUnits | intros _].
  apply (Eff_bind _ 0 0 0 _).
  { unfold checkGeneralFields. eff.
    all: try (apply Eff_addIssue; split; simpl; tauto). }
  intros _. apply Eff_bind_get. intros Hd.
  destruct (negb (truthy (field data "sections"))
            || negb (isArray (field data "sections"))) eqn:C.
  { rewrite (not_array_elements _ C). apply Eff_addIssue. split; simpl; tauto. }
  apply orb_false_iff in C as [_ C]. apply negb_false_iff in C.
  destruct (field data "sections") as [[| | | |l|]|] eqn:E; try discriminate.
  cbn [elements].
  destruct l as [|x l].
  - apply Eff_addIssue. split; simpl; tauto.
  - cbn [length Nat.eqb].
    apply Eff_bind_r; [apply (Eff_auditSections rel (x :: l)) | intros types].
    unfold checkRequiredSections, reportForbiddenNames, reportEmptyStrings. eff.
    all: try (apply Eff_addIssue; split; simpl; tauto).
Qed.

(** ** When the audit completes *)

Lemma Runs_ret {A} (a : A) : Runs (ret a).
Proof. intros st. now exists a, st. Qed.

Lemma Runs_addIssue (f s p : string) : Runs (addIssue f s p).
Proof. intros st. eexists. eexists. reflexivity. Qed.

Lemma Runs_bind {A B} (m : M A) (k : A -> M B) :
  Runs m -> (forall a, Runs (k a)) -> Runs (bind m k).
Proof.
  intros Hm Hk st. destruct (Hm st) as [a [st1 E]]. unfold bind. rewrite E. apply Hk.
Qed.

Lemma Runs_bind_get {B} (v : json) (k : string) (f : jsval -> M B) :
  v <> JNull -> Runs (f (field v k)) -> Runs (bind (get v k) f).
Proof.
  intros Hv Hf st. unfold bind. rewrite (get_nonnull _ _ _ Hv). apply Hf.
Qed.

Lemma Runs_forOf {A} (f : A -> M unit) (l : list A) :
  (forall x, In x l -> Runs (f x)) -> Runs (forOf f l).
Proof.
  induction l as [|x l IH]; intros H; [apply Runs_ret|].
  rewrite forOf_cons. apply Runs_bind; [apply H; now left | intros _].
  apply IH. intros y Hy. apply H. now right.
Qed.

Lemma Runs_forEach {A} (f : A -> nat -> M unit) (l : list A) :
  (forall x i, In x l -> Runs (f x i)) -> Runs (forEach f l).
Proof.
  unfold forEach.
  match goal with
  | |- _ -> Runs (?go 0 l) =>
      assert (forall i, (forall x j, In x l -> Runs (f x j)) -> Runs (go i l)) as H;
      [|apply H]
  end.
  induction l as [|x l IH]; intros i H; [apply Runs_ret|].
  apply Runs_bind; [apply H; now left | intros _].
  apply IH. intros y j Hy. apply H. now right.
Qed.

Lemma Runs_mapM {A B} (f : A -> M B) (l : list A) :
  (forall x, In x l -> Runs (f x)) -> Runs (mapM f l).
Proof.
  induction l as [|x l IH]; intros H; [apply Runs_ret|].
  simpl. apply Runs_bind; [apply H; now left | intros y].
  apply Runs_bind; [|intros ys; apply Runs_ret].
  apply IH. intros z Hz. apply H. now right.
Qed.

Lemma Runs_duplicateLoop (prefix filePath : string) (fronts : list jsval) :
  forall seen, Runs (duplicateLoop prefix filePath fronts seen).
Proof.
  induction fronts as [|f rest IH]; intros seen; simpl; [apply Runs_ret|].
  apply Runs_bind; [|intros _; apply IH].
  destruct (seenHas seen f); [apply Runs_addIssue | apply Runs_ret].
Qed.

(** One step of the routine proofs that a validator returns on a value
    that is not [null]. *)
Ltac runs_step :=
  first
    [ progress cbv zeta
    | apply Runs_ret
    | apply Runs_addIssue
    | apply Runs_bind_get; [assumption|]
    | apply Runs_forOf; intros ? _
    | apply Runs_duplicateLoop
    | match goal with
      | |- Runs (if ?b then _ else _) => destruct b
      end
    | apply Runs_bind; [|intros ?] ].

Ltac runs := repeat runs_step.

Lemma Runs_incrSections : Runs incrSections.
Proof. intros st. eexists. eexists. reflexivity. Qed.

Lemma Runs_incrUnits : Runs incrUnits.
Proof. intros st. eexists. eexists. reflexivity. Qed.

Lemma Runs_checkGeneralFields (rel : string) (data : json) :
  data <> JNull -> Runs (checkGeneralFields rel data).
Proof. intros Hd. unfold checkGeneralFields. runs. Qed.

Lemma Runs_checkRequiredSections (rel : string) (types : list jsval) :
  Runs (checkRequiredSections rel types).
Proof. unfold checkRequiredSections. runs. Qed.

Lemma Runs_reportForbiddenNames (rel : string) (data : json) :
  Runs (reportForbiddenNames rel data).
Proof. unfold reportForbiddenNames. runs. Qed.

Lemma Runs_reportEmptyStrings (rel : string) (data : json) :
  Runs (reportEmptyStrings rel data).
Proof. unfold reportEmptyStrings. runs. Qed.

(** A computation that throws makes the sequence throw. *)
Lemma bind_None {A B} (m : M A) (k : A -> M B) (st : State) :
  (forall a st', k a st' = None) -> bind m k st = None.
Proof. intros H. unfold bind. destruct (m st) as [[a st']|]; [apply H | reflexivity]. Qed.

Lemma bind_None_l {A B} (m : M A) (k : A -> M B) (st : State) :
  m st = None -> bind m k st = None.
Proof. intros H. unfold bind. now rewrite H. Qed.

(** X8: whenever the audit of a parsed document returns, the issues
    recorded before are kept, in order, and those it adds all carry the
    path of the audited file and one of the ten categories a parsed
    document can get; the count of units has grown by one and the count of
    sections by the length of [data.sections] (by nothing when that is not
    an array). *)
Theorem auditUnit_appends_own_issues (rel : string) (data : json) (st st' : State) :
  auditUnit rel (Parsed data) st = Some (tt, st') ->
  exists added,
    issues st' = (issues st ++ added)%list
    /\ Forall (fun x => file x = rel /\ In (sectionType x) auditCategories) added
    /\ totalUnitsChecked st' = S (totalUnitsChecked st)
    /\ totalSectionsChecked st' = totalSectionsChecked st + sectionCount data.
Proof.
  intros H. destruct (Eff_auditUnit rel data st tt st' H) as [l [Hi [Hall [Hu Hs]]]].
  exists l. repeat split; try assumption.
  rewrite Hu. lia.
Qed.

(** ** The audit reads nothing of the state *)

Lemma addState_initial_r (st : State) : addState st initialState = st.
Proof.
  destruct st as [i u s]. unfold addState. simpl.
  now rewrite app_nil_r, !Nat.add_0_r.
Qed.

Lemma addState_initial_l (d : State) : addState initialState d = d.
Proof. now destruct d. Qed.

Lemma addState_assoc (st d e : State) :
  addState (addState st d) e = addState st (addState d e).
Proof.
  unfold addState. simpl. now rewrite <- app_assoc, !Nat.add_assoc.
Qed.

Lemma Local_ret {A} (a : A) : Local (ret a).
Proof. intros st. unfold ret. simpl. now rewrite addState_initial_r. Qed.

Lemma Local_bind {A B} (m : M A) (k : A -> M B) :
  Local m -> (forall a, Local (k a)) -> Local (bind m k).
Proof.
  intros Hm Hk st. unfold bind. rewrite (Hm st).
  destruct (m initialState) as [[a d]|]; [|reflexivity].
  rewrite (Hk a (addState st d)), (Hk a d).
  destruct (k a initialState) as [[b e]|]; [|reflexivity].
  now rewrite addState_assoc.
Qed.

Lemma Local_get (v : json) (k : string) : Local (get v k).
Proof.
  intros st. unfold get, liftOpt. destruct (getProp v k); [|reflexivity].
  unfold ret. cbv beta iota. now rewrite addState_initial_r.
Qed.

Lemma Local_addIssue (f s p : string) : Local (addIssue f s p).
Proof.
  intros st. unfold addIssue, addState. simpl. now rewrite !Nat.add_0_r.
Qed.

Lemma Local_incrUnits : Local incrUnits.
Proof.
  intros st. unfold incrUnits, addState. simpl. now rewrite app_nil_r, Nat.add_0_r, Nat.add_1_r.
Qed.

Lemma Local_incrSections : Local incrSections.
Proof.
  intros st. unfold incrSections, addState. simpl.
  now rewrite app_nil_r, Nat.add_0_r, Nat.add_1_r.
Qed.

Lemma Local_forOf {A} (f : A -> M unit) (l : list A) :
  (forall x, Local (f x)) -> Local (forOf f l).
Proof.
  intros H. induction l as [|x l IH]; [apply Local_ret|].
  rewrite forOf_cons. apply Local_bind; [apply H | intros _; exact IH].
Qed.

Lemma Local_forEach {A} (f : A -> nat -> M unit) (l : list A) :
  (forall x i, Local (f x i)) -> Local (forEach f l).
Proof.
  intros H. unfold forEach.
  match goal with
  | |- Local (?go 0 l) => assert (forall i, Local (go i l)) as Hgo; [|apply Hgo]
  end.
  induction l as [|x l IH]; intros i; [apply Local_ret|].
  apply Local_bind; [apply H | intros _; apply IH].
Qed.

Lemma Local_mapM {A B} (f : A -> M B) (l : list A) :
  (forall x, Local (f x)) -> Local (mapM f l).
Proof.
  intros H. induction l as [|x l IH]; [apply Local_ret|].
  simpl. apply Local_bind; [apply H | intros y].
  apply Local_bind; [exact IH | intros ys; apply Local_ret].
Qed.

Lemma Local_duplicateLoop (prefix filePath : string) (fronts : list jsval) :
  forall seen, Local (duplicateLoop prefix filePath fronts seen).
Proof.
  induction fronts as [|f rest IH]; intros seen; simpl; [apply Local_ret|].
  apply Local_bind; [|intros _; apply IH].
  destruct (seenHas seen f); [apply Local_addIssue | apply Local_ret].
Qed.

(** One step of the routine proofs that a check reads nothing of the
    state. *)
Ltac local_step :=
  first
    [ progress cbv zeta
    | apply Local_ret
    | apply Local_get
    | apply Local_addIssue
    | apply Local_incrUnits
    | apply Local_incrSections
    | apply Local_duplicateLoop
    | apply Local_forOf; intros ?
    | apply Local_forEach; intros ? ?
    | apply Local_mapM; intros ?
    | match goal with
      | |- Local (if ?b then _ else _) => destruct b
      | |- Local (match ?x with _ => _ end) => destruct x
      end
    | apply Local_bind; [|intros ?] ].

Ltac local := repeat local_step.

Lemma Local_dispatchSection (rel : string) (section : json) (idx : nat) (sType : jsval) :
  Local (dispatchSection rel section idx sType).
Proof.
  unfold dispatchSection.
  destruct sType as [[| | |s| |]|]; try apply Local_addIssue.
  repeat match goal with
         | |- Local (if ?b then _ else _) => destruct b
         end; try apply Local_addIssue.
  - unfold checkVocab, checkVocabItem. local.
  - unfold checkDialogue, checkDialogueLine. local.
  - unfold checkGrammar, checkGrammarPoint. local.
  - unfold checkFlashcards, checkFlashcardsCard, checkFlashcardsDuplicates, cardFront. local.
  - unfold checkQuiz, checkQuizItem, checkQuizQuestion, checkQuizOptions, checkQuizCorrect,
      checkQuizExplanation. local.
  - unfold checkCulture. local.
Qed.

Lemma Local_auditSections (rel : string) (sections : list json) :
  forall idx types, Local (auditSections rel sections idx types).
Proof.
  induction sections as [|x l IH]; intros idx types; simpl; [apply Local_ret|].
  apply Local_bind; [|intros types'; apply IH].
  unfold auditSection.
  apply Local_bind; [apply Local_incrSections | intros _].
  apply Local_bind; [apply Local_get | intros sType]. cbv zeta.
  destruct (negb (truthy sType)).
  - apply Local_bind; [apply Local_addIssue | intros _; apply Local_ret].
  - apply Local_bind; [apply Local_dispatchSection | intros _; apply Local_ret].
Qed.

Lemma Local_auditUnit (rel : string) (raw : ParseResult) : Local (auditUnit rel raw).
Proof.
  unfold auditUnit. destruct raw as [message|data]; [apply Local_addIssue|].
  apply Local_bind; [apply Local_incrUnits | intros _].
  apply Local_bind; [unfold checkGeneralFields; local | intros _].
  apply Local_bind; [apply Local_get | intros sections].
  destruct (negb (truthy sections) || negb (isArray sections)); [apply Local_addIssue|].
  destruct (Nat.eqb (length (elements sections)) 0); [apply Local_addIssue|].
  apply Local_bind; [apply Local_auditSections | intros types].
  unfold checkRequiredSections, reportForbiddenNames, reportEmptyStrings. local.
Qed.

Lemma auditUnit_alone_counts (rel : string) (raw : ParseResult) (a : unit) (d : State) :
  auditUnit rel raw initialState = Some (a, d) ->
  Forall (fun x => file x = rel) (issues d)
  /\ totalUnitsChecked d = (if isParsed raw then 1 else 0)
  /\ totalSectionsChecked d = parsedSections raw.
Proof.
  destruct raw as [message|data]; intros H.
  - injection H as _ <-. simpl. repeat split. repeat constructor.
  - destruct (Eff_auditUnit rel data _ _ _ H) as [l [Hi [Hall [Hu Hs]]]].
    simpl in Hi, Hu, Hs. rewrite Hi. repeat split; try assumption.
    eapply Forall_impl; [|exact Hall]. now intros x [Hx _].
Qed.

Lemma forOf_auditUnit (disk : list (UnitPath * ParseResult)) :
  forall st,
    match forOf (fun f => auditUnit (relPath (fst f)) (snd f)) disk st with
    | Some (_, st') =>
        issues st' = (issues st ++ flat_map unitIssues disk)%list
        /\ totalUnitsChecked st'
           = totalUnitsChecked st + length (filter (fun f => isParsed (snd f)) disk)
        /\ totalSectionsChecked st'
           = totalSectionsChecked st + list_sum (map (fun f => parsedSections (snd f)) disk)
        /\ forall f, In f disk ->
             auditUnit (relPath (fst f)) (snd f) initialState <> None
    | None =>
        exists f, In f disk /\ auditUnit (relPath (fst f)) (snd f) initialState = None
    end.
Proof.
  induction disk as [|f disk IH]; intros st.
  - simpl. rewrite app_nil_r, !Nat.add_0_r. repeat split. intros f [].
  - rewrite forOf_cons. unfold bind at 1.
    rewrite (Local_auditUnit (relPath (fst f)) (snd f) st).
    destruct (auditUnit (relPath (fst f)) (snd f) initialState) as [[a d]|] eqn:E.
    + destruct (auditUnit_alone_counts _ _ _ _ E) as [_ [Hu Hs]].
      specialize (IH (addState st d)).
      destruct (forOf _ disk (addState st d)) as [[b st']|].
      * destruct IH as [Hi [Hu' [Hs' Hall]]].
        cbn [flat_map filter map list_sum length]. unfold unitIssues at 1. rewrite E.
        rewrite Hi, Hu', Hs'. unfold addState. cbn [issues totalUnitsChecked totalSectionsChecked].
        rewrite Hu, Hs, <- app_assoc.
        repeat split.
        -- destruct (isParsed (snd f)); cbn [length]; lia.
        -- unfold list_sum. cbn [fold_right]. lia.
        -- intros g [<-|Hg]; [now rewrite E | now apply Hall].
      * destruct IH as [g [Hg Hn]]. exists g. split; [now right | exact Hn].
    + exists f. split; [now left | exact E].
Qed.

Lemma ownGroup_setGroup (k k' : string) (l : list Issue) (byFile : Groups) :
  ownGroup k (setGroup k' l byFile) = if k' =? k then Some l else ownGroup k byFile.
Proof.
  induction byFile as [|[k0 l0] rest IH]; simpl.
  - reflexivity.
  - destruct (k0 =? k') eqn:E0; simpl.
    + apply String.eqb_eq in E0. subst k0. destruct (k' =? k); reflexivity.
    + destruct (k0 =? k) eqn:E1.
      * apply String.eqb_eq in E1. subst k0. now rewrite String.eqb_sym, E0.
      * exact IH.
Qed.

Lemma groupOf_snoc (l : list Issue) (x : Issue) (g : list Issue) :
  groupOf l = Some g -> g = l.
Proof. destruct l; simpl; [discriminate | now intros [= <-]]. Qed.

Lemma groupByFile_issuesOf (todo : list Issue) :
  forall (done : list Issue) (byFile : Groups),
    Forall (fun x => inb (file x) objectPrototypeNames = false) todo ->
    (forall k, ownGroup k byFile = groupOf (issuesOf k done)) ->
    exists groups,
      groupByFile todo byFile = Some groups
      /\ forall k, ownGroup k groups = groupOf (issuesOf k (done ++ todo)).
Proof.
  induction todo as [|x rest IH]; intros done byFile Hok Hinv.
  - exists byFile. split; [reflexivity|]. now rewrite app_nil_r.
  - inversion Hok as [|? ? Hx Hrest]; subst. cbn [groupByFile].
    assert (forall l', (forall k, ownGroup k (setGroup (file x) l' byFile)
                                  = groupOf (issuesOf k (done ++ [x]))) ->
                       exists groups,
                         groupByFile rest (setGroup (file x) l' byFile) = Some groups
                         /\ forall k, ownGroup k groups
                                      = groupOf (issuesOf k (done ++ x :: rest))) as Hstep.
    { intros l' Hl'. destruct (IH (done ++ [x])%list _ Hrest Hl') as [groups [Hg Hk]].
      exists groups. split; [exact Hg|]. intros k. rewrite Hk, <- app_assoc. reflexivity. }
    pose proof (Hinv (file x)) as Hfx.
    destruct (ownGroup (file x) byFile) as [l|] eqn:E.
    + apply Hstep. intros k. rewrite ownGroup_setGroup.
      unfold issuesOf. rewrite filter_app. simpl.
      destruct (file x =? k) eqn:Ek.
      * apply String.eqb_eq in Ek. subst k. symmetry in Hfx.
        apply (groupOf_snoc _ x) in Hfx. unfold issuesOf in Hfx. rewrite <- Hfx.
        destruct l; reflexivity.
      * rewrite app_nil_r. apply Hinv.
    + rewrite Hx. apply Hstep. intros k. rewrite ownGroup_setGroup.
      unfold issuesOf. rewrite filter_app. simpl.
      destruct (file x =? k) eqn:Ek.
      * apply String.eqb_eq in Ek. subst k. unfold issuesOf in Hfx.
        destruct (filter (fun y => file y =? file x) done); [reflexivity | discriminate].
      * rewrite app_nil_r. apply Hinv.
Qed.

Lemma relPath_not_prototype (f : UnitPath) : inb (relPath f) objectPrototypeNames = false.
Proof. reflexivity. Qed.

Lemma unitIssues_file (f : UnitPath * ParseResult) :
  Forall (fun x => file x = relPath (fst f)) (unitIssues f).
Proof.
  unfold unitIssues.
  destruct (auditUnit (relPath (fst f)) (snd f) initialState) as [[a d]|] eqn:E;
    [|constructor].
  now destruct (auditUnit_alone_counts _ _ _ _ E).
Qed.

Lemma issuesOf_same (k : string) (l : list Issue) :
  Forall (fun x => file x = k) l -> issuesOf k l = l.
Proof.
  induction 1 as [|x l Hx _ IH]; [reflexivity|].
  unfold issuesOf in *. simpl. rewrite Hx, String.eqb_refl. now f_equal.
Qed.

Lemma issuesOf_other (k k' : string) (l : list Issue) :
  k' <> k -> Forall (fun x => file x = k') l -> issuesOf k l = [].
Proof.
  intros Hk. induction 1 as [|x l Hx _ IH]; [reflexivity|].
  unfold issuesOf in *. simpl. rewrite Hx.
  destruct (k' =? k) eqn:E; [apply String.eqb_eq in E; contradiction | exact IH].
Qed.

Lemma issuesOf_flat_map (disk : list (UnitPath * ParseResult)) (f : UnitPath * ParseResult) :
  NoDup (map (fun g => relPath (fst g)) disk) -> In f disk ->
  issuesOf (relPath (fst f)) (flat_map unitIssues disk) = unitIssues f.
Proof.
  induction disk as [|g disk IH]; intros Hnd Hin; [destruct Hin|].
  simpl in Hnd. inversion Hnd as [|? ? Hnotin Hnd']; subst.
  simpl. unfold issuesOf. rewrite filter_app. fold (issuesOf (relPath (fst f)) (unitIssues g)).
  fold (issuesOf (relPath (fst f)) (flat_map unitIssues disk)).
  destruct Hin as [->|Hin].
  - rewrite (issuesOf_same _ _ (unitIssues_file f)).
    assert (issuesOf (relPath (fst f)) (flat_map unitIssues disk) = []) as ->;
      [|apply app_nil_r].
    clear IH Hnd Hnd'. induction disk as [|h disk IH]; [reflexivity|].
    simpl. unfold issuesOf. rewrite filter_app.
    fold (issuesOf (relPath (fst f)) (unitIssues h)).
    fold (issuesOf (relPath (fst f)) (flat_map unitIssues disk)).
    rewrite IH by (intros H; apply Hnotin; now right).
    rewrite (issuesOf_other _ (relPath (fst h)) _); [reflexivity | | apply unitIssues_file].
    intros Heq. apply Hnotin. left. exact Heq.
  - rewrite (issuesOf_other _ (relPath (fst g)) _); [now apply IH | | apply unitIssues_file].
    intros Heq. apply Hnotin. rewrite Heq. now apply (in_map (fun g => relPath (fst g))).
Qed.


(** X11: in a run that completes on files with distinct paths, the
    grouping of the issues by file succeeds, and the group of a file holds
    exactly the issues the audit of that file alone records, in their
    order; a file without issue has no group, and every group is that of
    an audited file. *)
Theorem groupByFile_groups_file_audits (disk : list (UnitPath * ParseResult))
  (tsRefs : list Ref) (report : Report) :
  NoDup (map (fun f => relPath (fst f)) disk) ->
  runAudit disk tsRefs = Some report ->
  exists byFile,
    groupByFile (issues (finalState report)) [] = Some byFile
    /\ (forall f, In f disk -> ownGroup (relPath (fst f)) byFile = groupOf (unitIssues f))
    /\ (forall k l, ownGroup k byFile = Some l ->
          l <> [] /\ exists f, In f disk /\ k = relPath (fst f) /\ l = unitIssues f).
Proof.
  intros Hnd Hrun. unfold runAudit in Hrun.
  pose proof (forOf_auditUnit disk initialState) as H.
  destruct (forOf _ disk initialState) as [[a st']|]; [|discriminate].
  injection Hrun as <-. destruct H as [Hi _]. simpl in Hi. cbn [finalState]. rewrite Hi.
  assert (Forall (fun x => exists f, In f disk /\ file x = relPath (fst f))
            (flat_map unitIssues disk)) as Hfiles.
  { apply Forall_forall. intros x Hx. apply in_flat_map in Hx as [f [Hf Hx]].
    exists f. split; [exact Hf|].
    pose proof (unitIssues_file f) as Hall. rewrite Forall_forall in Hall. now apply Hall. }
  destruct (groupByFile_issuesOf (flat_map unitIssues disk) [] [])
    as [byFile [Hg Hk]].
  - eapply Forall_impl; [|exact Hfiles]. intros x [f [_ ->]]. apply relPath_not_prototype.
  - reflexivity.
  - exists byFile. split; [exact Hg|]. simpl in Hk. split.
    + intros f Hf. now rewrite Hk, issuesOf_flat_map.
    + intros k l Hl. rewrite Hk in Hl.
      destruct (issuesOf k (flat_map unitIssues disk)) as [|x r] eqn:E; [discriminate|].
      injection Hl as <-. split; [discriminate|].
      assert (In x (issuesOf k (flat_map unitIssues disk))) as Hx by (rewrite E; now left).
      apply filter_In in Hx as [Hx Hkx]. apply String.eqb_eq in Hkx.
      rewrite Forall_forall in Hfiles. destruct (Hfiles x Hx) as [f [Hf Hfx]].
      exists f. split; [exact Hf|]. split; [congruence|].
      rewrite <- E. replace k with (relPath (fst f)) by congruence.
      now apply issuesOf_flat_map.
Qed.

(** ** Discovery of the unit files *)

Lemma insertBy_perm (key : string -> nat) (x : string) (l : list string) :
  Permutation (insertBy key x l) (x :: l).
Proof.
  induction l as [|y l IH]; simpl; [reflexivity|].
  destruct (Nat.leb (key x) (key y)); [reflexivity|].
  rewrite IH. apply perm_swap.
Qed.

Lemma sortBy_perm (key : string -> nat) (l : list string) : Permutation (sortBy key l) l.
Proof.
  induction l as [|x l IH]; simpl; [reflexivity|].
  rewrite insertBy_perm. now constructor.
Qed.

Lemma insertBy_sorted (key : string -> nat) (x : string) (l : list string) :
  StronglySorted (fun a b => key a <= key b) l ->
  StronglySorted (fun a b => key a <= key b) (insertBy key x l).
Proof.
  induction 1 as [|y l Hl IH Hy]; simpl; [repeat constructor|].
  destruct (Nat.leb (key x) (key y)) eqn:E.
  - apply Nat.leb_le in E. constructor; [now constructor|].
    constructor; [exact E|]. eapply Forall_impl; [|exact Hy]. intros z Hz. simpl in Hz. lia.
  - apply Nat.leb_gt in E. constructor; [exact IH|].
    rewrite (insertBy_perm key x l). constructor; [lia | exact Hy].
Qed.

Lemma sortBy_sorted (key : string -> nat) (l : list string) :
  StronglySorted (fun a b => key a <= key b) (sortBy key l).
Proof.
  induction l as [|x l IH]; simpl; [constructor | now apply insertBy_sorted].
Qed.

Lemma sortBy_In (key : string -> nat) (l : list string) (x : string) :
  In x (sortBy key l) <-> In x l.
Proof.
  split; apply Permutation_in; [|symmetry]; apply sortBy_perm.
Qed.

Lemma sortBy_NoDup (key : string -> nat) (l : list string) :
  NoDup l -> NoDup (sortBy key l).
Proof. apply Permutation_NoDup. symmetry. apply sortBy_perm. Qed.

Lemma StronglySorted_app {A} (R : A -> A -> Prop) (l1 l2 : list A) :
  StronglySorted R l1 -> StronglySorted R l2 ->
  (forall a b, In a l1 -> In b l2 -> R a b) ->
  StronglySorted R (l1 ++ l2).
Proof.
  induction 1 as [|x l1 Hl1 IH Hx]; intros H2 H12; simpl; [exact H2|].
  constructor.
  - apply IH; [exact H2|]. intros a b Ha Hb. apply H12; [now right | exact Hb].
  - apply Forall_app. split; [exact Hx|].
    apply Forall_forall. intros b Hb. apply H12; [now left | exact Hb].
Qed.

Lemma StronglySorted_weaken {A} (R R' : A -> A -> Prop) (l : list A) :
  (forall a b, R a b -> R' a b) -> StronglySorted R l -> StronglySorted R' l.
Proof.
  intros H. induction 1 as [|x l Hl IH Hx]; constructor; [exact IH|].
  eapply Forall_impl; [|exact Hx]. intros y. apply H.
Qed.

Lemma StronglySorted_map {A B} (R : B -> B -> Prop) (f : A -> B) (l : list A) :
  StronglySorted (fun a b => R (f a) (f b)) l -> StronglySorted R (map f l).
Proof.
  induction 1 as [|x l Hl IH Hx]; simpl; constructor; [exact IH|].
  apply Forall_map. exact Hx.
Qed.

Lemma readChapters_None (readdirSync : string -> option (list string))
  (chapters : list string) :
  readChapters readdirSync chapters = None
  <-> exists ch, In ch chapters /\ readdirSync ch = None.
Proof.
  induction chapters as [|ch rest IH]; simpl.
  - split; [discriminate | intros [ch [[] _]]].
  - destruct (readdirSync ch) as [names|] eqn:E.
    + destruct (readChapters readdirSync rest) as [files|].
      * split; [discriminate|]. intros [c [[<-|Hc] Hn]]; [congruence|].
        assert (@None (list UnitPath) = None) as H by reflexivity.
        destruct IH as [_ IH]. discriminate IH. now exists c.
      * split; [|reflexivity]. intros _. destruct IH as [IH _].
        destruct (IH eq_refl) as [c [Hc Hn]]. exists c. split; [now right | exact Hn].
    + split; [|reflexivity]. intros _. exists ch. split; [now left | exact E].
Qed.

Lemma readChapters_In (readdirSync : string -> option (list string))
  (chapters : list string) :
  forall files, readChapters readdirSync chapters = Some files ->
    forall ch u, In (mkUnitPath ch u) files
                 <-> In ch chapters /\ isUnitFile u = true
                     /\ exists names, readdirSync ch = Some names /\ In u names.
Proof.
  induction chapters as [|c rest IH]; simpl; intros files H ch u.
  - injection H as <-. simpl. tauto.
  - destruct (readdirSync c) as [names|] eqn:E; [|discriminate].
    destruct (readChapters readdirSync rest) as [files'|]; [|discriminate].
    injection H as <-. rewrite in_app_iff, in_map_iff, (IH files' eq_refl ch u).
    split.
    + intros [[x [Hx Hin]]|[Hc [Hu Hn]]].
      * injection Hx as -> ->. apply sortBy_In, filter_In in Hin as [Hin Hu].
        split; [now left|]. split; [exact Hu|]. now exists names.
      * split; [now right|]. now split.
    + intros [[->|Hc] [Hu [names' [Hn Hin]]]].
      * left. exists u. split; [reflexivity|].
        apply sortBy_In, filter_In. split; [congruence | exact Hu].
      * right. split; [exact Hc|]. split; [exact Hu|]. now exists names'.
Qed.

Lemma readChapters_sorted (readdirSync : string -> option (list string))
  (chapters : list string) :
  StronglySorted (fun a b => chapterNumber a <= chapterNumber b) chapters ->
  NoDup chapters ->
  forall files, readChapters readdirSync chapters = Some files ->
    StronglySorted discoveryOrder files.
Proof.
  induction 1 as [|c rest Hrest IH Hc]; intros Hnd files H.
  - injection H as <-. constructor.
  - pose proof (readChapters_In readdirSync (c :: rest) files H) as Hin.
    simpl in H. inversion Hnd as [|? ? Hnotin Hnd']; subst.
    destruct (readdirSync c) as [names|] eqn:E; [|discriminate].
    destruct (readChapters readdirSync rest) as [files'|] eqn:E'; [|discriminate].
    injection H as <-.
    pose proof (readChapters_In readdirSync rest files' E') as Hin'.
    apply StronglySorted_app.
    + apply StronglySorted_map.
      apply (StronglySorted_weaken (fun a b => unitNumber a <= unitNumber b));
        [|apply sortBy_sorted].
      intros x y Hxy. split; simpl; [lia | intros _; exact Hxy].
    + now apply IH.
    + intros a [ch u] Ha Hb. apply in_map_iff in Ha as [x [<- _]].
      apply Hin' in Hb as [Hch _]. rewrite Forall_forall in Hc.
      split; simpl; [now apply Hc|]. intros ->. contradiction.
Qed.

Lemma allDigits_slashFree (s : string) : allDigits s = true -> slashFree s = true.
Proof.
  induction s as [|c s IH]; simpl; intros H; [reflexivity|].
  apply andb_true_iff in H as [Hc Hs]. rewrite (IH Hs), andb_true_r.
  destruct (Ascii.eqb c "/") eqn:E; [|reflexivity].
  apply Ascii.eqb_eq in E. subst c. discriminate.
Qed.

Lemma isChapterDir_slashFree (d : string) : isChapterDir d = true -> slashFree d = true.
Proof.
  unfold isChapterDir.
  destruct d as [|a [|b ns]]; try discriminate.
  - destruct a as [[] [] [] [] [] [] [] []]; discriminate.
  - destruct a as [[] [] [] [] [] [] [] []]; try discriminate.
    destruct b as [[] [] [] [] [] [] [] []]; try discriminate.
    intros H. destruct ns as [|c ns]; [discriminate|].
    change (slashFree (String c ns) = true). now apply allDigits_slashFree.
Qed.

Lemma relPath_inj (p q : UnitPath) :
  slashFree (chapterDir p) = true -> slashFree (chapterDir q) = true ->
  relPath p = relPath q -> p = q.
Proof.
  destruct p as [c u], q as [c' u']. unfold relPath. simpl. intros Hc Hc' H.
  injection H as H. apply split_at_slash in H as [-> ->]; [reflexivity | assumption..].
Qed.

Lemma readChapters_NoDup (readdirSync : string -> option (list string))
  (chapters : list string) :
  NoDup chapters ->
  (forall ch names, readdirSync ch = Some names -> NoDup names) ->
  forall files, readChapters readdirSync chapters = Some files -> NoDup files.
Proof.
  intros Hnd Hnames. induction Hnd as [|c rest Hnotin Hnd IH]; intros files H.
  - injection H as <-. constructor.
  - simpl in H.
    destruct (readdirSync c) as [names|] eqn:E; [|discriminate].
    destruct (readChapters readdirSync rest) as [files'|] eqn:E'; [|discriminate].
    injection H as <-.
    pose proof (readChapters_In readdirSync rest files' E') as Hin'.
    apply NoDup_app.
    + apply Finite.Injective_map_NoDup; [now intros x y [= ->]|].
      apply sortBy_NoDup, NoDup_filter, (Hnames c names E).
    + now apply IH.
    + intros [ch u] Ha Hb. apply in_map_iff in Ha as [x [[= <- <-] _]].
      apply Hin' in Hb as [Hch _]. contradiction.
Qed.

(** X12: on directory listings without repeated names and numbers that
    [parseInt] renders exactly (below 2^53), [discoverUnitFiles] throws
    exactly when one of the entries named [ch<digits>] cannot be listed;
    otherwise it returns the files [unit<digits>.json] of those entries, all
    of them and nothing else, each once, under distinct relative paths,
    ordered by chapter number and, inside a chapter directory, by unit
    number (so [unit2.json] precedes [unit10.json]). *)
Theorem discoverUnitFiles_sorted_matching_files (entries : list string)
  (readdirSync : string -> option (list string)) :
  NoDup entries ->
  (forall ch names, readdirSync ch = Some names -> NoDup names) ->
  (forall ch, In ch entries -> isChapterDir ch = true -> chapterNumber ch < 2 ^ 53) ->
  (forall ch names u, readdirSync ch = Some names -> In u names -> isUnitFile u = true ->
     unitNumber u < 2 ^ 53) ->
  (discoverUnitFiles (Some entries) readdirSync = None
   <-> exists ch, In ch entries /\ isChapterDir ch = true /\ readdirSync ch = None)
  /\ forall files, discoverUnitFiles (Some entries) readdirSync = Some files ->
       (forall ch u,
           In (mkUnitPath ch u) files
           <-> In ch entries /\ isChapterDir ch = true /\ isUnitFile u = true
               /\ exists names, readdirSync ch = Some names /\ In u names)
       /\ NoDup (map relPath files)
       /\ StronglySorted discoveryOrder files.
Proof.
  intros Hnd Hnames _ _. unfold discoverUnitFiles. cbv zeta.
  set (chapters := sortBy chapterNumber (filter isChapterDir entries)).
  assert (forall ch, In ch chapters <-> In ch entries /\ isChapterDir ch = true) as Hch.
  { intros ch. unfold chapters. rewrite sortBy_In. apply filter_In. }
  assert (NoDup chapters) as Hndc by (apply sortBy_NoDup, NoDup_filter, Hnd).
  split.
  - rewrite readChapters_None. split; intros [ch [H1 H2]]; exists ch.
    + apply Hch in H1. tauto.
    + split; [apply Hch|]; tauto.
  - intros files H. split; [|split].
    + intros ch u. rewrite (readChapters_In _ _ _ H ch u), Hch. tauto.
    + apply Finite.Injective_map_NoDup_in.
      * intros [c u] [c' u'] Hp Hq. apply relPath_inj; apply isChapterDir_slashFree.
        -- apply (readChapters_In _ _ _ H) in Hp as [Hp _]. now apply Hch in Hp.
        -- apply (readChapters_In _ _ _ H) in Hq as [Hq _]. now apply Hch in Hq.
      * now apply (readChapters_NoDup readdirSync chapters).
    + apply (readChapters_sorted readdirSync chapters); try assumption.
      apply sortBy_sorted.
Qed.

(** ** The unit modules of the site *)

Lemma spanDigits_digits (ds r : string) :
  allDigits ds = true ->
  (forall c r', r = String c r' -> isDigit c = false) ->
  spanDigits (ds ++ r) = (ds, r).
Proof.
  intros Hds Hr. induction ds as [|c ds IH]; simpl.
  - destruct r as [|c r']; [reflexivity|]. simpl. now rewrite (Hr c r' eq_refl).
  - simpl in Hds. apply andb_true_iff in Hds as [Hc Hds]. now rewrite Hc, (IH Hds).
Qed.

Lemma matchUnitKeyAt_unit_key (cs ds rest : string) :
  someDigits cs = true -> someDigits ds = true ->
  matchUnitKeyAt ("./ch" ++ cs ++ "/unit" ++ ds ++ ".json" ++ rest)
  = Some (cs, "unit" ++ ds).
Proof.
  intros Hcs Hds. unfold matchUnitKeyAt.
  change (stripPrefix "./ch" ("./ch" ++ cs ++ "/unit" ++ ds ++ ".json" ++ rest))
    with (Some (cs ++ "/unit" ++ ds ++ ".json" ++ rest)).
  cbv iota beta.
  rewrite spanDigits_digits;
    [| destruct cs; [discriminate | exact Hcs] | now intros c r' [= <- _] ].
  destruct cs as [|c0 cs]; [discriminate|].
  change (stripPrefix "/unit" ("/unit" ++ ds ++ ".json" ++ rest))
    with (Some (ds ++ ".json" ++ rest)).
  cbv iota beta.
  rewrite spanDigits_digits;
    [| destruct ds; [discriminate | exact Hds] | now intros c r' [= <- _] ].
  destruct ds as [|d0 ds]; [discriminate|]. reflexivity.
Qed.

Lemma matchUnitKey_unit_key (cs ds : string) :
  someDigits cs = true -> someDigits ds = true ->
  matchUnitKey ("./ch" ++ cs ++ "/unit" ++ ds ++ ".json") = Some (cs, "unit" ++ ds).
Proof.
  intros Hcs Hds.
  pose proof (matchUnitKeyAt_unit_key cs ds EmptyString Hcs Hds) as H.
  change (".json" ++ EmptyString) with ".json" in H.
  change ("./ch" ++ cs ++ "/unit" ++ ds ++ ".json")
    with (String "." ("/ch" ++ cs ++ "/unit" ++ ds ++ ".json")) in *.
  cbn [matchUnitKey]. now rewrite H.
Qed.

Lemma moduleAt_In {D : Type} (unitModules : list (string * D)) (key : string) (d : D) :
  NoDup (map fst unitModules) -> In (key, d) unitModules ->
  moduleAt key unitModules = Some d.
Proof.
  induction unitModules as [|[k d'] rest IH]; simpl; intros Hnd Hin; [destruct Hin|].
  inversion Hnd as [|? ? Hnotin Hnd']; subst.
  destruct Hin as [[= -> ->]|Hin].
  - now rewrite String.eqb_refl.
  - destruct (k =? key) eqn:E; [|now apply IH].
    apply String.eqb_eq in E. subst k. destruct Hnotin.
    now apply (in_map fst) in Hin.
Qed.

Lemma moduleAt_absent {D : Type} (unitModules : list (string * D)) (key : string) :
  (forall d, ~ In (key, d) unitModules) -> moduleAt key unitModules = None.
Proof.
  induction unitModules as [|[k d'] rest IH]; simpl; intros H; [reflexivity|].
  destruct (k =? key) eqn:E.
  - apply String.eqb_eq in E. subst k. destruct (H d'). now left.
  - apply IH. intros d Hd. apply (H d). now right.
Qed.

(** X13: a module whose key is [./ch<digits>/unit<digits>.json] is listed
    by [getAllUnits] under the number [parseInt] reads in the directory
    name and under [unit<digits>].  [loadUnit] gives that module back for
    the listed chapter and unit when the directory name is the decimal
    writing of its number; when it is not (leading zeros) [loadUnit] looks
    under another key, and returns [null] if there is no such module. *)
Theorem getAllUnits_loadUnit {D : Type} (unitModules : list (string * D))
  (cs ds : string) (data : D) :
  NoDup (map fst unitModules) ->
  someDigits cs = true -> someDigits ds = true -> parseInt cs < 2 ^ 53 ->
  In ("./ch" ++ cs ++ "/unit" ++ ds ++ ".json", data) unitModules ->
  In (mkUnitEntry (parseInt cs) ("unit" ++ ds) data) (getAllUnits unitModules)
  /\ (cs = dec (parseInt cs) ->
      loadUnit unitModules (parseInt cs) ("unit" ++ ds) = Some data)
  /\ ((forall d, ~ In ("./ch" ++ dec (parseInt cs) ++ "/unit" ++ ds ++ ".json", d)
                   unitModules) ->
      cs <> dec (parseInt cs)
      /\ loadUnit unitModules (parseInt cs) ("unit" ++ ds) = None).
Proof.
  intros Hnd Hcs Hds _ Hin. split; [|split].
  - unfold getAllUnits. apply in_flat_map.
    exists ("./ch" ++ cs ++ "/unit" ++ ds ++ ".json", data). split; [exact Hin|].
    cbn [fst snd]. rewrite (matchUnitKey_unit_key cs ds Hcs Hds). now left.
  - intros Hdec. unfold loadUnit. rewrite <- Hdec.
    now apply moduleAt_In.
  - intros Habsent. split.
    + intros Hdec. rewrite <- Hdec in Habsent. now apply (Habsent data).
    + unfold loadUnit. now apply moduleAt_absent.
Qed.

(** ** The search of the site *)

Section Search.

Variable toLowerCase : string -> string.

Lemma string_of_uint_allDigits (d : Decimal.uint) :
  allDigits (NilEmpty.string_of_uint d) = true.
Proof. induction d; simpl; auto. Qed.

Lemma split_at_dash (a b u v : string) :
  allDigits a = true -> allDigits b = true ->
  a ++ "-" ++ u = b ++ "-" ++ v -> a = b /\ u = v.
Proof.
  revert b. induction a as [|c a IH]; intros [|c' b] Ha Hb H; simpl in *.
  - injection H as H. now split.
  - injection H as Hc _. subst c'. discriminate.
  - injection H as Hc _. subst c. discriminate.
  - injection H as Hc H. subst c'.
    apply andb_true_iff in Ha as [_ Ha]. apply andb_true_iff in Hb as [_ Hb].
    destruct (IH b Ha Hb H) as [-> ->]. now split.
Qed.

Lemma groupKey_sameUnit (g : GroupedResult) (e : SearchEntry) :
  (groupKey e =? resultKey g) = sameUnit g e.
Proof.
  unfold sameUnit, groupKey, resultKey.
  destruct (Nat.eqb (seChapterId e) (grChapterId g)) eqn:Ec;
    destruct (seUnitId e =? grUnitId g) eqn:Eu; simpl.
  - apply Nat.eqb_eq in Ec. apply String.eqb_eq in Eu. rewrite Ec, Eu. apply String.eqb_refl.
  - apply String.eqb_neq. intros H.
    apply split_at_dash in H as [_ H]; try apply string_of_uint_allDigits.
    apply String.eqb_neq in Eu. contradiction.
  - apply String.eqb_neq. intros H.
    apply split_at_dash in H as [H _]; try apply string_of_uint_allDigits.
    apply dec_inj in H. apply Nat.eqb_neq in Ec. contradiction.
  - apply String.eqb_neq. intros H.
    apply split_at_dash in H as [H _]; try apply string_of_uint_allDigits.
    apply dec_inj in H. apply Nat.eqb_neq in Ec. contradiction.
Qed.

Lemma mapAdjust_keys (key : string) (f : GroupedResult -> GroupedResult)
  (grouped : GroupMap) :
  map fst (mapAdjust key f grouped) = map fst grouped.
Proof.
  induction grouped as [|[k g] rest IH]; simpl; [reflexivity|].
  destruct (k =? key); simpl; [reflexivity | now rewrite IH].
Qed.

Lemma mapAdjust_In (key : string) (f : GroupedResult -> GroupedResult)
  (grouped : GroupMap) (k : string) (g' : GroupedResult) :
  NoDup (map fst grouped) ->
  In (k, g') (mapAdjust key f grouped)
  <-> (k <> key /\ In (k, g') grouped)
      \/ (k = key /\ exists g, In (key, g) grouped /\ g' = f g).
Proof.
  induction grouped as [|[k0 g0] rest IH]; simpl; intros Hnd.
  - split; [intros [] | intros [[_ []]|[_ [g [[] _]]]]].
  - inversion Hnd as [|? ? Hnotin Hnd']; subst.
    destruct (k0 =? key) eqn:E.
    + apply String.eqb_eq in E. subst k0. simpl. split.
      * intros [[= <- <-]|Hin].
        -- right. split; [reflexivity|]. exists g0. split; [now left | reflexivity].
        -- left. split; [|now right]. intros ->. apply Hnotin.
           now apply (in_map fst) in Hin.
      * intros [[Hk [[= Hk' _]|Hin]]|[-> [g [[[= ->]|Hin] ->]]]].
        -- now destruct Hk.
        -- now right.
        -- now left.
        -- destruct Hnotin. now apply (in_map fst) in Hin.
    + apply String.eqb_neq in E. simpl. rewrite (IH Hnd'). split.
      * intros [[= <- <-]|[[Hk Hin]|[-> [g [Hin ->]]]]].
        -- left. split; [exact E | now left].
        -- left. split; [exact Hk | now right].
        -- right. split; [reflexivity|]. exists g. split; [now right | reflexivity].
      * intros [[Hk [[= <- <-]|Hin]]|[-> [g [[[= Hk _]|Hin] ->]]]].
        -- now left.
        -- right. left. now split.
        -- now destruct E.
        -- right. right. split; [reflexivity|]. now exists g.
Qed.

Lemma addMatch_keys (grouped : GroupMap) (m : SearchEntry) :
  map fst (addMatch grouped m) = setAdd (map fst grouped) (groupKey m).
Proof.
  unfold addMatch, setAdd, mapHas. cbv zeta. rewrite mapAdjust_keys.
  destruct (inb (groupKey m) (map fst grouped)); [reflexivity|].
  now rewrite map_app.
Qed.

Lemma fold_addMatch_keys (todo : list SearchEntry) :
  forall grouped,
    map fst (fold_left addMatch todo grouped)
    = fold_left setAdd (map groupKey todo) (map fst grouped).
Proof.
  induction todo as [|m todo IH]; intros grouped; simpl; [reflexivity|].
  now rewrite IH, addMatch_keys.
Qed.

Lemma firstn_3_snoc {A} (l : list A) (x : A) :
  firstn 3 (l ++ [x])
  = if Nat.ltb (length (firstn 3 l)) 3 then (firstn 3 l ++ [x])%list else firstn 3 l.
Proof.
  destruct l as [|a [|b [|c l]]]; try reflexivity.
Qed.

Lemma filter_snoc {A} (p : A -> bool) (l : list A) (x : A) :
  filter p (l ++ [x]) = if p x then (filter p l ++ [x])%list else filter p l.
Proof.
  rewrite filter_app. simpl. destruct (p x); [reflexivity | apply app_nil_r].
Qed.

Lemma groupsOf_addMatch (grouped : GroupMap) (done : list SearchEntry) (m : SearchEntry) :
  groupsOf grouped done -> groupsOf (addMatch grouped m) (done ++ [m]).
Proof.
  intros [Hnd [Hcover Hgroups]].
  assert (NoDup (map fst (addMatch grouped m))) as Hnd'.
  { rewrite addMatch_keys. apply (fold_setAdd_NoDup [groupKey m] _ Hnd). }
  split; [exact Hnd'|]. split.
  - intros e He. rewrite addMatch_keys.
    apply (fold_setAdd_In [groupKey m] (map fst grouped) (groupKey e)).
    apply in_app_iff in He as [He|[<-|[]]]; [left; now apply Hcover | right; now left].
  - intros k g' Hin. unfold addMatch in Hin. cbv zeta in Hin.
    destruct (mapHas (groupKey m) grouped) eqn:Ehas.
    + apply (mapAdjust_In _ _ _ _ _ Hnd) in Hin as [[Hk Hin]|[-> [g [Hin ->]]]].
      * destruct (Hgroups k g' Hin) as [e [rest [Hf Hg]]].
        exists e, rest. split; [|exact Hg].
        rewrite filter_snoc.
        destruct (groupKey m =? k) eqn:E; [|exact Hf].
        apply String.eqb_eq in E. now destruct Hk.
      * destruct (Hgroups _ g Hin) as [e [rest [Hf ->]]].
        exists e, (rest ++ [m])%list. split.
        -- now rewrite filter_snoc, String.eqb_refl, Hf.
        -- unfold pushMatch. cbn [grMatches grChapterId grChapterTitle grUnitId grUnitTitle].
           change (e :: rest ++ [m])%list with ((e :: rest) ++ [m])%list.
           rewrite map_app. change (map toMatch [m]) with [toMatch m].
           rewrite firstn_3_snoc.
           destruct (Nat.ltb (length (firstn 3 (map toMatch (e :: rest)))) 3); reflexivity.
    + unfold mapHas in Ehas. apply inb_false in Ehas.
      assert (NoDup (map fst (grouped ++ [(groupKey m, newGroup m)]))) as Hnd2.
      { rewrite map_app. apply NoDup_app; [exact Hnd | repeat constructor; simpl; tauto |].
        intros a Ha [<-|[]]. contradiction. }
      apply (mapAdjust_In _ _ _ _ _ Hnd2) in Hin as [[Hk Hin]|[-> [g [Hin ->]]]].
      * apply in_app_iff in Hin as [Hin|[[= Hk' _]|[]]]; [|now destruct Hk].
        destruct (Hgroups k g' Hin) as [e [rest [Hf Hg]]].
        exists e, rest. split; [|exact Hg].
        rewrite filter_snoc.
        destruct (groupKey m =? k) eqn:E; [|exact Hf].
        apply String.eqb_eq in E. now destruct Hk.
      * apply in_app_iff in Hin as [Hin|[[= <-]|[]]].
        -- destruct Ehas. now apply (in_map fst) in Hin.
        -- exists m, []. split; [|reflexivity].
           rewrite filter_snoc, String.eqb_refl.
           assert (filter (fun x => groupKey x =? groupKey m) done = []) as ->; [|reflexivity].
           destruct (filter (fun x => groupKey x =? groupKey m) done) as [|x l] eqn:E;
             [reflexivity|].
           assert (In x (filter (fun x => groupKey x =? groupKey m) done)) as Hx
               by (rewrite E; now left).
           apply filter_In in Hx as [Hx Hkey]. apply String.eqb_eq in Hkey.
           destruct Ehas. rewrite <- Hkey. now apply Hcover.
Qed.

Lemma groupsOf_fold (todo : list SearchEntry) :
  forall grouped done,
    groupsOf grouped done -> groupsOf (fold_left addMatch todo grouped) (done ++ todo).
Proof.
  induction todo as [|m todo IH]; intros grouped done H; simpl.
  - now rewrite app_nil_r.
  - change (m :: todo) with ([m] ++ todo)%list. rewrite app_assoc.
    apply IH. now apply groupsOf_addMatch.
Qed.

Lemma groupsOf_resultKey (grouped : GroupMap) (done : list SearchEntry) :
  groupsOf grouped done -> map resultKey (map snd grouped) = map fst grouped.
Proof.
  intros [_ [_ Hgroups]]. rewrite map_map. apply map_ext_in. intros [k g] Hin.
  destruct (Hgroups k g Hin) as [e [rest [Hf ->]]]. simpl.
  assert (In e (filter (fun x => groupKey x =? k) done)) as He by (rewrite Hf; now left).
  apply filter_In in He as [_ He]. apply String.eqb_eq in He. exact He.
Qed.

Lemma searchResults_groupsOf (index : list SearchEntry) (query : string) :
  query <> EmptyString ->
  exists grouped,
    searchResults toLowerCase index query = map snd grouped
    /\ map fst grouped = newSet (map groupKey (hits toLowerCase index query))
    /\ map resultKey (map snd grouped) = map fst grouped
    /\ groupsOf grouped (hits toLowerCase index query).
Proof.
  intros Hq. exists (fold_left addMatch (hits toLowerCase index query) []).
  assert (groupsOf (fold_left addMatch (hits toLowerCase index query) [])
            (hits toLowerCase index query)) as Hinv.
  { apply (groupsOf_fold (hits toLowerCase index query) [] []).
    split; [constructor|]. split; [intros e []| intros k g []]. }
  split; [destruct query; [contradiction | reflexivity]|].
  split; [now rewrite fold_addMatch_keys|].
  split; [now apply (groupsOf_resultKey _ _ Hinv) | exact Hinv].
Qed.

Lemma groupsOf_first_hit (grouped : GroupMap) (done : list SearchEntry) (k : string)
  (g : GroupedResult) :
  groupsOf grouped done -> In (k, g) grouped ->
  k = resultKey g
  /\ exists e rest,
       filter (sameUnit g) done = e :: rest
       /\ g = mkGroupedResult (seChapterId e) (seChapterTitle e) (seUnitId e)
                (seUnitTitle e) (firstn 3 (map toMatch (e :: rest))).
Proof.
  intros [_ [_ Hgroups]] Hin.
  destruct (Hgroups k g Hin) as [e [rest [Hf Hg]]].
  assert (k = resultKey g) as Hk.
  { assert (In e (filter (fun x => groupKey x =? k) done)) as H0 by (rewrite Hf; now left).
    apply filter_In in H0 as [_ H0]. apply String.eqb_eq in H0. now rewrite Hg, <- H0. }
  split; [exact Hk|]. exists e, rest. split; [|exact Hg].
  rewrite <- Hf. apply filter_ext. intros x. now rewrite <- groupKey_sameUnit, Hk.
Qed.

(** X14: the search shows nothing for the empty query.  For any other
    query the groups are those of the units that have an entry whose text
    includes the query in lower case, one group per unit, in the order of
    the first such entry in the index; a group carries the titles of that
    first entry and the first three such entries of its unit, in the order
    of the index; and at most twenty groups are rendered. *)
Theorem searchResults_groups (index : list SearchEntry) (query : string) :
  searchResults toLowerCase index EmptyString = []
  /\ (query <> EmptyString ->
      map resultKey (searchResults toLowerCase index query) = newSet (map groupKey (hits toLowerCase index query))
      /\ NoDup (map (fun g => (grChapterId g, grUnitId g)) (searchResults toLowerCase index query))
      /\ (forall e, In e (hits toLowerCase index query) ->
            exists g, In g (searchResults toLowerCase index query) /\ sameUnit g e = true)
      /\ (forall g, In g (searchResults toLowerCase index query) ->
            exists e rest,
              filter (sameUnit g) (hits toLowerCase index query) = e :: rest
              /\ grChapterTitle g = seChapterTitle e
              /\ grUnitTitle g = seUnitTitle e
              /\ grMatches g = firstn 3 (map toMatch (e :: rest)))
      /\ length (shownResults (searchResults toLowerCase index query)) <= 20).
Proof.
  split; [reflexivity|]. intros Hq.
  destruct (searchResults_groupsOf index query Hq) as [grouped [-> [Hset [Hkeys Hinv]]]].
  split; [|split; [|split; [|split]]].
  - now rewrite Hkeys.
  - apply (NoDup_map_inv (fun p => dec (fst p) ++ "-" ++ snd p)).
    rewrite map_map. change (NoDup (map resultKey (map snd grouped))).
    rewrite Hkeys. apply Hinv.
  - intros e He. destruct Hinv as [Hnd [Hcover Hgroups]].
    pose proof (Hcover e He) as Hk. apply in_map_iff in Hk as [[k g] [Hk Hin]].
    simpl in Hk. subst k.
    exists g. split; [now apply (in_map snd) in Hin|].
    rewrite <- groupKey_sameUnit. apply String.eqb_eq.
    now destruct (groupsOf_first_hit _ _ _ _ (conj Hnd (conj Hcover Hgroups)) Hin).
  - intros g Hg. apply in_map_iff in Hg as [[k g0] [Hsnd Hin]]. simpl in Hsnd. subst g0.
    destruct (groupsOf_first_hit _ _ _ _ Hinv Hin) as [_ [e [rest [Hf Hg]]]].
    exists e, rest. split; [exact Hf|]. now rewrite Hg.
  - unfold shownResults. apply firstn_le_length.
Qed.

(** ** The search over the built index *)

Lemma chapterTitleOf_nonEmpty (chapters : list Chapter) (n : nat) :
  chapterTitleOf chapters n <> EmptyString.
Proof.
  unfold chapterTitleOf. cbv zeta.
  destruct (find (fun c => Nat.eqb (chapterNo c) n) chapters) as [c|]; [|discriminate].
  destruct (nonEmpty (chapterTitle c)) eqn:E; [|discriminate].
  unfold nonEmpty in E. intros H. rewrite H in E. discriminate.
Qed.

Lemma sectionEntries_mk (mk : EntryType -> string -> string -> SearchEntry)
  (section : SectionData) (e : SearchEntry) :
  In e (sectionEntries toLowerCase mk section) -> exists t text preview, e = mk t text preview.
Proof.
  unfold sectionEntries. rewrite !in_app_iff. intros [H|[H|H]].
  - destruct (secType section), (secItems section); try destruct H.
    apply in_map_iff in H as [x [<- _]]. eauto.
  - destruct (secType section), (secPoints section); try destruct H.
    apply in_map_iff in H as [x [<- _]]. eauto.
  - destruct (secType section), (secLines section); try destruct H.
    apply in_flat_map in H as [x [_ H]].
    destruct (nonEmpty (lJapanese x) && nonEmpty (lChinese x)); [|destruct H].
    destruct H as [<-|[]]. eauto.
Qed.

Lemma unitEntries_fields (chapters : list Chapter) (u : UnitEntry UnitData)
  (e : SearchEntry) :
  In e (unitEntries toLowerCase chapters u) ->
  seChapterId e = entryChapterId u /\ seUnitId e = entryUnitId u
  /\ seUnitTitle e = dataTitle (entryData u)
  /\ seChapterTitle e = chapterTitleOf chapters (entryChapterId u).
Proof.
  unfold unitEntries. cbv zeta. intros H. apply in_flat_map in H as [section [_ H]].
  apply sectionEntries_mk in H as [t [text [preview ->]]]. now repeat split.
Qed.

(** X15: the search over the built index finds the listed units that
    have a vocabulary item, a grammar point or a dialogue line with both
    texts whose indexed text includes the query in lower case, and only
    those; a group carries the title of a listed unit with its chapter
    number and unit name, and a chapter title that is never empty (the
    title of the chapter, or the numbered fallback).  Sections of type
    culture, flashcards and quiz give no entry. *)
Theorem searchResults_of_built_index (chapters : list Chapter)
  (allUnits : list (UnitEntry UnitData)) (query : string) :
  query <> EmptyString ->
  (forall c uid,
      (exists g,
          In g (searchResults toLowerCase
                  (buildSearchIndex toLowerCase chapters allUnits) query)
          /\ grChapterId g = c /\ grUnitId g = uid)
      <-> exists u e,
          In u allUnits /\ entryChapterId u = c /\ entryUnitId u = uid
          /\ In e (unitEntries toLowerCase chapters u)
          /\ includes (seText e) (toLowerCase query) = true)
  /\ (forall g,
         In g (searchResults toLowerCase
                 (buildSearchIndex toLowerCase chapters allUnits) query) ->
         grChapterTitle g = chapterTitleOf chapters (grChapterId g)
         /\ grChapterTitle g <> EmptyString
         /\ exists u, In u allUnits /\ entryChapterId u = grChapterId g
                      /\ entryUnitId u = grUnitId g
                      /\ dataTitle (entryData u) = grUnitTitle g)
  /\ (forall mk section,
         notIndexed (secType section) = true ->
         sectionEntries toLowerCase mk section = []).
Proof.
  intros Hq.
  destruct (searchResults_groupsOf (buildSearchIndex toLowerCase chapters allUnits)
              query Hq) as [grouped [-> [_ [_ Hinv]]]].
  assert (forall g, In g (map snd grouped) ->
            exists e u, In e (hits toLowerCase
                                (buildSearchIndex toLowerCase chapters allUnits) query)
                        /\ In u allUnits /\ In e (unitEntries toLowerCase chapters u)
                        /\ grChapterId g = seChapterId e /\ grUnitId g = seUnitId e
                        /\ grChapterTitle g = seChapterTitle e
                        /\ grUnitTitle g = seUnitTitle e) as Hfirst.
  { intros g Hg. apply in_map_iff in Hg as [[k g0] [Hsnd Hin]]. simpl in Hsnd. subst g0.
    destruct (groupsOf_first_hit _ _ _ _ Hinv Hin) as [_ [e [rest [Hf Hg]]]].
    assert (In e (filter (sameUnit g)
                    (hits toLowerCase (buildSearchIndex toLowerCase chapters allUnits)
                       query))) as He by (rewrite Hf; now left).
    apply filter_In in He as [He _]. pose proof He as He'.
    apply filter_In in He' as [He' _]. apply in_flat_map in He' as [u [Hu He']].
    exists e, u. rewrite Hg. now repeat split. }
  split; [|split].
  - intros c uid. split.
    + intros [g [Hg [<- <-]]].
      destruct (Hfirst g Hg) as [e [u [He [Hu [Heu [Hc [Hi _]]]]]]].
      destruct (unitEntries_fields _ _ _ Heu) as [Hc' [Hi' _]].
      exists u, e. apply filter_In in He as [_ He]. repeat split; congruence.
    + intros [u [e [Hu [<- [<- [He Hinc]]]]]].
      assert (In e (hits toLowerCase (buildSearchIndex toLowerCase chapters allUnits)
                      query)) as Hhit.
      { apply filter_In. split; [|exact Hinc]. apply in_flat_map. now exists u. }
      pose proof Hinv as [_ [Hcover _]].
      pose proof (Hcover e Hhit) as Hk. apply in_map_iff in Hk as [[k g] [Hk Hin]].
      simpl in Hk. subst k.
      destruct (groupsOf_first_hit _ _ _ _ Hinv Hin) as [Hkey _].
      apply String.eqb_eq in Hkey. rewrite groupKey_sameUnit in Hkey.
      unfold sameUnit in Hkey. apply andb_true_iff in Hkey as [Hc Hi].
      apply Nat.eqb_eq in Hc. apply String.eqb_eq in Hi.
      destruct (unitEntries_fields _ _ _ He) as [Hc' [Hi' _]].
      exists g. split; [now apply (in_map snd) in Hin|]. split; congruence.
  - intros g Hg. destruct (Hfirst g Hg) as [e [u [_ [Hu [Heu [Hc [Hi [Hct Hut]]]]]]]].
    destruct (unitEntries_fields _ _ _ Heu) as [Hc' [Hi' [Hut' Hct']]].
    assert (grChapterTitle g = chapterTitleOf chapters (grChapterId g)) as Htitle
        by congruence.
    split; [exact Htitle|]. split; [rewrite Htitle; apply chapterTitleOf_nonEmpty|].
    exists u. repeat split; congruence.
  - intros mk section Hn. unfold sectionEntries.
    destruct (secType section); try discriminate;
      destruct (secItems section), (secPoints section), (secLines section); reflexivity.
Qed.

End Search.


(** ** The quiz component *)

Lemma quizStep_invariant (questions : list QuizQuestion) (unitId : option string)
  (storageWorks : bool) (e : QuizEvent) (st : QuizState) :
  quizInvariant questions st ->
  exists st', quizStep questions unitId storageWorks e st = Some st'
              /\ quizInvariant questions st'.
Proof.
  intros Hinv. unfold quizStep.
  destruct (rendered questions st e) eqn:Er; [|now exists st].
  destruct st as [k sel s res ans saved].
  destruct Hinv as [Hk [Hs [Hres [Hans Hsaved]]]]. cbn [currentQ selected score showResult
    answered quizScore] in *.
  destruct e as [i| |]; cbn [rendered currentQ selected score showResult answered] in Er.
  - apply andb_true_iff in Er as [Er _]. apply andb_true_iff in Er as [Eres Eans].
    apply negb_true_iff in Eres, Eans. subst res ans.
    unfold handleSelect. cbn [answered currentQ score showResult quizScore].
    destruct (nth_error questions k) as [q|] eqn:Eq;
      [|apply nth_error_None in Eq; lia].
    eexists. split; [reflexivity|].
    unfold quizInvariant.
    cbn [currentQ selected score showResult answered quizScore].
    split; [exact Hk|]. split; [destruct (Z.eqb (Z.of_nat i) (qCorrect q)); lia|].
    split; [discriminate|]. split; [|exact Hsaved].
    split; [discriminate | reflexivity].
  - apply andb_true_iff in Er as [Eres Eans]. apply negb_true_iff in Eres. subst res ans.
    eexists. split; [reflexivity|]. unfold nextQuestion, quizInvariant.
    cbn [currentQ selected score showResult answered quizScore]. cbv zeta.
    destruct (Nat.ltb k (length questions - 1)) eqn:El;
      cbn [currentQ selected score showResult answered quizScore].
    + apply Nat.ltb_lt in El.
      split; [lia|]. split; [lia|]. split; [discriminate|]. split; [|exact Hsaved].
      split; [discriminate | intros H; now destruct H].
    + apply Nat.ltb_ge in El.
      split; [exact Hk|]. split; [exact Hs|]. split; [intros _; split; [lia | reflexivity]|].
      split; [exact Hans|].
      destruct (truthyId unitId && storageWorks); [|exact Hsaved].
      destruct (nth_error questions k) as [q|]; [|exact Hsaved].
      destruct (selectedIs sel (qCorrect q)); lia.
  - subst res. eexists. split; [reflexivity|]. unfold restart, quizInvariant.
    cbn [currentQ selected score showResult answered quizScore].
    split; [lia|]. split; [lia|]. split; [discriminate|]. split; [|exact Hsaved].
    split; [discriminate | intros H; now destruct H].
Qed.

(** X16: with at least one question, whatever the user clicks, in any
    order, the component never reads a question that does not exist
    ([handleSelect] does not throw, [currentQ] stays below the number of
    questions), the score never exceeds the number of questions answered
    so far, the result is shown only at the last question once it is
    answered, and the stored score is at most the number of questions
    plus one. *)
Theorem quizRun_invariant (questions : list QuizQuestion) (unitId : option string)
  (storageWorks : bool) (events : list QuizEvent) :
  questions <> [] ->
  exists st,
    quizRun questions unitId storageWorks events initialQuiz = Some st
    /\ currentQ st < length questions
    /\ score st <= currentQ st + (if answered st then 1 else 0)
    /\ score st <= length questions
    /\ (showResult st = true -> currentQ st = length questions - 1 /\ answered st = true)
    /\ (answered st = true <-> selected st <> None)
    /\ (forall n, quizScore st = Some n -> n <= length questions + 1).
Proof.
  intros Hne.
  assert (quizInvariant questions initialQuiz) as Hinit.
  { unfold quizInvariant, initialQuiz. simpl.
    split; [destruct questions; [contradiction | simpl; lia]|].
    split; [lia|]. split; [discriminate|]. split; [|exact I].
    split; [discriminate | intros H; now destruct H]. }
  assert (forall st, quizInvariant questions st ->
            exists st', quizRun questions unitId storageWorks events st = Some st'
                        /\ quizInvariant questions st') as Hrun.
  { induction events as [|e events IH]; intros st Hinv; [now exists st|].
    simpl. destruct (quizStep_invariant questions unitId storageWorks e st Hinv)
      as [st1 [-> Hinv1]].
    now apply IH. }
  destruct (Hrun initialQuiz Hinit) as [st [Hst [Hk [Hs [Hres [Hans Hsaved]]]]]].
  exists st. split; [exact Hst|]. split; [exact Hk|]. split; [exact Hs|].
  split; [destruct (answered st); lia|]. split; [exact Hres|]. split; [exact Hans|].
  intros n Hn. now rewrite Hn in Hsaved.
Qed.

Lemma quizStep_option (questions : list QuizQuestion) (unitId : option string)
  (storageWorks : bool) (k a s : nat) (saved : option nat) (q : QuizQuestion) :
  nth_error questions k = Some q -> a < length (qOptions q) ->
  quizStep questions unitId storageWorks (ClickOption a)
    (mkQuizState k None s false false saved)
  = Some (mkQuizState k (Some a)
            (s + (if Z.eqb (Z.of_nat a) (qCorrect q) then 1 else 0)) false true saved).
Proof.
  intros Hq Ha. unfold quizStep, rendered, handleSelect.
  cbn [currentQ selected score showResult answered quizScore negb andb]. rewrite Hq.
  apply Nat.ltb_lt in Ha. rewrite Ha.
  destruct (Z.eqb (Z.of_nat a) (qCorrect q)); [reflexivity | now rewrite Nat.add_0_r].
Qed.

Lemma quizRun_answerAll (unitId : option string) (answers : list nat)
  (post : list QuizQuestion) :
  Forall2 (fun a q => a < length (qOptions q)) answers post ->
  post <> [] -> truthyId unitId = true ->
  forall (pre : list QuizQuestion) (s : nat) (saved : option nat),
    quizRun (pre ++ post) unitId true (answerAll answers)
      (mkQuizState (length pre) None s false false saved)
    = Some (mkQuizState (length (pre ++ post) - 1) (Some (last answers 0))
              (s + countCorrect answers post) true true
              (Some (s + countCorrect answers post
                     + (if lastCorrect answers post then 1 else 0)))).
Proof.
  induction 1 as [|a q answers post Ha Hrest IH]; intros Hne Hid pre s saved;
    [contradiction|].
  assert (nth_error (pre ++ q :: post) (length pre) = Some q) as Hq.
  { rewrite nth_error_app2 by lia. now rewrite Nat.sub_diag. }
  cbn [answerAll flat_map app quizRun].
  rewrite (quizStep_option _ _ _ _ _ _ _ _ Hq Ha).
  unfold quizStep at 1.
  cbn [rendered currentQ selected score showResult answered quizScore negb andb].
  unfold nextQuestion. cbv zeta.
  cbn [currentQ selected score showResult answered quizScore].
  rewrite length_app. cbn [length].
  destruct Hrest as [|a' q' answers' post' Ha' Hrest'].
  - destruct (Nat.ltb (length pre) (length pre + S (length (@nil QuizQuestion)) - 1))
      eqn:El; [apply Nat.ltb_lt in El; simpl in El; lia|].
    rewrite Hid, Hq. cbn [andb flat_map quizRun selectedIs countCorrect lastCorrect last].
    cbn [length]. f_equal. f_equal; [lia | lia | f_equal; lia].
  - destruct (Nat.ltb (length pre) (length pre + S (length (q' :: post')) - 1))
      eqn:El; [|apply Nat.ltb_ge in El; simpl in El; lia].
    change (flat_map (fun a0 => [ClickOption a0; ClickNext]) (a' :: answers'))
      with (answerAll (a' :: answers')).
    replace (pre ++ q :: q' :: post')%list with ((pre ++ [q]) ++ q' :: post')%list
      by (now rewrite <- app_assoc).
    replace (length pre + 1) with (length (pre ++ [q])%list)
      by (rewrite length_app; reflexivity).
    rewrite IH; [|discriminate | exact Hid].
    cbn [countCorrect lastCorrect last]. rewrite !length_app. cbn [length].
    f_equal. f_equal; [lia | lia | f_equal; lia].
Qed.

Lemma countCorrect_all (answers : list nat) (questions : list QuizQuestion) :
  Forall2 (fun a q => Z.of_nat a = qCorrect q) answers questions ->
  countCorrect answers questions = length questions
  /\ (questions <> [] -> lastCorrect answers questions = true).
Proof.
  induction 1 as [|a q answers questions Ha Hrest [IHc IHl]]; [now split|].
  cbn [countCorrect length]. apply Z.eqb_eq in Ha. rewrite Ha, IHc.
  split; [reflexivity|]. intros _.
  destruct Hrest as [|a' q' answers' questions' Ha' Hrest']; [exact Ha|].
  apply IHl. discriminate.
Qed.


(** ** The flashcard component *)

Lemma goNext_invariant (total : nat) (st : FlashState) :
  flashInvariant total st -> flashInvariant total (goNext total st).
Proof.
  intros [Hc Ht]. unfold goNext.
  destruct (Nat.ltb (currentIndex st) (total - 1)) eqn:E; [|now split].
  apply Nat.ltb_lt in E. split; [exact Hc|]. simpl.
  apply Forall_app. split; [exact Ht|]. constructor; [lia | constructor].
Qed.

Lemma goPrev_invariant (total : nat) (st : FlashState) :
  flashInvariant total st -> flashInvariant total (goPrev st).
Proof.
  intros [Hc Ht]. unfold goPrev.
  destruct (Nat.ltb 0 (currentIndex st)) eqn:E; [|now split].
  split; [exact Hc|]. simpl.
  apply Forall_app. split; [exact Ht|]. constructor; [lia | constructor].
Qed.

Lemma flashStep_invariant (total : nat) (e : FlashEvent) (st : FlashState) :
  flashInvariant total st -> flashInvariant total (flashStep total e st).
Proof.
  intros Hinv. destruct e as [| | | |s|]; simpl.
  - exact Hinv.
  - destruct (Nat.eqb (currentIndex st) 0); [exact Hinv | now apply goPrev_invariant].
  - destruct (Nat.eqb (currentIndex st) (total - 1));
      [exact Hinv | now apply goNext_invariant].
  - exact Hinv.
  - unfold handleTouchEnd. destruct (touchStart st); [|exact Hinv].
    assert (flashInvariant total
              match s with
              | SwipeLeft => goNext total st
              | SwipeRight => goPrev st
              | NoSwipe => st
              end) as [Hc Ht].
    { destruct s; [now apply goNext_invariant | now apply goPrev_invariant | exact Hinv]. }
    now split.
  - destruct (timers st) as [|target rest] eqn:E; [exact Hinv|].
    destruct Hinv as [Hc Ht]. rewrite E in Ht. inversion Ht; subst. now split.
Qed.

(** X18: with at least one card, whatever the user does (clicks, touches,
    in any order and at any speed) and whenever the timers fire, the index
    of the card stays below the number of cards, as does the target of
    every pending timer: the card shown always exists. *)
Theorem flashRun_card_exists (cards : list VocabItem) (events : list FlashEvent) :
  cards <> [] ->
  currentIndex (flashRun (length cards) events initialFlash) < length cards
  /\ Forall (fun target => target < length cards)
            (timers (flashRun (length cards) events initialFlash))
  /\ exists card,
       nth_error cards (currentIndex (flashRun (length cards) events initialFlash))
       = Some card.
Proof.
  intros Hne.
  assert (flashInvariant (length cards) initialFlash) as Hinit.
  { split; [|constructor]. destruct cards; [contradiction | simpl; lia]. }
  assert (forall st, flashInvariant (length cards) st ->
            flashInvariant (length cards) (flashRun (length cards) events st)) as Hrun.
  { unfold flashRun. induction events as [|e events IH]; intros st Hinv; [exact Hinv|].
    simpl. apply IH. now apply flashStep_invariant. }
  destruct (Hrun initialFlash Hinit) as [Hc Ht].
  split; [exact Hc|]. split; [exact Ht|].
  destruct (nth_error cards (currentIndex (flashRun (length cards) events initialFlash)))
    as [card|] eqn:E; [now exists card|].
  apply nth_error_None in E. lia.
Qed.

Lemma flashRun_app (total : nat) (e1 e2 : list FlashEvent) (st : FlashState) :
  flashRun total (e1 ++ e2) st = flashRun total e2 (flashRun total e1 st).
Proof. unfold flashRun. apply fold_left_app. Qed.

Lemma flashRun_cons (total : nat) (e : FlashEvent) (events : list FlashEvent)
  (st : FlashState) :
  flashRun total (e :: events) st = flashRun total events (flashStep total e st).
Proof. reflexivity. Qed.

Lemma flashStep_next (total c : nat) (flipped touch : bool) (pending : list nat) :
  c < total - 1 ->
  flashStep total ClickNextButton (mkFlashState c flipped touch pending)
  = mkFlashState c false touch (pending ++ [c + 1]).
Proof.
  intros Hc. unfold flashStep, goNext. cbn [currentIndex touchStart timers].
  destruct (Nat.eqb c (total - 1)) eqn:E; [apply Nat.eqb_eq in E; lia|].
  destruct (Nat.ltb c (total - 1)) eqn:E'; [reflexivity | apply Nat.ltb_ge in E'; lia].
Qed.

Lemma flashRun_next_clicks (total c n : nat) (touch : bool) :
  c < total - 1 ->
  forall (flipped : bool) (pending : list nat),
    flashRun total (repeat ClickNextButton (S n)) (mkFlashState c flipped touch pending)
    = mkFlashState c false touch (pending ++ repeat (c + 1) (S n)).
Proof.
  intros Hc. induction n as [|n IH]; intros flipped pending.
  - cbn [repeat]. rewrite flashRun_cons, (flashStep_next _ _ _ _ _ Hc). reflexivity.
  - change (repeat ClickNextButton (S (S n)))
      with (ClickNextButton :: repeat ClickNextButton (S n)).
    rewrite flashRun_cons, (flashStep_next _ _ _ _ _ Hc), IH.
    now rewrite <- app_assoc.
Qed.

Lemma flashRun_timers (total target n : nat) :
  forall (c : nat) (flipped touch : bool),
    flashRun total (repeat TimerFires (S n))
      (mkFlashState c flipped touch (repeat target (S n)))
    = mkFlashState target flipped touch [].
Proof.
  induction n as [|n IH]; intros c flipped touch; [reflexivity|].
  change (repeat TimerFires (S (S n))) with (TimerFires :: repeat TimerFires (S n)).
  rewrite flashRun_cons. apply IH.
Qed.

(** X19: the index changes only when a timer fires, to the card next to
    the one that was shown when the user asked.  So any number of clicks
    on the next button before the first timer fires moves one card
    forward, not more; and a click on next followed by a click on previous
    before the first timer fires ends one card before the card that was
    shown, not on it. *)
Theorem flashRun_clicks_before_timer (total c n : nat) (flipped touch : bool) :
  c < total - 1 ->
  flashRun total (repeat ClickNextButton (S n) ++ repeat TimerFires (S n))
    (mkFlashState c flipped touch [])
  = mkFlashState (c + 1) false touch []
  /\ (0 < c ->
      flashRun total [ClickNextButton; ClickPrevButton; TimerFires; TimerFires]
        (mkFlashState c flipped touch [])
      = mkFlashState (c - 1) false touch []).
Proof.
  intros Hc. split.
  - rewrite flashRun_app, (flashRun_next_clicks total c n touch Hc).
    apply flashRun_timers.
  - intros Hpos. rewrite flashRun_cons, (flashStep_next _ _ _ _ _ Hc).
    destruct c as [|c']; [lia|]. reflexivity.
Qed.

(** ** The list of a section *)

Lemma listDefect_cases (v : jsval) (d : ListDefect) (A : Type) (a b c e : A) :
  listDefect v = Some d ->
  (if negb (truthy v) then a
   else if negb (isArray v) then b
   else if Nat.eqb (length (elements v)) 0 then c else e)
  = match d with
    | ListMissing => a
    | ListNotArray => b
    | ListEmpty => c
    end.
Proof.
  unfold listDefect.
  destruct (negb (truthy v)); [now intros [= <-]|].
  destruct (negb (isArray v)); [now intros [= <-]|].
  destruct (Nat.eqb (length (elements v)) 0); [now intros [= <-] | discriminate].
Qed.


(** ** Empty texts that are reported twice *)

Lemma Eff_Keeps {A} (P : Issue -> Prop) (u s : nat) (m : M A) : Eff P u s m -> Keeps m.
Proof.
  intros Hm st a st' H x Hx. destruct (Hm _ _ _ H) as [l [Hi _]].
  rewrite Hi. apply in_app_iff. now left.
Qed.

Lemma Pushes_addIssue (f s p : string) : Pushes (mkIssue f s p) (addIssue f s p).
Proof.
  intros st a st' H. injection H as _ <-. simpl. apply in_app_iff. right. now left.
Qed.

Lemma Pushes_bind_l {A B} (x : Issue) (m : M A) (k : A -> M B) :
  Pushes x m -> (forall a, Keeps (k a)) -> Pushes x (bind m k).
Proof.
  intros Hm Hk st b st' H. unfold bind in H.
  destruct (m st) as [[a st1]|] eqn:E; [|discriminate].
  apply (Hk a _ _ _ H). apply (Hm _ _ _ E).
Qed.

Lemma Pushes_bind_r {A B} (x : Issue) (m : M A) (k : A -> M B) :
  (forall a, Pushes x (k a)) -> Pushes x (bind m k).
Proof.
  intros Hk st b st' H. unfold bind in H.
  destruct (m st) as [[a st1]|] eqn:E; [|discriminate].
  apply (Hk a _ _ _ H).
Qed.

Lemma Pushes_bind_get {B} (x : Issue) (v : json) (k : string) (f : jsval -> M B) :
  v <> JNull -> Pushes x (f (field v k)) -> Pushes x (bind (get v k) f).
Proof.
  intros Hv Hf st b st' H. rewrite (bind_Some _ _ _ _ _ (get_nonnull _ _ _ Hv)) in H.
  apply (Hf _ _ _ H).
Qed.

Lemma field_nonnull (v : json) (k : string) (x : json) : field v k = Some x -> v <> JNull.
Proof. intros H ->. discriminate. Qed.

Lemma field_nth_error (v : json) (k : string) (x : json) :
  field v k = Some x ->
  exists fields n, v = JObj fields /\ nth_error fields n = Some (k, x).
Proof.
  destruct v as [| | | | |fields]; try discriminate.
  unfold field. simpl. intros H. exists fields.
  induction fields as [|[k' y] rest IH]; simpl in H; [discriminate|].
  destruct (k' =? k) eqn:E.
  - apply String.eqb_eq in E. subst k'. injection H as ->. now exists 0.
  - destruct (IH H) as [n [_ Hn]]. exists (S n). split; [reflexivity | exact Hn].
Qed.

Lemma section_path (i : nat) (name : string) :
  (("root" ++ "." ++ "sections") ++ "[" ++ dec i ++ "]") ++ "." ++ name
  = "root.sections[" ++ dec i ++ "]." ++ name.
Proof.
  cbn [append]. do 14 f_equal.
  induction (dec i) as [|c d IH]; [reflexivity|]. cbn [append]. now f_equal.
Qed.

Lemma Pushes_checkCulture (rel : string) (section : json) (idx : nat) :
  field section "content" = Some (JStr EmptyString) ->
  Pushes (mkIssue rel "culture"
            (sectionPrefix idx "culture" (field section "title") ++ ": "
               ++ quoted "content" ++ " is an empty string"))
         (checkCulture section rel idx).
Proof.
  intros Hc. pose proof (field_nonnull _ _ _ Hc) as Hnn. unfold checkCulture.
  apply Pushes_bind_get; [exact Hnn|]. cbv zeta.
  apply Pushes_bind_get; [exact Hnn|]. rewrite Hc.
  apply Pushes_bind_r. intros _. apply Pushes_addIssue.
Qed.

Lemma Pushes_checkDialogue (rel : string) (section : json) (idx : nat) :
  field section "scene" = Some (JStr EmptyString) ->
  Pushes (mkIssue rel "dialogue"
            (sectionPrefix idx "dialogue" (field section "title") ++ ": "
               ++ quoted "scene" ++ " is an empty string"))
         (checkDialogue section rel idx).
Proof.
  intros Hc. pose proof (field_nonnull _ _ _ Hc) as Hnn. unfold checkDialogue.
  apply Pushes_bind_get; [exact Hnn|]. cbv zeta.
  apply Pushes_bind_get; [exact Hnn|]. rewrite Hc.
  apply Pushes_bind_r. intros _.
  apply Pushes_bind_l; [apply Pushes_addIssue|].
  intros _. apply (Eff_Keeps (fun _ => True) 0 0). unfold checkDialogueLine. eff.
Qed.

Lemma Pushes_auditSection (rel : string) (section : json) (idx : nat) (kind : string)
  (x : Issue) (types : list jsval) :
  field section "type" = Some (JStr kind) -> kind <> EmptyString ->
  Pushes x (dispatchSection rel section idx (Some (JStr kind))) ->
  Pushes x (auditSection rel section idx types).
Proof.
  intros Ht Hk Hx. pose proof (field_nonnull _ _ _ Ht) as Hnn. unfold auditSection.
  apply Pushes_bind_r. intros _. apply Pushes_bind_get; [exact Hnn|]. cbv zeta.
  rewrite Ht.
  assert (truthy (Some (JStr kind)) = true) as ->.
  { simpl. apply negb_true_iff. now apply String.eqb_neq. }
  cbn [negb]. apply Pushes_bind_l; [exact Hx|].
  intros _. apply (Eff_Keeps (fun _ => True) 0 0). apply Eff_ret.
Qed.

Lemma Pushes_auditSections (rel : string) (x : Issue) (sections : list json) :
  forall (i idx : nat) (s : json),
    nth_error sections i = Some s ->
    (forall types, Pushes x (auditSection rel s (idx + i) types)) ->
    forall types, Pushes x (auditSections rel sections idx types).
Proof.
  induction sections as [|y l IH]; intros i idx s Hn Hx types; [now destruct i|].
  simpl. destruct i as [|i]; simpl in Hn.
  - injection Hn as Hy. subst y. rewrite Nat.add_0_r in Hx.
    apply Pushes_bind_l; [apply Hx|].
    intros types'. apply (Eff_Keeps _ _ _ _ (Eff_auditSections rel l (S idx) types')).
  - apply Pushes_bind_r. intros types'. apply (IH i (S idx) s Hn).
    intros t. replace (S idx + i) with (idx + S i) by lia. apply Hx.
Qed.

Lemma Keeps_after_sections (rel : string) (data : json) (types : list jsval) :
  Keeps (checkRequiredSections rel types ;;
         reportForbiddenNames rel data ;;
         reportEmptyStrings rel data).
Proof.
  apply (Eff_Keeps (fun _ => True) 0 0).
  unfold checkRequiredSections, reportForbiddenNames, reportEmptyStrings. eff.
Qed.

Lemma Pushes_reportEmptyStrings (rel : string) (data : json) (q : string) :
  StringAt data "root" q EmptyString -> startsWith q "root.sections" = true ->
  Pushes (mkIssue rel "empty-string" ("Empty string at " ++ q))
         (reportEmptyStrings rel data).
Proof.
  intros Hat Hpre st a st' H. rewrite reportEmptyStrings_push in H. injection H as _ <-.
  simpl. apply in_app_iff. right. unfold emptyStringIssues.
  apply in_map_iff. exists q. split; [reflexivity|].
  apply filter_In. split; [|exact Hpre]. now apply findEmptyStrings_In.
Qed.

(** X21: an empty [content] of a culture section and an empty [scene] of
    a dialogue section are reported twice by the audit of the unit: once
    by the validator of the section, in the category of the section, and
    once by the scan for empty strings, in the category empty-string. *)
Theorem auditUnit_empty_text_reported_twice (rel : string) (data : json)
  (sections : list json) (i : nat) (s : json) (kind name : string) (st st' : State) :
  (kind = "culture" /\ name = "content") \/ (kind = "dialogue" /\ name = "scene") ->
  field data "sections" = Some (JArr sections) ->
  nth_error sections i = Some s ->
  field s "type" = Some (JStr kind) ->
  field s name = Some (JStr EmptyString) ->
  auditUnit rel (Parsed data) st = Some (tt, st') ->
  In (mkIssue rel kind
        (sectionPrefix i kind (field s "title") ++ ": " ++ quoted name
           ++ " is an empty string"))
     (issues st')
  /\ In (mkIssue rel "empty-string"
           ("Empty string at root.sections[" ++ dec i ++ "]." ++ name))
        (issues st').
Proof.
  intros Hkind Hsec Hnth Htype Hname Hrun.
  pose proof (field_nonnull _ _ _ Hsec) as Hnn.
  assert (forall x,
             (Pushes x (auditSections rel sections 0 [])
              \/ Pushes x (reportEmptyStrings rel data)) ->
             Pushes x (auditUnit rel (Parsed data))) as Hunit.
  { intros x Hx. unfold auditUnit.
    apply Pushes_bind_r. intros _. apply Pushes_bind_r. intros _.
    apply Pushes_bind_get; [exact Hnn|]. rewrite Hsec.
    cbn [truthy isArray negb orb elements].
    destruct sections as [|y l]; [now destruct i|]. cbn [length Nat.eqb].
    destruct Hx as [Hx|Hx].
    - apply Pushes_bind_l; [exact Hx | intros types; apply Keeps_after_sections].
    - apply Pushes_bind_r. intros types. apply Pushes_bind_r. intros _.
      apply Pushes_bind_r. intros _. exact Hx. }
  split.
  - apply (fun H => Hunit _ H st tt st' Hrun). left.
    apply (Pushes_auditSections rel _ sections i 0 s Hnth). intros types. simpl.
    destruct Hkind as [[-> ->]|[-> ->]].
    + apply (Pushes_auditSection rel s i "culture"); [exact Htype | discriminate|].
      unfold dispatchSection. cbn [String.eqb Ascii.eqb Bool.eqb].
      now apply Pushes_checkCulture.
    + apply (Pushes_auditSection rel s i "dialogue"); [exact Htype | discriminate|].
      unfold dispatchSection. cbn [String.eqb Ascii.eqb Bool.eqb].
      now apply Pushes_checkDialogue.
  - apply (fun H => Hunit _ H st tt st' Hrun). right.
    destruct (field_nth_error _ _ _ Hsec) as [fields [n [-> Hn]]].
    destruct (field_nth_error _ _ _ Hname) as [sfields [m [-> Hm]]].
    apply Pushes_reportEmptyStrings.
    + apply (AtField fields n "sections" (JArr sections) _ _ _ Hn).
      apply (AtItem sections i (JObj sfields) _ _ _ Hnth).
      apply (AtField sfields m name (JStr EmptyString) _ _ _ Hm).
      rewrite (section_path i name). apply AtHere.
    + reflexivity.
Qed.

(** ** The summary of the issues by category *)

Lemma bump_keys_In (k k0 : string) (m : Counts) :
  In k0 (map fst (bump k m)) <-> k0 = k \/ In k0 (map fst m).
Proof.
  induction m as [|[k' n] rest IH]; simpl.
  - intuition.
  - destruct (k' =? k) eqn:E; simpl.
    + apply String.eqb_eq in E. subst k'. intuition.
    + rewrite IH. intuition.
Qed.

Lemma bump_NoDup (k : string) (m : Counts) :
  NoDup (map fst m) -> NoDup (map fst (bump k m)).
Proof.
  induction m as [|[k' n] rest IH]; simpl; intros Hnd.
  - repeat constructor. simpl. tauto.
  - inversion Hnd as [|? ? Hnotin Hnd']; subst.
    destruct (k' =? k) eqn:E; simpl.
    + now constructor.
    + constructor; [|now apply IH].
      rewrite bump_keys_In. intros [->|H]; [|contradiction].
      now rewrite String.eqb_refl in E.
Qed.

Lemma ownCount_bump (k k0 : string) (m : Counts) :
  ownCount k0 (bump k m)
  = if k =? k0 then Some (S (match ownCount k m with Some n => n | None => 0 end))
    else ownCount k0 m.
Proof.
  induction m as [|[k' n] rest IH]; simpl.
  - destruct (k =? k0); reflexivity.
  - destruct (k' =? k) eqn:E; simpl.
    + apply String.eqb_eq in E. subst k'. destruct (k =? k0); reflexivity.
    + destruct (k' =? k0) eqn:E0.
      * apply String.eqb_eq in E0. subst k'. now rewrite String.eqb_sym, E.
      * exact IH.
Qed.

Lemma bump_sum (k : string) (m : Counts) :
  list_sum (map snd (bump k m)) = S (list_sum (map snd m)).
Proof.
  induction m as [|[k' n] rest IH]; simpl; [reflexivity|].
  destruct (k' =? k); simpl; [reflexivity|]. rewrite IH. lia.
Qed.

Lemma bySectionType_counts (todo : list Issue) :
  forall (done : list Issue) (m : Counts),
    NoDup (map fst m) ->
    (forall k, ownCount k m
               = if Nat.eqb (countCategory k done) 0 then None
                 else Some (countCategory k done)) ->
    list_sum (map snd m) = length done ->
    let m' := fold_left (fun m issue => bump (sectionType issue) m) todo m in
    NoDup (map fst m')
    /\ (forall k, ownCount k m'
                  = if Nat.eqb (countCategory k (done ++ todo)) 0 then None
                    else Some (countCategory k (done ++ todo)))
    /\ list_sum (map snd m') = length (done ++ todo).
Proof.
  induction todo as [|x todo IH]; intros done m Hnd Hcount Hsum; cbv zeta.
  - simpl. now rewrite app_nil_r.
  - simpl. change (x :: todo) with ([x] ++ todo)%list. rewrite app_assoc.
    apply IH.
    + now apply bump_NoDup.
    + intros k. rewrite ownCount_bump, (Hcount (sectionType x)), (Hcount k).
      unfold countCategory. rewrite !filter_app, !length_app. simpl.
      destruct (sectionType x =? k) eqn:E.
      * apply String.eqb_eq in E. subst k. simpl.
        rewrite Nat.add_1_r. cbn [Nat.eqb].
        destruct (Nat.eqb (length (filter (fun y => sectionType y =? sectionType x) done)) 0)
          eqn:E0; [apply Nat.eqb_eq in E0; now rewrite E0 | reflexivity].
      * simpl. now rewrite Nat.add_0_r.
    + rewrite bump_sum, Hsum, length_app. simpl. lia.
Qed.

Lemma insertByCount_perm (x : string * nat) (l : Counts) :
  Permutation (insertByCount x l) (x :: l).
Proof.
  induction l as [|y l IH]; simpl; [reflexivity|].
  destruct (Nat.leb (snd y) (snd x)); [reflexivity|].
  rewrite IH. apply perm_swap.
Qed.

Lemma sortByCount_perm (l : Counts) : Permutation (sortByCount l) l.
Proof.
  induction l as [|x l IH]; simpl; [reflexivity|].
  rewrite insertByCount_perm. now constructor.
Qed.

Lemma sortByCount_sorted (l : Counts) :
  StronglySorted (fun a b => snd b <= snd a) (sortByCount l).
Proof.
  induction l as [|x l IH]; simpl; [constructor|].
  induction IH as [|y s Hs IHs Hy]; simpl; [repeat constructor|].
  destruct (Nat.leb (snd y) (snd x)) eqn:E.
  - apply Nat.leb_le in E. constructor; [now constructor|].
    constructor; [exact E|]. eapply Forall_impl; [|exact Hy]. intros z Hz. simpl in Hz. lia.
  - apply Nat.leb_gt in E. constructor; [exact IHs|].
    rewrite (insertByCount_perm x s). constructor; [lia | exact Hy].
Qed.

Lemma ownCount_In (m : Counts) (k : string) (n : nat) :
  NoDup (map fst m) -> (In (k, n) m <-> ownCount k m = Some n).
Proof.
  induction m as [|[k' n'] rest IH]; simpl; intros Hnd.
  - split; [intros [] | discriminate].
  - inversion Hnd as [|? ? Hnotin Hnd']; subst.
    destruct (k' =? k) eqn:E.
    + apply String.eqb_eq in E. subst k'. split.
      * intros [[= ->]|Hin]; [reflexivity|].
        destruct Hnotin. now apply (in_map fst) in Hin.
      * intros [= ->]. now left.
    + rewrite <- (IH Hnd'). split; [|tauto].
      intros [[= -> _]|Hin]; [|exact Hin]. now rewrite String.eqb_refl in E.
Qed.

Lemma list_sum_Permutation (l l' : list nat) :
  Permutation l l' -> list_sum l = list_sum l'.
Proof.
  induction 1 as [|x l l' _ IH|x y l|l l' l'' _ IH1 _ IH2]; simpl; try lia.
Qed.

Lemma unitIssues_category (f : UnitPath * ParseResult) :
  Forall (fun x => In (sectionType x) allCategories) (unitIssues f).
Proof.
  unfold unitIssues. destruct f as [p [message|data]]; cbn [fst snd].
  - cbn [auditUnit addIssue issues initialState app]. constructor; [now left | constructor].
  - destruct (auditUnit (relPath p) (Parsed data) initialState) as [[a d]|] eqn:E;
      [|constructor].
    destruct (Eff_auditUnit _ _ _ _ _ E) as [l [Hi [Hall _]]]. simpl in Hi. rewrite Hi.
    eapply Forall_impl; [|exact Hall]. intros x [_ Hx]. now right.
Qed.

(** X22: in a run that completes, the lines of the summary by category
    add up: every category that has an issue gets one line with the
    number of its issues, no other line is printed, the counts sum to the
    number of issues, the lines come in descending order of count, and
    every category printed is one of the eleven the audit uses. *)
Theorem categoryLines_add_up (disk : list (UnitPath * ParseResult)) (tsRefs : list Ref)
  (report : Report) :
  runAudit disk tsRefs = Some report ->
  NoDup (map fst (categoryLines (issues (finalState report))))
  /\ (forall k n,
         In (k, n) (categoryLines (issues (finalState report)))
         <-> n = countCategory k (issues (finalState report)) /\ 0 < n)
  /\ list_sum (map snd (categoryLines (issues (finalState report))))
     = length (issues (finalState report))
  /\ StronglySorted (fun a b => snd b <= snd a)
       (categoryLines (issues (finalState report)))
  /\ forall k n, In (k, n) (categoryLines (issues (finalState report))) ->
                 In k allCategories.
Proof.
  intros Hrun.
  assert (Forall (fun x => In (sectionType x) allCategories) (issues (finalState report)))
    as Hcat.
  { unfold runAudit in Hrun. pose proof (forOf_auditUnit disk initialState) as H.
    destruct (forOf _ disk initialState) as [[a st']|]; [|discriminate].
    injection Hrun as <-. destruct H as [Hi _]. simpl in Hi. cbn [finalState]. rewrite Hi.
    apply Forall_forall. intros x Hx. apply in_flat_map in Hx as [f [_ Hx]].
    pose proof (unitIssues_category f) as Hall. rewrite Forall_forall in Hall.
    now apply Hall. }
  set (l := issues (finalState report)) in *.
  destruct (bySectionType_counts l [] []) as [Hnd [Hcount Hsum]];
    [constructor | reflexivity | reflexivity |].
  cbn [app] in Hcount, Hsum. fold (bySectionType l) in Hnd, Hcount, Hsum.
  pose proof (sortByCount_perm (bySectionType l)) as Hperm.
  assert (forall k n, In (k, n) (categoryLines l)
                      <-> n = countCategory k l /\ 0 < n) as Hlines.
  { intros k n. unfold categoryLines. split.
    - intros Hin. apply (Permutation_in _ Hperm) in Hin.
      apply (ownCount_In _ _ _ Hnd) in Hin. rewrite Hcount in Hin.
      destruct (Nat.eqb (countCategory k l) 0) eqn:E; [discriminate|].
      apply Nat.eqb_neq in E. injection Hin as <-. split; [reflexivity | lia].
    - intros [-> Hpos]. apply (Permutation_in _ (Permutation_sym Hperm)).
      apply (ownCount_In _ _ _ Hnd). rewrite Hcount.
      destruct (Nat.eqb (countCategory k l) 0) eqn:E; [|reflexivity].
      apply Nat.eqb_eq in E. lia. }
  split; [|split; [|split; [|split]]].
  - unfold categoryLines.
    apply (Permutation_NoDup (l := map fst (bySectionType l)));
      [apply Permutation_map; now symmetry | exact Hnd].
  - exact Hlines.
  - unfold categoryLines. rewrite <- Hsum.
    apply list_sum_Permutation. now apply Permutation_map.
  - apply sortByCount_sorted.
  - intros k n Hin. apply Hlines in Hin as [-> Hpos]. unfold countCategory in Hpos.
    destruct (filter (fun x => sectionType x =? k) l) as [|x r] eqn:E; [simpl in Hpos; lia|].
    assert (In x (filter (fun x => sectionType x =? k) l)) as Hx by (rewrite E; now left).
    apply filter_In in Hx as [Hx Hk]. apply String.eqb_eq in Hk. subst k.
    rewrite Forall_forall in Hcat. now apply Hcat.
Qed.

(** ** The documents on which the audit throws *)

Lemma hasNull_false (l : list json) (x : json) :
  hasNull l = false -> In x l -> x <> JNull.
Proof.
  intros H Hin ->. unfold hasNull in H.
  assert (existsb isNull l = true) as E by (apply existsb_exists; now exists JNull).
  congruence.
Qed.

Lemma hasNull_true (v : jsval) :
  hasNull (elements v) = true ->
  exists l, v = Some (JArr l) /\ In JNull l /\ Nat.eqb (length l) 0 = false.
Proof.
  destruct v as [[| | | |l|]|]; simpl; try discriminate.
  unfold hasNull. intros H. apply existsb_exists in H as [x [Hx Hn]].
  destruct x; try discriminate.
  exists l. split; [reflexivity|]. split; [exact Hx|]. now destruct l.
Qed.

Lemma Runs_forEach_hasNull (f : json -> nat -> M unit) (l : list json) :
  hasNull l = false -> (forall x i, x <> JNull -> Runs (f x i)) -> Runs (forEach f l).
Proof.
  intros H Hf. apply Runs_forEach. intros x i Hx. apply Hf, (hasNull_false l x H Hx).
Qed.

Lemma forEach_null (f : json -> nat -> M unit) (l : list json) :
  (forall i st, f JNull i st = None) -> In JNull l ->
  forall st, forEach f l st = None.
Proof.
  intros Hf. unfold forEach.
  match goal with
  | |- _ -> forall st, ?go 0 l st = None =>
      assert (forall i, In JNull l -> forall st, go i l st = None) as H; [|apply H]
  end.
  induction l as [|x l IH]; intros i Hin st; [destruct Hin|].
  destruct Hin as [->|Hin].
  - apply bind_None_l. apply Hf.
  - apply bind_None. intros _ st'. now apply IH.
Qed.

(** The three tests on a list that has an element pass. *)
Lemma list_guard_passes {A} (l : list json) (a b c e : A) :
  Nat.eqb (length l) 0 = false ->
  (if negb (truthy (Some (JArr l))) then a
   else if negb (isArray (Some (JArr l))) then b
   else if Nat.eqb (length (elements (Some (JArr l)))) 0 then c else e) = e.
Proof. intros H. simpl. now rewrite H. Qed.

Lemma dispatchSection_throws (rel : string) (section : json) (idx : nat) (kind : string)
  (st : State) :
  section <> JNull -> In kind listKinds ->
  hasNull (elements (field section (listField kind))) = true ->
  dispatchSection rel section idx (Some (JStr kind)) st = None.
Proof.
  intros Hnn Hkind Hnull. unfold listKinds in Hkind. simpl in Hkind.
  destruct Hkind as [<-|[<-|[<-|[<-|[<-|[]]]]]];
    unfold dispatchSection; cbn [String.eqb Ascii.eqb Bool.eqb];
    change (listField "vocab") with "items" in *;
    change (listField "dialogue") with "lines" in *;
    change (listField "grammar") with "points" in *;
    change (listField "flashcards") with "cards" in *;
    change (listField "quiz") with "questions" in *;
    apply hasNull_true in Hnull as [l [Hl [Hin Hlen]]].
  - unfold checkVocab. run_get Hnn. cbv zeta. rewrite Hl, (list_guard_passes _ _ _ _ _ Hlen).
    now apply forEach_null.
  - unfold checkDialogue. run_get Hnn. cbv zeta.
    rewrite (bind_Some _ _ _ _ _ (when_push _ _ _ _ _)).
    rewrite (bind_Some _ _ _ _ _ (when_push _ _ _ _ _)).
    run_get Hnn. rewrite Hl, (list_guard_passes _ _ _ _ _ Hlen).
    now apply forEach_null.
  - unfold checkGrammar. run_get Hnn. cbv zeta. rewrite Hl, (list_guard_passes _ _ _ _ _ Hlen).
    now apply forEach_null.
  - unfold checkFlashcards. run_get Hnn. cbv zeta.
    rewrite Hl, (list_guard_passes _ _ _ _ _ Hlen).
    apply bind_None_l. now apply forEach_null.
  - unfold checkQuiz. run_get Hnn. cbv zeta. rewrite Hl, (list_guard_passes _ _ _ _ _ Hlen).
    now apply forEach_null.
Qed.

Lemma Runs_dispatchSection_lists (rel : string) (section : json) (idx : nat)
  (sType : jsval) :
  section <> JNull ->
  (forall kind, sType = Some (JStr kind) -> In kind listKinds ->
                hasNull (elements (field section (listField kind))) = false) ->
  Runs (dispatchSection rel section idx sType).
Proof.
  intros Hs H. unfold dispatchSection.
  destruct sType as [[| | |s| |]|]; try apply Runs_addIssue.
  destruct (s =? "vocab") eqn:E1.
  { apply String.eqb_eq in E1. subst s.
    pose proof (H "vocab" eq_refl ltac:(simpl; tauto)) as Hn.
    change (listField "vocab") with "items" in Hn.
    unfold checkVocab. runs. apply Runs_forEach_hasNull; [exact Hn|].
    intros x i Hx. unfold checkVocabItem. runs. }
  destruct (s =? "dialogue") eqn:E2.
  { apply String.eqb_eq in E2. subst s.
    pose proof (H "dialogue" eq_refl ltac:(simpl; tauto)) as Hn.
    change (listField "dialogue") with "lines" in Hn.
    unfold checkDialogue. runs; apply Runs_forEach_hasNull; try exact Hn;
      intros x i Hx; unfold checkDialogueLine; runs. }
  destruct (s =? "grammar") eqn:E3.
  { apply String.eqb_eq in E3. subst s.
    pose proof (H "grammar" eq_refl ltac:(simpl; tauto)) as Hn.
    change (listField "grammar") with "points" in Hn.
    unfold checkGrammar. runs. apply Runs_forEach_hasNull; [exact Hn|].
    intros x i Hx. unfold checkGrammarPoint. runs. }
  destruct (s =? "flashcards") eqn:E4.
  { apply String.eqb_eq in E4. subst s.
    pose proof (H "flashcards" eq_refl ltac:(simpl; tauto)) as Hn.
    change (listField "flashcards") with "cards" in Hn.
    unfold checkFlashcards, checkFlashcardsDuplicates. runs.
    - apply Runs_forEach_hasNull; [exact Hn|].
      intros x i Hx. unfold checkFlashcardsCard. runs.
    - apply Runs_mapM. intros x Hx.
      pose proof (hasNull_false _ x Hn Hx) as Hx0.
      unfold cardFront. runs. }
  destruct (s =? "quiz") eqn:E5.
  { apply String.eqb_eq in E5. subst s.
    pose proof (H "quiz" eq_refl ltac:(simpl; tauto)) as Hn.
    change (listField "quiz") with "questions" in Hn.
    unfold checkQuiz. runs. apply Runs_forEach_hasNull; [exact Hn|].
    intros x i Hx.
    unfold checkQuizItem, checkQuizQuestion, checkQuizOptions, checkQuizCorrect,
      checkQuizExplanation.
    runs. }
  destruct (s =? "culture"); [|apply Runs_addIssue].
  unfold checkCulture. runs.
Qed.

Lemma auditSection_throws (rel : string) (section : json) (idx : nat)
  (types : list jsval) (st : State) :
  sectionThrows section = true -> auditSection rel section idx types st = None.
Proof.
  unfold sectionThrows. intros H. apply orb_true_iff in H as [H|H].
  - destruct section; try discriminate. reflexivity.
  - destruct (field section "type") as [[| | |kind| |]|] eqn:Et; try discriminate.
    apply andb_true_iff in H as [Hk Hn]. apply inb_In in Hk.
    pose proof (field_nonnull _ _ _ Et) as Hnn.
    unfold auditSection. unfold bind at 1. cbn [incrSections].
    rewrite (bind_Some _ _ _ _ _ (get_nonnull _ _ _ Hnn)). cbv zeta. rewrite Et.
    assert (truthy (Some (JStr kind)) = true) as ->.
    { unfold listKinds in Hk. simpl in Hk.
      destruct Hk as [<-|[<-|[<-|[<-|[<-|[]]]]]]; reflexivity. }
    cbn [negb]. apply bind_None_l. now apply dispatchSection_throws.
Qed.

Lemma Runs_auditSection_exact (rel : string) (section : json) (idx : nat)
  (types : list jsval) :
  sectionThrows section = false -> Runs (auditSection rel section idx types).
Proof.
  unfold sectionThrows. intros H. apply orb_false_iff in H as [Hnull H].
  assert (section <> JNull) as Hnn by (intros ->; discriminate).
  unfold auditSection.
  apply Runs_bind; [apply Runs_incrSections | intros _].
  apply Runs_bind_get; [exact Hnn|]. cbv zeta.
  destruct (negb (truthy (field section "type"))).
  - apply Runs_bind; [apply Runs_addIssue | intros _; apply Runs_ret].
  - apply Runs_bind; [|intros _; apply Runs_ret].
    apply Runs_dispatchSection_lists; [exact Hnn|].
    intros kind Hk Hin. rewrite Hk in H. apply inb_In in Hin. rewrite Hin in H. exact H.
Qed.

Lemma auditSections_throws (rel : string) (sections : list json) :
  existsb sectionThrows sections = true ->
  forall idx types st, auditSections rel sections idx types st = None.
Proof.
  induction sections as [|x l IH]; intros H idx types st; [discriminate|].
  simpl in H. simpl. destruct (sectionThrows x) eqn:E.
  - apply bind_None_l. now apply auditSection_throws.
  - apply bind_None. intros types' st'. now apply IH.
Qed.

Lemma Runs_auditSections_exact (rel : string) (sections : list json) :
  existsb sectionThrows sections = false ->
  forall idx types, Runs (auditSections rel sections idx types).
Proof.
  induction sections as [|x l IH]; intros H idx types; simpl; [apply Runs_ret|].
  simpl in H. apply orb_false_iff in H as [Hx Hl].
  apply Runs_bind; [now apply Runs_auditSection_exact | intros types'; now apply IH].
Qed.


End Audit.

(** * The properties on concrete documents *)

(** The passing unit is audited without any issue. *)
Lemma auditUnit_no_issue_witness :
  auditUnit integerToString sampleRel (Parsed (encodeUnit sampleUnit)) initialState
  = Some (tt, mkState [] 1 5).
Proof.
  exact (auditUnit_no_issue integerToString sampleRel sampleUnit initialState eq_refl).
Defined.

(** A unit that satisfies the invariants of the specification, with a
    vocabulary item that has no example, gets two issues; so do, each for
    its own reason, other units that satisfy those invariants. *)
Lemma auditUnit_optional_example_flagged :
  specWellFormed optionalExampleUnit = true
  /\ auditUnit integerToString sampleRel (Parsed (encodeUnit optionalExampleUnit))
       initialState
     = Some (tt, mkState
                   [mkIssue sampleRel "vocab"
                      ("sections[0] (vocab " ++ quoted "單字" ++ "): items[0] missing "
                         ++ quoted "example" ++ " (japanese: " ++ quoted "ありがとう" ++ ")");
                    mkIssue sampleRel "vocab"
                      ("sections[0] (vocab " ++ quoted "單字" ++ "): items[0] missing "
                         ++ quoted "exampleChinese" ++ " (japanese: "
                         ++ quoted "ありがとう" ++ ")")]
                   1 5)
  /\ specWellFormed cultureOnlyUnit = true
  /\ issueCategories integerToString (encodeUnit cultureOnlyUnit)
     = Some ["missing-section"; "missing-section"; "missing-section";
             "missing-section"; "missing-section"]
  /\ specWellFormed forbiddenTitleUnit = true
  /\ issueCategories integerToString (encodeUnit forbiddenTitleUnit)
     = Some ["forbidden-name"]
  /\ specWellFormed emptySectionTitleUnit = true
  /\ issueCategories integerToString (encodeUnit emptySectionTitleUnit)
     = Some ["empty-string"]
  /\ specWellFormed emptyVocabUnit = true
  /\ issueCategories integerToString (encodeUnit emptyVocabUnit) = Some ["vocab"]
  /\ specWellFormed constructorCardUnit = true
  /\ issueCategories integerToString (encodeUnit constructorCardUnit)
     = Some ["flashcards"].
Proof. repeat split; vm_compute; reflexivity. Qed.

(** One audited unit, matching the manifest: the run passes. *)
Lemma runAudit_verdict_witness :
  exists report,
    runAudit integerToString sampleDisk sampleRefs = Some report
    /\ verdict report = PASS
    /\ verdict report = finalVerdict (issues (finalState report)) (crossIssues report)
    /\ crossIssues report = length (findings report).
Proof.
  eexists. split; [vm_compute; reflexivity|]. split; [reflexivity|].
  apply (proj2 (finalVerdict_fail_iff_problems integerToString) sampleDisk sampleRefs).
  vm_compute. reflexivity.
Defined.


Lemma four_not_in_range : ~ numberInRange (Some (JNum 4)).
Proof.
  intros [x [Hx [_ H3]]]. injection Hx as <-. unfold Qle in H3. simpl in H3. lia.
Qed.





(** Without [sections] the unit gets two issues, and the audit stops. *)
Lemma auditUnit_sections_not_array_witness :
  auditUnit integerToString sampleRel (Parsed noSectionsDocument) initialState
  = Some (tt, mkState
                [mkIssue sampleRel "general"
                   ("Missing top-level field: " ++ quoted "sections");
                 mkIssue sampleRel "general" cannotContinue]
                1 0).
Proof.
  exact (proj1 (auditUnit_sections_not_array integerToString sampleRel noSectionsDocument
                  initialState ltac:(discriminate) eq_refl)).
Defined.

(** A document whose [sections] is absent gets two issues, not one. *)
Lemma auditUnit_missing_sections_two_issues :
  field noSectionsDocument "sections" = None
  /\ exists st',
      auditUnit integerToString sampleRel (Parsed noSectionsDocument) initialState
      = Some (tt, st')
      /\ length (issues st') = 2.
Proof. split; [reflexivity|]. eexists. split; [vm_compute; reflexivity | reflexivity]. Qed.



(** C6 at a failing input: a unit that passes every other check and has
    one more top-level field, [sectionsNote], holding the empty string.
    The scanner finds that string only, at a path outside the [sections]
    subtree, and [auditUnit] reports it as an [empty-string] issue because
    its path starts with [root.sections]. *)
Theorem auditUnit_reports_field_named_like_sections :
  findEmptyStrings sectionsNoteDocument "root" [] = ["root.sectionsNote"]
  /\ field sectionsNoteDocument "sections"
     = Some (JArr (map encodeSection (sampleSections sampleItem)))
  /\ auditUnit integerToString sampleRel (Parsed sectionsNoteDocument) initialState
     = Some (tt, mkState [mkIssue sampleRel "empty-string"
                            "Empty string at root.sectionsNote"] 1 5).
Proof. repeat split; vm_compute; reflexivity. Qed.

(** One card named [constructor] is reported as a duplicate of itself. *)
Lemma checkFlashcards_flags_prototype_names_witness :
  checkFlashcardsDuplicates integerToString "P" "F" [constructorCard] initialState
  = Some (tt, mkState [duplicateIssue integerToString "P" "F" (Some (JStr "constructor"))]
                      0 0).
Proof.
  exact (checkFlashcards_flags_prototype_names integerToString "P" "F" constructorCard
           initialState ltac:(discriminate) eq_refl eq_refl).
Defined.


(** A [null] unit after a passing one: the run ends without a verdict. *)
Lemma runAudit_null_document_throws_witness :
  runAudit integerToString (sampleDisk ++ [(mkUnitPath "ch1" "unit2.json", Parsed JNull)])
    sampleRefs
  = None.
Proof.
  apply (proj2 (runAudit_null_document_throws integerToString sampleRel initialState
                  sampleDisk [] (mkUnitPath "ch1" "unit2.json") sampleRefs)).
  eexists. vm_compute. reflexivity.
Defined.

(** The file [ch3/unit9.json] and the manifest entry of unit9 in chapter 3
    have the same key. *)
Lemma actualKey_matches_refKey_witness :
  actualKey (mkUnitPath "ch3" "unit9.json") = "ch3/unit9"
  /\ refKey (mkRef 3 "unit9") = actualKey (mkUnitPath "ch3" "unit9.json").
Proof.
  destruct (actualKey_matches_refKey "ch3" "9" 3 "unit9" eq_refl eq_refl) as [Hk Hm].
  split; [exact Hk | apply Hm; split; reflexivity].
Defined.

(** The audit of the unit with an empty vocabulary list, from the initial
    state: what it adds is of that file, one unit and five sections. *)
Lemma auditUnit_appends_own_issues_witness :
  exists st' added,
    auditUnit integerToString sampleRel (Parsed (encodeUnit emptyVocabUnit)) initialState
    = Some (tt, st')
    /\ issues st' = (issues initialState ++ added)%list
    /\ Forall (fun x => file x = sampleRel /\ In (sectionType x) auditCategories) added
    /\ totalUnitsChecked st' = S (totalUnitsChecked initialState)
    /\ totalSectionsChecked st'
       = totalSectionsChecked initialState
         + sectionCount (encodeUnit emptyVocabUnit).
Proof.
  assert (exists st',
             auditUnit integerToString sampleRel (Parsed (encodeUnit emptyVocabUnit))
               initialState = Some (tt, st')) as [st' E].
  { eexists. vm_compute. reflexivity. }
  destruct (auditUnit_appends_own_issues integerToString sampleRel
              (encodeUnit emptyVocabUnit) initialState st' E) as [added H].
  exists st', added. split; assumption.
Defined.

(** Three files, two of them with one issue each: the file that passes has
    no group, the file that is not JSON has a group of one issue. *)
Lemma groupByFile_groups_file_audits_witness :
  exists report byFile,
    runAudit integerToString mixedDisk sampleRefs = Some report
    /\ groupByFile (issues (finalState report)) [] = Some byFile
    /\ ownGroup "src/data/ch1/unit1.json" byFile = None
    /\ ownGroup "src/data/ch2/unit1.json" byFile
       = Some [mkIssue "src/data/ch2/unit1.json" "parse"
                 "Failed to parse JSON: Unexpected end of JSON input"].
Proof.
  assert (exists report, runAudit integerToString mixedDisk sampleRefs = Some report)
    as [report Hrun].
  { eexists. vm_compute. reflexivity. }
  assert (NoDup (map (fun f => relPath (fst f)) mixedDisk)) as Hnd.
  { repeat constructor; simpl; intuition discriminate. }
  destruct (groupByFile_groups_file_audits integerToString mixedDisk sampleRefs report
              Hnd Hrun) as [byFile [Hg [Hfiles _]]].
  exists report, byFile. split; [exact Hrun|]. split; [exact Hg|]. split.
  - apply (Hfiles (mkUnitPath "ch1" "unit1.json", Parsed (encodeUnit sampleUnit))).
    simpl. tauto.
  - apply (Hfiles (mkUnitPath "ch2" "unit1.json",
                   ParseError "Unexpected end of JSON input")).
    simpl. tauto.
Defined.

Lemma below_two_to_53 (n : nat) : n < 128 -> n < 2 ^ 53.
Proof.
  intros H. apply Nat.lt_le_trans with (2 ^ 7).
  - exact H.
  - apply Nat.pow_le_mono_r; lia.
Qed.

(** Chapters 1, 2 and 10 with units 1, 2 and 10: the files come out in
    the order of the numbers, not of the names. *)
Lemma discoverUnitFiles_sorted_matching_files_witness :
  discoverUnitFiles (Some sampleDataDir) sampleReaddir
  = Some [mkUnitPath "ch1" "unit1.json"; mkUnitPath "ch1" "unit2.json";
          mkUnitPath "ch1" "unit10.json"; mkUnitPath "ch2" "unit1.json"]
  /\ StronglySorted discoveryOrder
       [mkUnitPath "ch1" "unit1.json"; mkUnitPath "ch1" "unit2.json";
        mkUnitPath "ch1" "unit10.json"; mkUnitPath "ch2" "unit1.json"]
  /\ NoDup ["src/data/ch1/unit1.json"; "src/data/ch1/unit2.json";
            "src/data/ch1/unit10.json"; "src/data/ch2/unit1.json"].
Proof.
  assert (forall ch names, sampleReaddir ch = Some names ->
            names = ["unit10.json"; "unit2.json"; "notes.txt"; "unit1.json"]
            \/ names = ["unit1.json"] \/ names = []) as Hlist.
  { intros ch names. unfold sampleReaddir.
    destruct (ch =? "ch1"); [intros [= <-]; tauto|].
    destruct (ch =? "ch2"); [intros [= <-]; tauto|].
    destruct (ch =? "ch10"); [intros [= <-]; tauto | discriminate]. }
  destruct (discoverUnitFiles_sorted_matching_files sampleDataDir sampleReaddir)
    as [_ H].
  - repeat constructor; simpl; intuition discriminate.
  - intros ch names Hn.
    destruct (Hlist ch names Hn) as [->|[->| ->]];
      repeat constructor; simpl; intuition discriminate.
  - intros ch Hin _. simpl in Hin.
    destruct Hin as [<-|[<-|[<-|[<-|[]]]]];
      match goal with
      | |- chapterNumber ?s < _ =>
          let n := eval vm_compute in (chapterNumber s) in
          change (chapterNumber s) with n
      end; apply below_two_to_53; lia.
  - intros ch names u Hn Hu Hunit.
    destruct (Hlist ch names Hn) as [->|[->| ->]]; simpl in Hu;
      repeat (destruct Hu as [<-|Hu]); try contradiction; try discriminate;
      match goal with
      | |- unitNumber ?s < _ =>
          let n := eval vm_compute in (unitNumber s) in
          change (unitNumber s) with n
      end; apply below_two_to_53; lia.
  - split; [reflexivity|]. destruct (H _ eq_refl) as [_ [Hnd Hsorted]].
    split; [exact Hsorted | exact Hnd].
Defined.

(** The module under [./ch01/unit1.json] is listed as unit1 of chapter 1,
    and [loadUnit(1, 'unit1')] does not find it. *)
Lemma getAllUnits_loadUnit_witness :
  getAllUnits leadingZeroModules = [mkUnitEntry 1 "unit1" "打招呼"]
  /\ In (mkUnitEntry 1 "unit1" "打招呼") (getAllUnits leadingZeroModules)
  /\ loadUnit leadingZeroModules 1 "unit1" = None.
Proof.
  destruct (getAllUnits_loadUnit leadingZeroModules "01" "1" "打招呼")
    as [Hin [_ Hnone]].
  - repeat constructor. simpl. tauto.
  - reflexivity.
  - reflexivity.
  - change (parseInt "01") with 1. apply below_two_to_53. lia.
  - simpl. tauto.
  - split; [reflexivity|]. split; [exact Hin|].
    apply Hnone. intros d [H|[]]. discriminate.
Defined.

(** The query [KO] on the sample index: two groups, in the order of their
    first entries; the first unit has four entries that include [ko] and
    shows three. *)
Lemma searchResults_groups_witness :
  map resultKey (searchResults asciiToLowerCase sampleIndex "KO") = ["1-unit1"; "2-unit1"]
  /\ NoDup (map (fun g => (grChapterId g, grUnitId g))
              (searchResults asciiToLowerCase sampleIndex "KO"))
  /\ map (fun g => length (grMatches g)) (searchResults asciiToLowerCase sampleIndex "KO")
     = [3; 1].
Proof.
  destruct (searchResults_groups asciiToLowerCase sampleIndex "KO") as [_ H].
  destruct (H ltac:(discriminate)) as [Hkeys [Hnd _]].
  split; [|split].
  - rewrite Hkeys. reflexivity.
  - exact Hnd.
  - reflexivity.
Defined.

(** The vocabulary item is found by its romaji in capitals, under the
    numbered chapter title; the card of the flashcards section is not
    indexed, so its text finds nothing. *)
Lemma searchResults_of_built_index_witness :
  (exists g,
      In g (searchResults asciiToLowerCase
              (buildSearchIndex asciiToLowerCase sampleChapters sampleAllUnits)
              "KONNICHIWA")
      /\ grChapterId g = 2 /\ grUnitId g = "unit1")
  /\ searchResults asciiToLowerCase
       (buildSearchIndex asciiToLowerCase sampleChapters sampleAllUnits) "KONNICHIWA"
     = [mkGroupedResult 2 "第2章" "unit1" "打招呼"
          [mkSearchMatch VocabEntry "こんにちは（こんにちは）— 你好"]]
  /\ searchResults asciiToLowerCase
       (buildSearchIndex asciiToLowerCase sampleChapters sampleAllUnits) "arigatou"
     = [].
Proof.
  destruct (searchResults_of_built_index asciiToLowerCase sampleChapters sampleAllUnits
              "KONNICHIWA" ltac:(discriminate)) as [Hfound _].
  split; [|split; reflexivity].
  apply (Hfound 2 "unit1").
  exists (mkUnitEntry 2 "unit1" sampleUnitData).
  eexists. split; [now left|]. split; [reflexivity|]. split; [reflexivity|].
  split; [left; reflexivity | reflexivity].
Defined.

(** One question; the user answers, asks for the result, clicks where no
    button is, restarts and answers again. *)
Lemma quizRun_invariant_witness :
  exists st,
    quizRun [sampleQuestion] (Some "unit1") true
      [ClickOption 0; ClickNext; ClickNext; ClickOption 2; ClickRestart; ClickOption 1]
      initialQuiz = Some st
    /\ currentQ st < 1
    /\ score st <= 1.
Proof.
  destruct (quizRun_invariant [sampleQuestion] (Some "unit1") true
              [ClickOption 0; ClickNext; ClickNext; ClickOption 2; ClickRestart;
               ClickOption 1])
    as [st [Hrun [Hk [_ [Hs _]]]]].
  - discriminate.
  - exists st. split; [exact Hrun|]. split; [exact Hk | exact Hs].
Defined.


(** Two cards; swipes and clicks faster than the timers: the index ends
    on a card. *)
Lemma flashRun_card_exists_witness :
  currentIndex
    (flashRun 2
       [TouchStartEvent; TouchEndEvent SwipeLeft; ClickNextButton; ClickPrevButton;
        TimerFires; ClickNextButton; TimerFires; TimerFires]
       initialFlash) < 2.
Proof.
  apply (flashRun_card_exists [sampleItem; sampleCard]
           [TouchStartEvent; TouchEndEvent SwipeLeft; ClickNextButton; ClickPrevButton;
            TimerFires; ClickNextButton; TimerFires; TimerFires]).
  discriminate.
Defined.

(** Five cards, the second one shown: three quick clicks on next lead to
    the third card; next then previous leads to the first. *)
Lemma flashRun_clicks_before_timer_witness :
  flashRun 5
    [ClickNextButton; ClickNextButton; ClickNextButton; TimerFires; TimerFires; TimerFires]
    (mkFlashState 1 true false [])
  = mkFlashState 2 false false []
  /\ flashRun 5 [ClickNextButton; ClickPrevButton; TimerFires; TimerFires]
       (mkFlashState 1 true false [])
     = mkFlashState 0 false false [].
Proof.
  destruct (flashRun_clicks_before_timer 5 1 2 true false ltac:(simpl; lia)) as [H1 H2].
  split; [exact H1 | apply H2; lia].
Defined.


(** A unit whose only section is a culture section with an empty
    [content]: the empty text is reported in two categories. *)
Lemma auditUnit_empty_text_reported_twice_witness :
  exists st',
    auditUnit integerToString sampleRel (Parsed emptyContentDocument) initialState
    = Some (tt, st')
    /\ In (mkIssue sampleRel "culture"
             ("sections[0] (culture " ++ quoted "文化" ++ "): " ++ quoted "content"
                ++ " is an empty string"))
          (issues st')
    /\ In (mkIssue sampleRel "empty-string" "Empty string at root.sections[0].content")
          (issues st').
Proof.
  assert (exists st',
             auditUnit integerToString sampleRel (Parsed emptyContentDocument)
               initialState = Some (tt, st')) as [st' Hrun].
  { eexists. vm_compute. reflexivity. }
  exists st'. split; [exact Hrun|].
  exact (auditUnit_empty_text_reported_twice integerToString sampleRel
           emptyContentDocument [emptyContentSection] 0 emptyContentSection
           "culture" "content" initialState st'
           (or_introl (conj eq_refl eq_refl)) eq_refl eq_refl eq_refl eq_refl Hrun).
Defined.

(** The run on three files: two lines, one issue each, two issues in
    all. *)
Lemma categoryLines_add_up_witness :
  exists report,
    runAudit integerToString mixedDisk sampleRefs = Some report
    /\ categoryLines (issues (finalState report)) = [("vocab", 1); ("parse", 1)]
    /\ list_sum (map snd (categoryLines (issues (finalState report))))
       = length (issues (finalState report)).
Proof.
  assert (exists report, runAudit integerToString mixedDisk sampleRefs = Some report)
    as [report Hrun].
  { eexists. vm_compute. reflexivity. }
  destruct (categoryLines_add_up integerToString mixedDisk sampleRefs report Hrun)
    as [_ [_ [Hsum _]]].
  exists report. split; [exact Hrun|]. split; [|exact Hsum].
  vm_compute in Hrun. injection Hrun as <-. reflexivity.
Defined.

